(** * Change detection, rollback and alerting of the configuration monitor

    A shallow embedding of the monitoring core of the repository:
    [RegistryKey] / [PlistFile] (the monitored items), [WindowsRollback] /
    [MacOSRollback], [Alert], [WindowsMonitoring] / [MacOSMonitoring],
    [WindowsJsonUtils] / [MacOSJsonUtils], [Database] (its logical
    contents) and [EncryptionUtils].

    The Windows and the macOS classes are two copies of the same code; the
    embedding has one definition per member function, parameterised by a
    [Platform], with an explicit [match] wherever the two copies differ.

    Conventions.
    - A [QString] is a [string]; the null and the empty [QString] compare
      equal in Qt, both are [""] here.
    - A C++ [int] is a [Z] in the range of 32 bits.  The only counter that
      is incremented ([m_changeCount]) is a signed [int]: its increment is
      written with the wrap-around of a 32-bit two's-complement integer
      ([Qt.wrapInt]); C++ leaves the overflow undefined, and the statements
      about the counter assume it does not happen.
    - Objects reached through pointers ([RegistryKey*], [PlistFile*]) are
      passed and returned as values; the external resources, the SQL
      database, the clock, the network and the emitted signals live in one
      [World] threaded through a state monad.
    - [qDebug] output is not modelled; the [qWarning] output of the item,
      rollback and database classes is (as [EvWarn]). *)

From Stdlib Require Import ZArith String Ascii List Bool Lia Btauto.
From stdpp Require Import gmap strings list fin_maps.
Import ListNotations.

Open Scope string_scope.
Open Scope Z_scope.
Open Scope list_scope.

(** ** Qt value helpers *)

Module Qt.

(** [QString::isEmpty], [QByteArray::isEmpty]. *)
Definition isEmpty (s : string) : bool :=
  match s with
  | EmptyString => true
  | String _ _ => false
  end.

Definition is_space (a : ascii) : bool :=
  let n := nat_of_ascii a in
  (Nat.eqb n 32 || (Nat.leb 9 n && Nat.leb n 13))%bool.

Fixpoint skip_spaces (s : string) : string :=
  match s with
  | String a r => if is_space a then skip_spaces r else s
  | EmptyString => EmptyString
  end.

Definition trimmed (s : string) : string :=
  String.rev (skip_spaces (String.rev (skip_spaces s))).

Definition digit_of (a : ascii) : option Z :=
  let n := nat_of_ascii a in
  if (Nat.leb 48 n && Nat.leb n 57)%bool then Some (Z.of_nat n - 48) else None.

Fixpoint digits (s : string) (acc : Z) : option Z :=
  match s with
  | EmptyString => Some acc
  | String a r =>
      match digit_of a with
      | Some d => digits r (10 * acc + d)
      | None => None
      end
  end.

Definition INT_MIN : Z := - 2 ^ 31.
Definition INT_MAX : Z := 2 ^ 31 - 1.

Definition in_int_range (v : Z) : Z :=
  if ((INT_MIN <=? v) && (v <=? INT_MAX))%bool then v else 0.

(** The value an [int] holds after an arithmetic result [v]: [v] itself in
    the range of 32 bits, wrapped around outside of it. *)
Definition wrapInt (v : Z) : Z :=
  (v - INT_MIN) mod 2 ^ 32 + INT_MIN.

(** [QString::toInt()] (base 10, C locale): surrounding white space is
    skipped, one sign is allowed, and the result is [0] when the text is
    not a number or does not fit an [int]. *)
Definition toInt (s : string) : Z :=
  match trimmed s with
  | EmptyString => 0
  | String c r =>
      let neg := Ascii.eqb c "-" in
      let body := if (neg || Ascii.eqb c "+")%bool then r else String c r in
      match body, digits body 0 with
      | String _ _, Some n => in_int_range (if neg then - n else n)
      | _, _ => 0
      end
  end.

Definition lower (a : ascii) : ascii :=
  let n := nat_of_ascii a in
  if (Nat.leb 65 n && Nat.leb n 90)%bool then ascii_of_nat (n + 32) else a.

Fixpoint toLower (s : string) : string :=
  match s with
  | EmptyString => EmptyString
  | String a r => String (lower a) (toLower r)
  end.

(** [a.compare(b, Qt::CaseInsensitive) == 0].  The only use compares with
    the ASCII word "Never", no letter of which is the case folding of a
    character outside ASCII, so folding A-Z decides it. *)
Definition equalsIgnoreCase (a b : string) : bool :=
  String.eqb (toLower a) (toLower b).

(** [QString::startsWith("~")] followed by [replace(0, 1, home)]. *)
Definition expandHome (home p : string) : string :=
  match p with
  | String "~" r => home +:+ r
  | _ => p
  end.

End Qt.

(** ** The world outside the process *)

(** What [QSettings] in [NativeFormat] reads and writes: registry keys and
    plist files, addressed by the path the [QSettings] object was opened on
    and the value name.  [ext_locked] holds the paths whose writes do not
    take effect (a read-only file, a key the process may not write). *)
Record Ext := mkExt {
  ext_home   : string;
  ext_files  : gset string;
  ext_values : gmap (string * string) string;
  ext_locked : gset string
}.

(** [QFile::exists]. *)
Definition fileExists (e : Ext) (p : string) : bool :=
  bool_decide (p ∈ ext_files e).

(** [QSettings::contains] and [QSettings::value]; an invalid [QVariant] is
    [None]. *)
Definition settingsValue (e : Ext) (p n : string) : option string :=
  ext_values e !! (p, n).

Definition settingsContains (e : Ext) (p n : string) : bool :=
  match settingsValue e p n with Some _ => true | None => false end.

(** [QVariant::toString] of [QSettings::value]. *)
Definition settingsString (e : Ext) (p n : string) : string :=
  default "" (settingsValue e p n).

(** [QSettings::setValue] followed by [QSettings::sync]. *)
Definition settingsWrite (e : Ext) (p n v : string) : Ext :=
  if bool_decide (p ∈ ext_locked e) then e
  else mkExt (ext_home e) ({[ p ]} ∪ ext_files e)
             (<[ (p, n) := v ]> (ext_values e)) (ext_locked e).

(** ** Persistence store: the logical content of the three tables *)

Record ChangeRow := mkChange {
  ch_name : string;
  ch_old : string;
  ch_new : string;
  ch_acknowledged : bool;
  ch_critical : bool
}.

Record ConfigRow := mkConfig {
  cf_path : string;
  cf_value : string;
  cf_critical : bool
}.

Record UserRow := mkUser {
  u_email : string;
  u_phone : string
}.

(** [db_online] is whether [QSqlQuery::exec] succeeds.  Values are kept in
    clear: the at-rest encryption of the columns is [EncryptionUtils],
    below. *)
Record Database := mkDb {
  db_online : bool;
  db_changes : list ChangeRow;
  db_configurations : gmap string ConfigRow;
  db_users : list UserRow
}.

(** ** Events observable from outside *)

Inductive Channel := Email | Sms.

Inductive Signal :=
| rollbackPerformed (name : string)
| criticalChangeDetected (message : string)
| statusChanged (status : string)
| valueChanged
| logMessage (message : string).

Inductive Warning :=
| WarnFileMissing (p : string)
| WarnKeyMissing (n : string)
| WarnInvalidValue (n : string)
| WarnSetMismatch (p : string)
| WarnRestoreFailed (n expected found : string)
| WarnReapplyFailed (n expected found : string)
| WarnDbFailed.

Inductive Event :=
| EvWrite (p n v : string)
| EvSync (p : string)
| EvEmit (s : Signal)
| EvSendAlert (message : string)
| EvDeliver (c : Channel) (address message : string) (ok : bool)
| EvTimerStart (ms : Z)
| EvTimerStop
| EvSingleShot (ms : Z) (key : nat) (message : string)
| EvWarn (w : Warning).

(** ** World and the state monad *)

Record World := mkWorld {
  ext : Ext;
  db : Database;
  clock : nat -> Z;       (* the n-th reading of [QDateTime::currentDateTime], in ms *)
  reads : nat;
  net : nat -> Channel -> string -> string -> bool;  (* outcome of the n-th AWS call *)
  calls : nat;
  trace : list Event
}.

Definition M (A : Type) : Type := World -> A * World.

Definition ret {A} (a : A) : M A := fun w => (a, w).

Definition bind {A B} (c : M A) (k : A -> M B) : M B :=
  fun w => let (a, w') := c w in k a w'.

Notation "'do' x <- c ; k" := (bind c (fun x => k))
  (at level 10, x pattern, c at level 100, k at level 200).
Notation "c ;; k" := (bind c (fun _ => k))
  (at level 100, k at level 200, right associativity).

Definition getExt : M Ext := fun w => (ext w, w).

Definition putExt (e : Ext) : M unit := fun w =>
  (tt, mkWorld e (db w) (clock w) (reads w) (net w) (calls w) (trace w)).

Definition getDb : M Database := fun w => (db w, w).

Definition putDb (d : Database) : M unit := fun w =>
  (tt, mkWorld (ext w) d (clock w) (reads w) (net w) (calls w) (trace w)).

Definition emit (e : Event) : M unit := fun w =>
  (tt, mkWorld (ext w) (db w) (clock w) (reads w) (net w) (calls w) (trace w ++ [e])).

(** [QDateTime::currentDateTime()]: every reading consumes one clock value. *)
Definition currentDateTime : M Z := fun w =>
  (clock w (reads w),
   mkWorld (ext w) (db w) (clock w) (S (reads w)) (net w) (calls w) (trace w)).

(** One request to AWS ([SNSClient::Publish], [SESV2Client::SendEmail]). *)
Definition awsCall (c : Channel) (address message : string) : M bool := fun w =>
  let ok := net w (calls w) c address message in
  (ok, mkWorld (ext w) (db w) (clock w) (reads w) (net w) (S (calls w))
               (trace w ++ [EvDeliver c address message ok])).

Definition when (b : bool) (c : M unit) : M unit := if b then c else ret tt.

(** ** Monitored items: [RegistryKey] and [PlistFile] *)

Inductive Platform := Windows | MacOS.

(** The fields of [RegistryKey] (registryKey.h) and of [PlistFile]
    (plistFile.h); [hive] exists in [RegistryKey] only, [path] is
    [m_keyPath] there and [m_plistPath] in [PlistFile].  [m_displayText] is
    a function of [valueName] and [isCritical] ([displayText] below). *)
Record Item := mkItem {
  hive : string;
  path : string;
  valueName : string;
  isCritical : bool;
  value : string;
  previousValue : string;
  newValue : string;
  changeCount : Z;
  rollbackCancelled : bool
}.

(** [RegistryKey::name]. *)
Definition name (k : Item) : string := valueName k.

Definition displayText (k : Item) : string :=
  if isCritical k then valueName k +:+ " - Critical" else valueName k.

Definition setCritical (k : Item) (c : bool) : Item :=
  mkItem (hive k) (path k) (valueName k) c (value k) (previousValue k)
         (newValue k) (changeCount k) (rollbackCancelled k).

Definition setPreviousValue (k : Item) (v : string) : Item :=
  mkItem (hive k) (path k) (valueName k) (isCritical k) (value k) v
         (newValue k) (changeCount k) (rollbackCancelled k).

Definition setNewValue (k : Item) (v : string) : Item :=
  mkItem (hive k) (path k) (valueName k) (isCritical k) (value k)
         (previousValue k) v (changeCount k) (rollbackCancelled k).

Definition setRollbackCancelled (k : Item) (c : bool) : Item :=
  mkItem (hive k) (path k) (valueName k) (isCritical k) (value k)
         (previousValue k) (newValue k) (changeCount k) c.

Definition incrementChangeCount (k : Item) : Item :=
  mkItem (hive k) (path k) (valueName k) (isCritical k) (value k)
         (previousValue k) (newValue k) (Qt.wrapInt (changeCount k + 1))
         (rollbackCancelled k).

Definition resetChangeCount (k : Item) : Item :=
  mkItem (hive k) (path k) (valueName k) (isCritical k) (value k)
         (previousValue k) (newValue k) 0 (rollbackCancelled k).

(** The assignment [m_previousValue = m_value; m_value = v] of [setValue]. *)
Definition shiftValue (k : Item) (v : string) : Item :=
  mkItem (hive k) (path k) (valueName k) (isCritical k) v (value k)
         (newValue k) (changeCount k) (rollbackCancelled k).

Definition backslash : string := String (ascii_of_nat 92) EmptyString.

(** The path the item's [QSettings] is opened on: the constructor of
    [RegistryKey] builds [fullKey] from the hive, the constructor of
    [PlistFile] (and [PlistFile::getCurrentValue]) expand a leading "~". *)
Definition storePath (p : Platform) (e : Ext) (k : Item) : string :=
  match p with
  | Windows =>
      (if String.eqb (hive k) "HKEY_CURRENT_USER"
       then "HKEY_CURRENT_USER" +:+ backslash
       else "HKEY_LOCAL_MACHINE" +:+ backslash) +:+ path k
  | MacOS => Qt.expandHome (ext_home e) (path k)
  end.

(** [settings()->setValue(n, v); settings()->sync();].  [QSettings] is
    modelled write-through: a later read, through whichever [QSettings]
    object, returns what the store holds. *)
Definition writeSync (f n v : string) : M unit :=
  do e <- getExt;
  emit (EvWrite f n v) ;;
  putExt (settingsWrite e f n v) ;;
  emit (EvSync f).

(** [RegistryKey::getCurrentValue] (through [readCurrentValue]) and
    [PlistFile::getCurrentValue]. *)
Definition getCurrentValue (p : Platform) (k : Item) : M string :=
  do e <- getExt;
  let f := storePath p e k in
  match p with
  | Windows => ret (settingsString e f (valueName k))
  | MacOS =>
      if negb (fileExists e f) then
        emit (EvWarn (WarnFileMissing f)) ;; ret ""
      else if negb (settingsContains e f (valueName k)) then
        emit (EvWarn (WarnKeyMissing (valueName k))) ;; ret ""
      else
        match settingsValue e f (valueName k) with
        | None => emit (EvWarn (WarnInvalidValue (valueName k))) ;; ret ""
        | Some v => ret v
        end
  end.

(** [RegistryKey::setValue] and [PlistFile::setValue].  (The Windows copy
    also deletes and re-creates its [QSettings] object, which changes
    nothing in a store that is written through.) *)
Definition setValue (p : Platform) (k : Item) (v : string) : M Item :=
  if String.eqb (value k) v then ret k
  else
    let k' := shiftValue k v in
    match p with
    | Windows => ret tt
    | MacOS =>
        emit (EvEmit valueChanged) ;;
        emit (EvEmit (logMessage ("[LOG] Plist: " +:+ valueName k' +:+ ", Prev: "
                                  +:+ previousValue k' +:+ ", New: " +:+ value k')))
    end ;;
    do e <- getExt;
    let f := storePath p e k' in
    writeSync f (valueName k') (value k') ;;
    do e' <- getExt;
    let confirmed := settingsString e' f (valueName k') in
    when (negb (String.eqb confirmed (value k')))
         (emit (EvWarn (WarnSetMismatch (path k')))) ;;
    ret k'.

(** ** [Database] *)

(** The default argument of the last parameter of [Database::insertChange]
    (Database.h: [bool critical = false]). *)
Definition insertChange_default_critical : bool := false.

Definition insertChange (n o v : string) (acknowledged critical : bool) : M bool :=
  do d <- getDb;
  if db_online d then
    putDb (mkDb (db_online d)
                (db_changes d ++ [mkChange n o v acknowledged critical])
                (db_configurations d) (db_users d)) ;;
    ret true
  else emit (EvWarn WarnDbFailed) ;; ret false.

Definition insertOrUpdateConfiguration (n p v : string) (critical : bool) : M bool :=
  do d <- getDb;
  if db_online d then
    putDb (mkDb (db_online d) (db_changes d)
                (<[ n := mkConfig p v critical ]> (db_configurations d))
                (db_users d)) ;;
    ret true
  else emit (EvWarn WarnDbFailed) ;; ret false.

Definition getAllUserSettings : M (list UserRow) :=
  do d <- getDb;
  ret (if db_online d then db_users d else []).

Definition getAllChanges : M (list ChangeRow) :=
  do d <- getDb;
  ret (if db_online d then db_changes d else []).

(** [UPDATE Changes SET acknowledged = TRUE WHERE config_name = :configName
    AND acknowledged = FALSE]: the test of the name is written as equality
    of the strings (a collation of the column that identifies more names
    with [n] updates their rows as well). *)
Definition acknowledge (n : string) (r : ChangeRow) : ChangeRow :=
  if (String.eqb (ch_name r) n && negb (ch_acknowledged r))%bool
  then mkChange (ch_name r) (ch_old r) (ch_new r) true (ch_critical r)
  else r.

Definition updateAcknowledgmentStatus (n : string) : M bool :=
  do d <- getDb;
  if db_online d then
    let affected :=
      existsb (fun r => (String.eqb (ch_name r) n && negb (ch_acknowledged r))%bool)
              (db_changes d) in
    putDb (mkDb (db_online d) (map (acknowledge n) (db_changes d))
                (db_configurations d) (db_users d)) ;;
    ret affected
  else emit (EvWarn WarnDbFailed) ;; ret false.

(** ** [WindowsRollback] and [MacOSRollback] *)

(** How the rollback classes name an item in their warnings:
    [key->name()] in [WindowsRollback], [plist->plistPath()] in
    [MacOSRollback]. *)
Definition reportedName (p : Platform) (k : Item) : string :=
  match p with
  | Windows => name k
  | MacOS => path k
  end.

(** [restorePreviousValue].  (The null-pointer guard of the Windows copy has
    no counterpart: an [Item] is a value.) *)
Definition restorePreviousValue (p : Platform) (k : Item) : M unit :=
  let prevValue := previousValue k in
  do current <- getCurrentValue p k;
  if String.eqb current prevValue then ret tt
  else
    do e <- getExt;
    writeSync (storePath p e k) (valueName k) prevValue ;;
    do confirmed <- getCurrentValue p k;
    when (negb (String.eqb confirmed prevValue))
         (emit (EvWarn (WarnRestoreFailed (reportedName p k) prevValue confirmed))).

(** [rollbackIfNeeded].  The function returns [void]; the boolean returned
    here is whether [rollbackPerformed] was emitted, so that the caller can
    run the slot connected to it ([emit] is the last statement of the
    branch, and the connection is direct). *)
Definition rollbackIfNeeded (p : Platform) (k : Item) : M (Item * bool) :=
  let prevValue := previousValue k in
  do current <- getCurrentValue p k;
  if (isCritical k && negb (String.eqb current prevValue))%bool then
    let k1 := setNewValue k current in
    restorePreviousValue p k1 ;;
    insertOrUpdateConfiguration (valueName k1) (path k1) prevValue true ;;
    emit (EvEmit (rollbackPerformed (valueName k1))) ;;
    ret (k1, true)
  else ret (k, false).

(** [cancelRollback]. *)
Definition cancelRollback (p : Platform) (k : Item) : M Item :=
  let k1 := setRollbackCancelled k true in
  let newVal := newValue k1 in
  if negb (Qt.isEmpty newVal) then
    do k2 <- setValue p k1 newVal;
    do e <- getExt;
    emit (EvSync (storePath p e k2)) ;;
    do confirmed <- getCurrentValue p k2;
    when (negb (String.eqb confirmed newVal))
         (emit (EvWarn (WarnReapplyFailed (reportedName p k2) newVal confirmed))) ;;
    ret k2
  else ret k1.

(** ** [Settings] and [Alert] *)

Record Settings := mkSettings {
  email : string;
  phoneNumber : string;
  nonCriticalAlertThreshold : string;
  notificationFrequency : string
}.

(** [m_snsClient], [m_sesv2Client] and [m_database] are pointers that stay
    null when the AWS credentials could not be loaded. *)
Record Alert := mkAlert {
  snsClient : bool;
  sesv2Client : bool;
  hasDatabase : bool;
  alertTimestamps : list Z
}.

Definition setTimestamps (a : Alert) (ts : list Z) : Alert :=
  mkAlert (snsClient a) (sesv2Client a) (hasDatabase a) ts.

Definition sendSmsAlert (a : Alert) (phone message : string) : M bool :=
  if negb (snsClient a) then ret false else awsCall Sms phone message.

Definition sendEmailAlert (a : Alert) (mail message : string) : M bool :=
  if negb (sesv2Client a) then ret false else awsCall Email mail message.

(** "Send email if configured." and "Send SMS if configured.": the two
    statements of the body of the loop over [userSettings] in
    [Alert::sendAlert]. *)
Definition viaEmail (a : Alert) (message : string) (u : UserRow) (anySent : bool) : M bool :=
  if negb (Qt.isEmpty (u_email u)) then
    do ok <- sendEmailAlert a (u_email u) message;
    ret (if ok then true else anySent)
  else ret anySent.

Definition viaSms (a : Alert) (message : string) (u : UserRow) (anySent : bool) : M bool :=
  if negb (Qt.isEmpty (u_phone u)) then
    do ok <- sendSmsAlert a (u_phone u) message;
    ret (if ok then true else anySent)
  else ret anySent.

Definition deliverTo (a : Alert) (message : string) (u : UserRow) (anySent : bool) : M bool :=
  do s <- viaEmail a message u anySent;
  viaSms a message u s.

Fixpoint deliverAll (a : Alert) (message : string) (users : list UserRow)
         (anySent : bool) : M bool :=
  match users with
  | [] => ret anySent
  | u :: rest =>
      do s <- deliverTo a message u anySent;
      deliverAll a message rest s
  end.

Definition hasContact (u : UserRow) : bool :=
  (negb (Qt.isEmpty (u_email u)) || negb (Qt.isEmpty (u_phone u)))%bool.

Definition hour_ms : Z := 3600 * 1000.

(** The rate limit of [Alert::sendAlert]: [toInt] of the frequency, 10 when
    that is not positive. *)
Definition alertsPerHour (cfg : Settings) : Z :=
  let freq := Qt.toInt (notificationFrequency cfg) in
  if freq <=? 0 then 10 else freq.

(** The [remove_if] / [erase] of the time stamps older than one hour. *)
Definition pruneTimestamps (now : Z) (ts : list Z) : list Z :=
  List.filter (fun t => negb (t <? now - hour_ms)) ts.

(** [Alert::sendAlert].  [EvSendAlert] marks the call itself. *)
Definition sendAlert (cfg : Settings) (a : Alert) (message : string) : M (bool * Alert) :=
  emit (EvSendAlert message) ;;
  if (negb (snsClient a) && negb (sesv2Client a))%bool then ret (false, a)
  else if negb (hasDatabase a) then ret (false, a)
  else
    do users <- getAllUserSettings;
    match users with
    | [] => ret (false, a)
    | _ :: _ =>
        if negb (existsb hasContact users) then ret (false, a)
        else
          let freq := alertsPerHour cfg in
          do now <- currentDateTime;
          let a1 := setTimestamps a (pruneTimestamps now (alertTimestamps a)) in
          if Z.of_nat (length (alertTimestamps a1)) <? freq then
            do anySent <- deliverAll a1 message users false;
            if anySent then
              do stamp <- currentDateTime;
              ret (true, setTimestamps a1 (alertTimestamps a1 ++ [stamp]))
            else ret (false, a1)
          else ret (false, a1)
    end.

(** ** [WindowsMonitoring] and [MacOSMonitoring] *)

(** [m_timer] is [Some interval] while it runs.  [delayedAlerts] are the
    closures handed to [QTimer::singleShot] that have not fired yet: the
    captured key (its position in [items] when the closure was created)
    and the captured message. *)
Record Monitoring := mkMonitoring {
  monitoringActive : bool;
  timer : option Z;
  items : list Item;
  lastAlertedValue : gmap string string;
  alert : Alert;
  delayedAlerts : list (nat * string)
}.

Definition setActive (m : Monitoring) (b : bool) (t : option Z) : Monitoring :=
  mkMonitoring b t (items m) (lastAlertedValue m) (alert m) (delayedAlerts m).

Definition setItems (m : Monitoring) (l : list Item) : Monitoring :=
  mkMonitoring (monitoringActive m) (timer m) l (lastAlertedValue m) (alert m)
               (delayedAlerts m).

Definition setLastAlerted (m : Monitoring) (n v : string) : Monitoring :=
  mkMonitoring (monitoringActive m) (timer m) (items m)
               (<[ n := v ]> (lastAlertedValue m)) (alert m) (delayedAlerts m).

Definition setAlert (m : Monitoring) (a : Alert) : Monitoring :=
  mkMonitoring (monitoringActive m) (timer m) (items m) (lastAlertedValue m) a
               (delayedAlerts m).

Definition setDelayed (m : Monitoring) (l : list (nat * string)) : Monitoring :=
  mkMonitoring (monitoringActive m) (timer m) (items m) (lastAlertedValue m)
               (alert m) l.

(** [startMonitoring] and [stopMonitoring] (the same on both platforms). *)
Definition startMonitoring (m : Monitoring) : M Monitoring :=
  if negb (monitoringActive m) then
    emit (EvTimerStart 1000) ;;
    emit (EvEmit (statusChanged "Monitoring started")) ;;
    ret (setActive m true (Some 1000))
  else ret m.

Definition stopMonitoring (m : Monitoring) : M Monitoring :=
  if monitoringActive m then
    emit EvTimerStop ;;
    emit (EvEmit (statusChanged "Monitoring stopped")) ;;
    ret (setActive m false None)
  else ret m.

(** [Settings::getNotificationFrequency().compare("Never",
    Qt::CaseInsensitive) == 0]. *)
Definition isNever (cfg : Settings) : bool :=
  Qt.equalsIgnoreCase (notificationFrequency cfg) "Never".

(** [m_alert.sendAlert(message)] with the result dropped or only logged. *)
Definition alertVia (cfg : Settings) (m : Monitoring) (message : string) : M Monitoring :=
  do r <- sendAlert cfg (alert m) message;
  ret (setAlert m (snd r)).

(** The slot the constructors connect to [rollbackPerformed]. *)
Definition onRollbackPerformed (p : Platform) (cfg : Settings) (m : Monitoring)
           (n : string) : M Monitoring :=
  match p with
  | Windows =>
      emit (EvEmit (criticalChangeDetected ("[CRITICAL] Rollback performed for key: " +:+ n))) ;;
      ret m
  | MacOS =>
      let alertMessage := "[CRITICAL] Revert performed for file: " +:+ n in
      emit (EvEmit (criticalChangeDetected alertMessage)) ;;
      alertVia cfg m alertMessage
  end.

(** [m_lastAlertedValue.value(name)]: the default-constructed (empty)
    [QString] for a key that is absent. *)
Definition lastAlerted (m : Monitoring) (n : string) : string :=
  default "" (lastAlertedValue m !! n).

Definition criticalMessage (p : Platform) (k : Item) (currentValue : string) : string :=
  match p with
  | Windows => "[CRITICAL ALERT] Key: " +:+ name k +:+ " changed to " +:+ currentValue
  | MacOS => "[CRITICAL ALERT] " +:+ path k +:+ " changed to " +:+ currentValue
  end.

Definition thresholdMessage (p : Platform) (k : Item) (currentValue : string) : string :=
  match p with
  | Windows => "[ALERT] Non-critical threshold reached for " +:+ name k +:+ ": " +:+ currentValue
  | MacOS => "[ALERT] Threshold reached for " +:+ path k +:+ ": " +:+ currentValue
  end.

(** The tail of the loop body: "Persist the final state" (Windows), "Send
    the alert and persist final state" (macOS). *)
Definition persistFinal (p : Platform) (cfg : Settings) (m : Monitoring) (k : Item)
           (currentValue alertMessage : string) : M (Item * Monitoring) :=
  do m1 <- match p with
           | Windows => ret m
           | MacOS => alertVia cfg m alertMessage
           end;
  insertOrUpdateConfiguration (valueName k) (path k) currentValue (isCritical k) ;;
  do k1 <- setValue p k currentValue;
  ret (k1, m1).

(** The critical branch of the loop body. *)
Definition criticalChange (p : Platform) (cfg : Settings) (i : nat) (m : Monitoring)
           (k : Item) (currentValue : string) : M (Item * Monitoring) :=
  let k1 := setNewValue (setRollbackCancelled k false) currentValue in
  do r <- rollbackIfNeeded p k1;
  let k2 := fst r in
  do m1 <- (if snd r then onRollbackPerformed p cfg m (valueName k2) else ret m);
  let message := criticalMessage p k2 currentValue in
  do m2 <- match p with
           | Windows =>
               emit (EvSingleShot 10000 i message) ;;
               ret (setDelayed m1 (delayedAlerts m1 ++ [(i, message)]))
           | MacOS => ret m1
           end;
  persistFinal p cfg m2 k2 currentValue message.

(** The non-critical branch of the loop body. *)
Definition nonCriticalChange (p : Platform) (cfg : Settings) (m : Monitoring)
           (k : Item) (currentValue : string) : M (Item * Monitoring) :=
  let k1 := incrementChangeCount k in
  let threshold := Qt.toInt (nonCriticalAlertThreshold cfg) in
  let count := changeCount k1 in
  if ((0 <? threshold) && (threshold <=? count))%bool then
    let message := thresholdMessage p k1 currentValue in
    let k2 := resetChangeCount k1 in
    do m1 <- match p with
             | Windows => if negb (isNever cfg) then alertVia cfg m message else ret m
             | MacOS => ret m
             end;
    persistFinal p cfg m1 k2 currentValue message
  else
    insertOrUpdateConfiguration (valueName k1) (path k1) currentValue false ;;
    do k2 <- setValue p k1 currentValue;
    ret (k2, m).

(** The body of the loop of [checkForChanges] for the key at position [i]. *)
Definition checkItem (p : Platform) (cfg : Settings) (i : nat) (m : Monitoring)
           (k : Item) : M (Item * Monitoring) :=
  do currentValue <- getCurrentValue p k;
  let prevValue := value k in
  if String.eqb currentValue prevValue then ret (k, m)
  else
    insertChange (valueName k) prevValue currentValue false
                 insertChange_default_critical ;;
    if String.eqb (lastAlerted m (valueName k)) currentValue then
      do k1 <- setValue p k currentValue;
      ret (k1, m)
    else
      let m1 := setLastAlerted m (valueName k) currentValue in
      if isCritical k then criticalChange p cfg i m1 k currentValue
      else nonCriticalChange p cfg m1 k currentValue.

(** [checkForChanges]: the loop over [m_registryKeys] / [m_plistFiles],
    from position [i] on; each key object is updated in place. *)
Fixpoint checkFrom (p : Platform) (cfg : Settings) (i : nat) (todo : list Item)
         (m : Monitoring) : M Monitoring :=
  match todo with
  | [] => ret m
  | k :: rest =>
      do r <- checkItem p cfg i m k;
      checkFrom p cfg (S i) rest (setItems (snd r) (<[ i := fst r ]> (items (snd r))))
  end.

Definition checkForChanges (p : Platform) (cfg : Settings) (m : Monitoring) : M Monitoring :=
  checkFrom p cfg 0 (items m) m.

(** The closure [WindowsMonitoring::checkForChanges] hands to
    [QTimer::singleShot(10000, ...)], run when the timer fires.  [key] is
    the object the closure captured, in the state it has by then (the
    closure holds the pointer, so it sees what [allowChange] and later
    passes did to the object); the position recorded in [delayedAlerts]
    and in [EvSingleShot] is the one the object had in the list when the
    closure was created. *)
Definition delayedAlert (cfg : Settings) (m : Monitoring) (key : Item) (message : string)
  : M Monitoring :=
  if negb (rollbackCancelled key) then
    if isNever cfg then ret m else alertVia cfg m message
  else ret m.

(** ** [EncryptionUtils] *)

(** A [QByteArray].  A [QString] is modelled by its UTF-8 bytes, so that
    [QString::toUtf8] and [QString::fromUtf8] are the two conversions
    between [string] and [list ascii]. *)
Abbreviation bytes := (list ascii).

(** Bytewise exclusive or, up to the shorter of the two. *)
Definition xorByte (a b : ascii) : ascii :=
  let 'Ascii a0 a1 a2 a3 a4 a5 a6 a7 := a in
  let 'Ascii b0 b1 b2 b3 b4 b5 b6 b7 := b in
  Ascii (xorb a0 b0) (xorb a1 b1) (xorb a2 b2) (xorb a3 b3)
        (xorb a4 b4) (xorb a5 b5) (xorb a6 b6) (xorb a7 b7).

Fixpoint xorBytes (a b : bytes) : bytes :=
  match a, b with
  | x :: a', y :: b' => xorByte x y :: xorBytes a' b'
  | _, _ => []
  end.

Module Base64.

(** The bits of a byte, most significant first. *)
Definition bitsOfByte (a : ascii) : list bool :=
  let 'Ascii b0 b1 b2 b3 b4 b5 b6 b7 := a in [b7; b6; b5; b4; b3; b2; b1; b0].

Definition bitsOfBytes (l : bytes) : list bool := flat_map bitsOfByte l.

(** Whole groups of eight bits; what is left over is dropped. *)
Fixpoint bytesOfBits (bs : list bool) : bytes :=
  match bs with
  | b7 :: b6 :: b5 :: b4 :: b3 :: b2 :: b1 :: b0 :: r =>
      Ascii b0 b1 b2 b3 b4 b5 b6 b7 :: bytesOfBits r
  | _ => []
  end.

(** Groups of six bits, the last one filled up with zeros. *)
Fixpoint sextets (bs : list bool) : list (list bool) :=
  match bs with
  | [] => []
  | [a] => [[a; false; false; false; false; false]]
  | [a; b] => [[a; b; false; false; false; false]]
  | [a; b; c] => [[a; b; c; false; false; false]]
  | [a; b; c; d] => [[a; b; c; d; false; false]]
  | [a; b; c; d; e] => [[a; b; c; d; e; false]]
  | a :: b :: c :: d :: e :: f :: r => [a; b; c; d; e; f] :: sextets r
  end.

Definition alphabet : bytes :=
  list_ascii_of_string
    "ABCDEFGHIJKLMNOPQRSTUVWXYZabcdefghijklmnopqrstuvwxyz0123456789+/".

Definition valueOfBits (s : list bool) : nat :=
  fold_left (fun n (b : bool) => (2 * n + (if b then 1 else 0))%nat) s 0%nat.

Definition charOfSextet (s : list bool) : ascii :=
  nth (valueOfBits s) alphabet "="%char.

Fixpoint indexOf (c : ascii) (l : bytes) (i : nat) : option nat :=
  match l with
  | [] => None
  | x :: r => if Ascii.eqb x c then Some i else indexOf c r (S i)
  end.

Definition bitsOfValue (n : nat) : list bool :=
  [Nat.testbit n 5; Nat.testbit n 4; Nat.testbit n 3;
   Nat.testbit n 2; Nat.testbit n 1; Nat.testbit n 0].

(** The six bits of a character of the alphabet; [None] for every other
    character (the padding "=" included). *)
Definition sextetOfChar (c : ascii) : option (list bool) :=
  option_map bitsOfValue (indexOf c alphabet 0).

(** [QByteArray::toBase64()]: the standard alphabet, padded with "=". *)
Definition toBase64 (data : bytes) : bytes :=
  let chars := map charOfSextet (sextets (bitsOfBytes data)) in
  chars ++ repeat "="%char ((4 - length chars mod 4) mod 4).

Definition decodeChar (c : ascii) : list bool :=
  match sextetOfChar c with Some s => s | None => [] end.

(** [QByteArray::fromBase64()]: characters outside the alphabet are
    skipped, the bits of the others are collected and cut into bytes. *)
Definition fromBase64 (text : bytes) : bytes :=
  bytesOfBits (flat_map decodeChar text).

End Base64.

(** ** AES-256 (FIPS 197), the block cipher [EVP_aes_256_cbc()] selects *)

Module AES.

Definition hexDigit (c : ascii) : nat :=
  let n := nat_of_ascii c in
  if (Nat.leb 48 n && Nat.leb n 57)%bool then (n - 48)%nat
  else if (Nat.leb 97 n && Nat.leb n 102)%bool then (n - 87)%nat
  else 0%nat.

(** The bytes written as pairs of hexadecimal digits. *)
Fixpoint hex (s : string) : bytes :=
  match s with
  | String h (String l r) => ascii_of_nat (16 * hexDigit h + hexDigit l) :: hex r
  | _ => []
  end.

(** The substitution table (FIPS 197, figure 7) and its inverse (figure 14),
    row by row. *)
Definition sbox : bytes := Eval vm_compute in hex
  ("637c777bf26b6fc53001672bfed7ab76ca82c97dfa5947f0add4a2af9ca472c0"
   +:+ "b7fd9326363ff7cc34a5e5f171d8311504c723c31896059a071280e2eb27b275"
   +:+ "09832c1a1b6e5aa0523bd6b329e32f8453d100ed20fcb15b6acbbe394a4c58cf"
   +:+ "d0efaafb434d338545f9027f503c9fa851a3408f929d38f5bcb6da2110fff3d2"
   +:+ "cd0c13ec5f974417c4a77e3d645d197360814fdc222a908846eeb814de5e0bdb"
   +:+ "e0323a0a4906245cc2d3ac629195e479e7c8376d8dd54ea96c56f4ea657aae08"
   +:+ "ba78252e1ca6b4c6e8dd741f4bbd8b8a703eb5664803f60e613557b986c11d9e"
   +:+ "e1f8981169d98e949b1e87e9ce5528df8ca1890dbfe6426841992d0fb054bb16").

Definition invSbox : bytes := Eval vm_compute in hex
  ("52096ad53036a538bf40a39e81f3d7fb7ce339829b2fff87348e4344c4dee9cb"
   +:+ "547b9432a6c2233dee4c950b42fac34e082ea16628d924b2765ba2496d8bd125"
   +:+ "72f8f66486689816d4a45ccc5d65b6926c704850fdedb9da5e154657a78d9d84"
   +:+ "90d8ab008cbcd30af7e45805b8b34506d02c1e8fca3f0f02c1afbd0301138a6b"
   +:+ "3a9111414f67dcea97f2cfcef0b4e67396ac7422e7ad3585e2f937e81c75df6e"
   +:+ "47f11a711d29c5896fb7620eaa18be1bfc563e4bc6d279209adbc0fe78cd5af4"
   +:+ "1fdda8338807c731b11210592780ec5f60517fa919b54a0d2de57a9f93c99cef"
   +:+ "a0e03b4dae2af5b0c8ebbb3c83539961172b047eba77d626e169146355210c7d").

Definition subByte (b : ascii) : ascii := nth (nat_of_ascii b) sbox "000"%char.
Definition invSubByte (b : ascii) : ascii := nth (nat_of_ascii b) invSbox "000"%char.

(** The state is the block itself, 16 bytes column after column: the byte
    in row [r] and column [c] is at position [r + 4 * c]. *)
Definition SubBytes (s : bytes) : bytes := map subByte s.
Definition InvSubBytes (s : bytes) : bytes := map invSubByte s.

Definition pick (positions : list nat) (s : bytes) : bytes :=
  map (fun i => nth i s "000"%char) positions.

(** Row [r] is rotated by [r] columns. *)
Definition ShiftRows : bytes -> bytes :=
  pick [0; 5; 10; 15; 4; 9; 14; 3; 8; 13; 2; 7; 12; 1; 6; 11]%nat.
Definition InvShiftRows : bytes -> bytes :=
  pick [0; 13; 10; 7; 4; 1; 14; 11; 8; 5; 2; 15; 12; 9; 6; 3]%nat.

(** Multiplication by x in GF(2^8), modulo x^8 + x^4 + x^3 + x + 1. *)
Definition xtime (a : ascii) : ascii :=
  let 'Ascii a0 a1 a2 a3 a4 a5 a6 a7 := a in
  Ascii a7 (xorb a0 a7) a1 (xorb a2 a7) (xorb a3 a7) a4 a5 a6.

Definition mul3 (a : ascii) : ascii := xorByte (xtime a) a.
Definition mul9 (a : ascii) : ascii := xorByte (xtime (xtime (xtime a))) a.
Definition mul11 (a : ascii) : ascii :=
  xorByte (xtime (xtime (xtime a))) (xorByte (xtime a) a).
Definition mul13 (a : ascii) : ascii :=
  xorByte (xtime (xtime (xtime a))) (xorByte (xtime (xtime a)) a).
Definition mul14 (a : ascii) : ascii :=
  xorByte (xtime (xtime (xtime a))) (xorByte (xtime (xtime a)) (xtime a)).

Definition xor4 (a b c d : ascii) : ascii :=
  xorByte a (xorByte b (xorByte c d)).

Definition mixColumn (a b c d : ascii) : bytes :=
  [xor4 (xtime a) (mul3 b) c d;
   xor4 a (xtime b) (mul3 c) d;
   xor4 a b (xtime c) (mul3 d);
   xor4 (mul3 a) b c (xtime d)].

Definition invMixColumn (a b c d : ascii) : bytes :=
  [xor4 (mul14 a) (mul11 b) (mul13 c) (mul9 d);
   xor4 (mul9 a) (mul14 b) (mul11 c) (mul13 d);
   xor4 (mul13 a) (mul9 b) (mul14 c) (mul11 d);
   xor4 (mul11 a) (mul13 b) (mul9 c) (mul14 d)].

Fixpoint MixColumns (s : bytes) : bytes :=
  match s with
  | a :: b :: c :: d :: r => mixColumn a b c d ++ MixColumns r
  | _ => []
  end.

Fixpoint InvMixColumns (s : bytes) : bytes :=
  match s with
  | a :: b :: c :: d :: r => invMixColumn a b c d ++ InvMixColumns r
  | _ => []
  end.

Definition AddRoundKey (s roundKey : bytes) : bytes := xorBytes s roundKey.

(** *** Key expansion for a key of 8 words: 60 words, 15 round keys *)

Definition word : Type := ascii * ascii * ascii * ascii.

Definition bytesOfWord (w : word) : bytes :=
  let '(a, b, c, d) := w in [a; b; c; d].

Fixpoint wordsOf (l : bytes) : list word :=
  match l with
  | a :: b :: c :: d :: r => (a, b, c, d) :: wordsOf r
  | _ => []
  end.

Definition zeroWord : word := ("000", "000", "000", "000")%char.

Definition xorWord (v w : word) : word :=
  let '(a, b, c, d) := v in
  let '(a', b', c', d') := w in
  (xorByte a a', xorByte b b', xorByte c c', xorByte d d').

Definition RotWord (w : word) : word :=
  let '(a, b, c, d) := w in (b, c, d, a).

Definition SubWord (w : word) : word :=
  let '(a, b, c, d) := w in (subByte a, subByte b, subByte c, subByte d).

(** [Rcon j] is x^(j-1) in the first byte. *)
Definition Rcon (j : nat) : word :=
  (Nat.iter (j - 1) xtime "001"%char, "000"%char, "000"%char, "000"%char).

(** The word at position [i], from the words before it. *)
Definition nextWord (i : nat) (w : list word) : word :=
  let prev := nth (i - 1) w zeroWord in
  let temp :=
    if Nat.eqb (i mod 8) 0 then xorWord (SubWord (RotWord prev)) (Rcon (i / 8))
    else if Nat.eqb (i mod 8) 4 then SubWord prev
    else prev in
  xorWord (nth (i - 8) w zeroWord) temp.

Fixpoint expand (n : nat) (w : list word) : list word :=
  match n with
  | O => w
  | S n' => expand n' (w ++ [nextWord (length w) w])
  end.

Definition KeyExpansion (key : bytes) : list word := expand 52 (wordsOf key).

Definition roundKey (w : list word) (r : nat) : bytes :=
  flat_map bytesOfWord (firstn 4 (skipn (4 * r) w)).

(** *** The cipher and the inverse cipher, 14 rounds *)

Definition round (s rk : bytes) : bytes :=
  AddRoundKey (MixColumns (ShiftRows (SubBytes s))) rk.

Definition finalRound (s rk : bytes) : bytes :=
  AddRoundKey (ShiftRows (SubBytes s)) rk.

Definition invFinalRound (s rk : bytes) : bytes :=
  InvSubBytes (InvShiftRows (AddRoundKey s rk)).

Definition invRound (s rk : bytes) : bytes :=
  InvSubBytes (InvShiftRows (InvMixColumns (AddRoundKey s rk))).

Definition middleKeys (w : list word) : list bytes := map (roundKey w) (seq 1 13).

Definition Cipher (key input : bytes) : bytes :=
  let w := KeyExpansion key in
  let s := AddRoundKey input (roundKey w 0) in
  let s := fold_left round (middleKeys w) s in
  finalRound s (roundKey w 14).

Definition InvCipher (key input : bytes) : bytes :=
  let w := KeyExpansion key in
  let s := invFinalRound input (roundKey w 14) in
  let s := fold_left invRound (rev (middleKeys w)) s in
  AddRoundKey s (roundKey w 0).

End AES.

(** What [EncryptionUtils] needs of the cipher OpenSSL provides: one
    16-byte block is encrypted or decrypted under a 32-byte key. *)
Class BlockCipher := {
  encryptBlock : bytes -> bytes -> bytes;
  decryptBlock : bytes -> bytes -> bytes
}.

(** What a block cipher is: decryption undoes encryption, and blocks stay
    blocks. *)
Definition cipherLaws (C : BlockCipher) : Prop :=
  forall key b, length key = 32%nat -> length b = 16%nat ->
    decryptBlock key (encryptBlock key b) = b
    /\ length (encryptBlock key b) = 16%nat.

Module EncryptionUtils.
Section WithCipher.

Context {cipher : BlockCipher}.

(** The input cut into blocks of 16 bytes. *)
Fixpoint chunks (fuel : nat) (l : bytes) : list bytes :=
match fuel, l with
| S f, _ :: _ => firstn 16 l :: chunks f (skipn 16 l)
| _, _ => []
end.

Definition blocks (l : bytes) : list bytes := chunks (length l) l.

(** The padding [EVP_EncryptFinal_ex] adds (PKCS#7): [n] bytes of value
  [n], where [n] in 1..16 fills the last block. *)
Definition pad (data : bytes) : bytes :=
let n := (16 - length data mod 16)%nat in
data ++ repeat (ascii_of_nat n) n.

(** The check of [EVP_DecryptFinal_ex]: the last byte [n] must be in
  1..16 and the last [n] bytes must all be [n]; they are removed. *)
Definition unpad (l : bytes) : option bytes :=
let b := List.last l "000"%char in
let n := nat_of_ascii b in
if (Nat.leb 1 n && Nat.leb n 16 && Nat.leb n (length l)
    && forallb (Ascii.eqb b) (skipn (length l - n) l))%bool
then Some (firstn (length l - n) l)
else None.

(** Cipher block chaining. *)
Fixpoint cbcEncrypt (key prev : bytes) (ps : list bytes) : list bytes :=
match ps with
| [] => []
| p :: r =>
    let c := encryptBlock key (xorBytes p prev) in
    c :: cbcEncrypt key c r
end.

Fixpoint cbcDecrypt (key prev : bytes) (cs : list bytes) : list bytes :=
match cs with
| [] => []
| c :: r => xorBytes (decryptBlock key c) prev :: cbcDecrypt key c r
end.

(** [EVP_EncryptInit_ex], [EVP_EncryptUpdate], [EVP_EncryptFinal_ex]
  with [EVP_aes_256_cbc()]. *)
Definition evpEncrypt (key iv input : bytes) : bytes :=
concat (cbcEncrypt key iv (blocks (pad input))).

(** [EVP_DecryptInit_ex], [EVP_DecryptUpdate], [EVP_DecryptFinal_ex]:
  [None] when the final call fails, which it does on an input that is
  empty or not a whole number of blocks and on bad padding. *)
Definition evpDecrypt (key iv input : bytes) : option bytes :=
if (Nat.eqb (length input) 0 || negb (Nat.eqb (length input mod 16) 0))%bool
then None
else unpad (concat (cbcDecrypt key iv (blocks input))).

(** The static members [encryptionKey], [encryptionIv] and
  [lastKeyFileModified] (an invalid [QDateTime] is [None]). *)
Record Keys := mkKeys {
encryptionKey : bytes;
encryptionIv : bytes;
lastKeyFileModified : option Z
}.

(** encryptionKeys.json: its modification time ([None] when the file does
  not exist) and the base64-decoded "key" and "iv" members ([None] when
  the file cannot be opened or a member is absent). *)
Record KeyFile := mkKeyFile {
kf_modified : option Z;
kf_material : option (bytes * bytes)
}.

(** [loadEncryptionKeys]. *)
Definition loadEncryptionKeys (f : KeyFile) (ks : Keys) : Keys :=
match kf_modified f, kf_material f with
| Some t, Some (newKey, newIv) =>
    if negb (Nat.eqb (length newKey) 32) then ks
    else if negb (Nat.eqb (length newIv) 16) then ks
    else mkKeys newKey newIv (Some t)
| _, _ => ks
end.

(** [maybeReloadKeys]. *)
Definition maybeReloadKeys (f : KeyFile) (ks : Keys) : Keys :=
match lastKeyFileModified ks, kf_modified f with
| None, _ => loadEncryptionKeys f ks
| Some t0, Some t => if t0 <? t then loadEncryptionKeys f ks else ks
| Some _, None => ks
end.

Definition noKeys (ks : Keys) : bool :=
match encryptionKey ks, encryptionIv ks with
| _ :: _, _ :: _ => false
| _, _ => true
end.

(** [EncryptionUtils::encrypt]; the second component is the key material
  after the call. *)
Definition encrypt (f : KeyFile) (ks : Keys) (data : string) : bytes * Keys :=
if Qt.isEmpty data then ([], ks)
else
  let ks' := maybeReloadKeys f ks in
  if noKeys ks' then ([], ks')
  else
    (Base64.toBase64
       (evpEncrypt (encryptionKey ks') (encryptionIv ks') (list_ascii_of_string data)),
     ks').

(** [EncryptionUtils::decrypt]: the empty string on every failure. *)
Definition decrypt (f : KeyFile) (ks : Keys) (encryptedData : bytes) : string * Keys :=
match encryptedData with
| [] => ("", ks)
| _ :: _ =>
    let ks' := maybeReloadKeys f ks in
    if noKeys ks' then ("", ks')
    else
      match evpDecrypt (encryptionKey ks') (encryptionIv ks')
                       (Base64.fromBase64 encryptedData) with
      | Some output => (string_of_list_ascii output, ks')
      | None => ("", ks')
      end
end.

End WithCipher.

(** The key material is usable and the key file has not changed since it
    was loaded. *)
Definition keysLoaded (f : KeyFile) (ks : Keys) : Prop :=
  length (encryptionKey ks) = 32%nat
  /\ length (encryptionIv ks) = 16%nat
  /\ maybeReloadKeys f ks = ks.

End EncryptionUtils.

(** [EVP_aes_256_cbc()]. *)
#[export] Instance aes256 : BlockCipher := {|
  encryptBlock := AES.Cipher;
  decryptBlock := AES.InvCipher
|}.

(** ** Concrete configurations used by the examples below *)

Definition mousePath : string :=
  "HKEY_CURRENT_USER" +:+ backslash +:+ "Control Panel" +:+ backslash +:+ "Mouse".

(** The registry value [DoubleClickSpeed], cached at "500". *)
Definition mouseKey (critical cancelled : bool) : Item :=
  mkItem "HKEY_CURRENT_USER" ("Control Panel" +:+ backslash +:+ "Mouse")
         "DoubleClickSpeed" critical "500" "500" "" 0 cancelled.

(** A registry that holds [v] for it; [locked] makes the key read-only. *)
Definition registry (v : string) (locked : bool) : Ext :=
  mkExt "C:/Users/admin" ∅ {[ (mousePath, "DoubleClickSpeed") := v ]}
        (if locked then {[ mousePath ]} else ∅).

(** A registry from which the value has been deleted. *)
Definition emptyRegistry : Ext := mkExt "C:/Users/admin" ∅ ∅ ∅.

Definition dockPath : string := "/Users/admin/Library/Preferences/com.apple.dock.plist".

(** The plist value [autohide], cached at "1". *)
Definition dockKey (critical : bool) : Item :=
  mkItem "" "~/Library/Preferences/com.apple.dock.plist" "autohide" critical
         "1" "1" "" 0 false.

(** A home directory whose dock plist holds [v]; [locked] makes the file
    read-only. *)
Definition plists (v : string) (locked : bool) : Ext :=
  mkExt "/Users/admin" {[ dockPath ]} {[ (dockPath, "autohide") := v ]}
        (if locked then {[ dockPath ]} else ∅).

(** A home directory from which the dock plist has been removed. *)
Definition noPlists : Ext := mkExt "/Users/admin" ∅ ∅ ∅.

Definition operators : Database :=
  mkDb true [] ∅ [mkUser "ops@example.org" "+15551234567"].

Definition everyCallSucceeds : nat -> Channel -> string -> string -> bool :=
  fun _ _ _ _ => true.

(** One second between two readings of the clock. *)
Definition secondsClock : nat -> Z := fun n => 1000 * Z.of_nat n.

Definition worldOf (e : Ext) : World :=
  mkWorld e operators secondsClock 0 everyCallSucceeds 0 [].

Definition awsAlert : Alert := mkAlert true true true [].

Definition settingsWith (threshold frequency : string) : Settings :=
  mkSettings "ops@example.org" "+15551234567" threshold frequency.

Definition monitorOf (ks : list Item) : Monitoring :=
  mkMonitoring true (Some 1000) ks ∅ awsAlert [].

(** Key material: a 32-byte key and two 16-byte initial vectors that differ
    in their first byte ("A" is 0x41, "@" is 0x40). *)
Definition exampleKey : bytes := list_ascii_of_string "0123456789abcdef0123456789abcdef".
Definition exampleIv : bytes := list_ascii_of_string "ABCDEFGHIJKLMNOP".
Definition otherIv : bytes := list_ascii_of_string "@BCDEFGHIJKLMNOP".

(** A vector under which the one block of the text "500", encrypted under
    [exampleIv], decrypts to sixteen bytes of value 16, a whole block of
    padding: [exampleIv] xor the padded text xor the padding. *)
Definition craftedIv : bytes := list_ascii_of_string "dbcYX[ZUTWVQPSRM".

Definition keyFileOf (iv : bytes) : EncryptionUtils.KeyFile :=
  EncryptionUtils.mkKeyFile (Some 5) (Some (exampleKey, iv)).

Definition keysOf (iv : bytes) : EncryptionUtils.Keys :=
  EncryptionUtils.mkKeys exampleKey iv (Some 5).

(** ** Derived notions used in the statements *)

(** The world after the events [l] happened. *)
Definition addTrace (w : World) (l : list Event) : World :=
  mkWorld (ext w) (db w) (clock w) (reads w) (net w) (calls w) (trace w ++ l).

(** The value [getCurrentValue] returns and the warnings it prints, as
    functions of the store. *)
Definition liveValue (p : Platform) (e : Ext) (k : Item) : string :=
  let f := storePath p e k in
  match p with
  | Windows => settingsString e f (valueName k)
  | MacOS =>
      if fileExists e f then settingsString e f (valueName k) else ""
  end.

(** The warnings [getCurrentValue] prints. *)
Definition readWarnings (p : Platform) (e : Ext) (k : Item) : list Event :=
  let f := storePath p e k in
  match p with
  | Windows => []
  | MacOS =>
      if negb (fileExists e f) then [EvWarn (WarnFileMissing f)]
      else if negb (settingsContains e f (valueName k))
           then [EvWarn (WarnKeyMissing (valueName k))]
           else []
  end.

(** The world after the store became [e], the database [d], and the events
    [l] happened. *)
Definition upd (w : World) (e : Ext) (d : Database) (l : list Event) : World :=
  mkWorld e d (clock w) (reads w) (net w) (calls w) (trace w ++ l).

(** The database after [insertOrUpdateConfiguration]. *)
Definition upserted (d : Database) (n p v : string) (critical : bool) : Database :=
  if db_online d
  then mkDb (db_online d) (db_changes d)
            (<[ n := mkConfig p v critical ]> (db_configurations d)) (db_users d)
  else d.

(** The database after [insertChange]. *)
Definition logged (d : Database) (r : ChangeRow) : Database :=
  if db_online d
  then mkDb (db_online d) (db_changes d ++ [r]) (db_configurations d) (db_users d)
  else d.

(** The warning of a query that failed. *)
Definition dbWarning (d : Database) : list Event :=
  if db_online d then [] else [EvWarn WarnDbFailed].

(** What [restorePreviousValue] reports after its write. *)
Definition restoreReport (p : Platform) (e : Ext) (k : Item) : list Event :=
  readWarnings p e k ++
  (if String.eqb (liveValue p e k) (previousValue k) then []
   else [EvWarn (WarnRestoreFailed (reportedName p k) (previousValue k) (liveValue p e k))]).

(** The signals [PlistFile::setValue] emits before it writes. *)
Definition setSignals (p : Platform) (k : Item) (v : string) : list Event :=
  match p with
  | Windows => []
  | MacOS =>
      [EvEmit valueChanged;
       EvEmit (logMessage ("[LOG] Plist: " +:+ valueName k +:+ ", Prev: "
                           +:+ value k +:+ ", New: " +:+ v))]
  end.

(** What [setValue] reports after its write. *)
Definition setReport (e : Ext) (f : string) (k : Item) (v : string) : list Event :=
  if String.eqb (settingsString e f (valueName k)) v then []
  else [EvWarn (WarnSetMismatch (path k))].

(** The world after [r] clock readings, [n] AWS calls and the events [l]. *)
Definition advance (w : World) (r n : nat) (l : list Event) : World :=
  mkWorld (ext w) (db w) (clock w) (reads w + r)%nat (net w) (calls w + n)%nat
          (trace w ++ l).

(** An AWS request that carried [message]. *)
Definition isDelivery (message : string) (e : Event) : Prop :=
  exists c address ok, e = EvDeliver c address message ok.

(** A delivery that succeeded is recorded in the events [l]. *)
Definition delivered (l : list Event) : bool :=
  existsb (fun e => match e with EvDeliver _ _ _ true => true | _ => false end) l.

(** A row that names an address on a channel whose client exists. *)
Definition reachable (a : Alert) (u : UserRow) : bool :=
  ((negb (Qt.isEmpty (u_email u)) && sesv2Client a)
   || (negb (Qt.isEmpty (u_phone u)) && snsClient a))%bool.

(** Calls of [sendAlert] one after the other, as a burst of alerts makes
    them. *)
Fixpoint sendAll (cfg : Settings) (a : Alert) (messages : list string)
  : M (list bool * Alert) :=
  match messages with
  | [] => ret ([], a)
  | message :: rest =>
      do r <- sendAlert cfg a message;
      do rs <- sendAll cfg (snd r) rest;
      ret (fst r :: fst rs, snd rs)
  end.

(** The users [sendAlert] reads. *)
Definition contacts (d : Database) : list UserRow :=
  if db_online d then db_users d else [].

(** [sendAlert] gets past its guards: a client and the database object
    exist, and some row of the user settings names a contact. *)
Definition dispatchReady (a : Alert) (d : Database) : bool :=
  ((snsClient a || sesv2Client a) && hasDatabase a && existsb hasContact (contacts d))%bool.

(** The messages [Alert::sendAlert] was called with, in order. *)
Definition alertCalls (l : list Event) : list string :=
  flat_map (fun e => match e with EvSendAlert m => [m] | _ => [] end) l.

(** A computation that leaves an observation of the world as it was. *)
Definition keeps {X A} (obs : World -> X) (c : M A) : Prop :=
  forall w, obs (snd (c w)) = obs w.

(** No call of [sendAlert]. *)
Definition callsOf (w : World) : list string := alertCalls (trace w).

Abbreviation quiet := (keeps callsOf).

(** No row added to the change log, and the database still reachable or
    still unreachable. *)
Definition logOf (w : World) : list ChangeRow * bool :=
  (db_changes (db w), db_online (db w)).

Abbreviation sameLog := (keeps logOf).

(** The alerts of the last statements of the loop body. *)
Definition finalAlerts (p : Platform) (message : string) : list string :=
  match p with
  | Windows => []
  | MacOS => [message]
  end.

(** Whether Windows lets an alert through at the call site; macOS has no
    such test. *)
Definition notSilenced (p : Platform) (cfg : Settings) : bool :=
  match p with
  | Windows => negb (isNever cfg)
  | MacOS => true
  end.

(** The value cannot be read: the registry value does not exist; the plist
    file does not exist or does not hold the key. *)
Definition unavailable (p : Platform) (e : Ext) (k : Item) : bool :=
  let f := storePath p e k in
  match p with
  | Windows => negb (settingsContains e f (valueName k))
  | MacOS => (negb (fileExists e f) || negb (settingsContains e f (valueName k)))%bool
  end.

(** The AWS requests recorded in a trace. *)
Definition deliveriesOf (l : list Event) : list Event :=
  List.filter (fun e => match e with EvDeliver _ _ _ _ => true | _ => false end) l.

(** ** User overrides *)

(** What [allowChange] compares its argument with: [key->name()] in
    [WindowsMonitoring], [plist->plistPath()] in [MacOSMonitoring]. *)
Definition overrideName (p : Platform) (k : Item) : string :=
  match p with
  | Windows => name k
  | MacOS => path k
  end.

(** The three statements [allowChange] runs on the key it finds. *)
Definition allowItem (p : Platform) (k : Item) : M Item :=
  do k1 <- cancelRollback p (setRollbackCancelled k true);
  ret (setPreviousValue k1 (newValue k1)).

(** "Cancel rollback on the in-memory key": the loop stops at the first
    key that matches. *)
Fixpoint allowFirst (p : Platform) (n : string) (l : list Item) : M (list Item) :=
  match l with
  | [] => ret []
  | k :: rest =>
      if String.eqb (overrideName p k) n then
        do k1 <- allowItem p k;
        ret (k1 :: rest)
      else
        do rest1 <- allowFirst p n rest;
        ret (k :: rest1)
  end.

(** "Acknowledge in Changes table".  The Windows copy first looks for a
    row of that name that is acknowledged already and updates nothing when
    it finds one; the macOS copy updates at once.  The result is whether
    [changeAcknowledged] is emitted. *)
Definition acknowledgeChanges (p : Platform) (n : string) : M bool :=
  match p with
  | Windows =>
      do changes <- getAllChanges;
      let alreadyAck :=
        existsb (fun r => (String.eqb (ch_name r) n && ch_acknowledged r)%bool) changes in
      if negb alreadyAck then updateAcknowledgmentStatus n else ret false
  | MacOS => updateAcknowledgmentStatus n
  end.

(** [allowChange]; the boolean is whether [changeAcknowledged] was
    emitted. *)
Definition allowChange (p : Platform) (m : Monitoring) (n : string)
  : M (Monitoring * bool) :=
  do acknowledged <- acknowledgeChanges p n;
  do l <- allowFirst p n (items m);
  ret (setItems m l, acknowledged).

(** The loop of [setKeyCriticalStatus] and of [setFileCriticalStatus] (the
    same code: both compare the value name).  [setCritical] changes the
    flag when it differs, which is an assignment; the notifications of the
    list model are not recorded. *)
Fixpoint setCriticalFirst (n : string) (c : bool) (l : list Item) : M (list Item) :=
  match l with
  | [] => ret []
  | k :: rest =>
      if String.eqb (valueName k) n then
        let k1 := setCritical k c in
        insertOrUpdateConfiguration (valueName k1) (path k1) (value k1) c ;;
        ret (k1 :: rest)
      else
        do rest1 <- setCriticalFirst n c rest;
        ret (k :: rest1)
  end.

Definition setKeyCriticalStatus (m : Monitoring) (n : string) (c : bool) : M Monitoring :=
  do l <- setCriticalFirst n c (items m);
  ret (setItems m l).

(** ** The monitored keys: constructors and the JSON configuration *)

(** A [QJsonValue].  The members of an object are listed one per name, as
    a [QJsonObject] holds them. *)
#[warnings="-register-all"]
Inductive Json :=
| JNull
| JBool (b : bool)
| JNumber (literal : string)
| JString (s : string)
| JArray (elements : list Json)
| JObject (members : list (string * Json)).

(** What opening and parsing the configuration file gives: a text that is
    not JSON parses to the null document, [FileContent JNull]. *)
Inductive JsonFile :=
| FileMissing
| FileUnreadable
| FileContent (doc : Json).

(** [QJsonObject::value]. *)
Definition jsonMember (members : list (string * Json)) (key : string) : option Json :=
  option_map snd (List.find (fun f => String.eqb (fst f) key) members).

(** [QJsonValue::toString()] and [QJsonValue::toBool(false)]: the default
    for a value of another type, and for a member that is absent. *)
Definition jsonString (j : option Json) : string :=
  match j with
  | Some (JString s) => s
  | _ => ""
  end.

Definition jsonBool (j : option Json) : bool :=
  match j with
  | Some (JBool b) => b
  | _ => false
  end.

(** The constructors of [RegistryKey] and of [PlistFile]: the value read
    from the store becomes both [m_value] and [m_previousValue].  The
    members without an initialiser in the constructor start as
    registryKey.h declares them ([m_changeCount = 0],
    [m_rollbackCancelled = false], an empty [m_newValue]); [PlistFile],
    whose header is not among the sources, is given the same. *)
Definition newItem (p : Platform) (h f n : string) (critical : bool) : M Item :=
  do e <- getExt;
  let fresh v := mkItem (match p with Windows => h | MacOS => "" end)
                        f n critical v v "" 0 false in
  let opened := storePath p e (fresh "") in
  match p with
  | Windows => ret (fresh (settingsString e opened n))
  | MacOS =>
      when (negb (fileExists e opened)) (emit (EvWarn (WarnFileMissing opened))) ;;
      if negb (settingsContains e opened n) then
        emit (EvWarn (WarnKeyMissing n)) ;; ret (fresh "")
      else
        match settingsValue e opened n with
        | None => emit (EvWarn (WarnInvalidValue n)) ;; ret (fresh "")
        | Some v => ret (fresh v)
        end
  end.

(** The fields [readKeysFromJson] and [readFilesFromJson] take from an
    element of the array; [None] for an element they skip. *)
Definition entryOf (p : Platform) (j : Json) : option (string * string * string * bool) :=
  match j with
  | JObject obj =>
      let valueName := jsonString (jsonMember obj "valueName") in
      let isCritical := jsonBool (jsonMember obj "isCritical") in
      match p with
      | Windows =>
          let hive := jsonString (jsonMember obj "hive") in
          let keyPath := jsonString (jsonMember obj "keyPath") in
          if (Qt.isEmpty hive || Qt.isEmpty keyPath || Qt.isEmpty valueName)%bool
          then None
          else Some (hive, keyPath, valueName, isCritical)
      | MacOS =>
          let plistPath := jsonString (jsonMember obj "plistPath") in
          if (Qt.isEmpty plistPath || Qt.isEmpty valueName)%bool
          then None
          else Some ("", plistPath, valueName, isCritical)
      end
  | _ => None
  end.

Fixpoint readEntries (p : Platform) (l : list Json) : M (list Item) :=
  match l with
  | [] => ret []
  | j :: rest =>
      match entryOf p j with
      | Some (h, f, n, critical) =>
          do k <- newItem p h f n critical;
          do ks <- readEntries p rest;
          ret (k :: ks)
      | None => readEntries p rest
      end
  end.

(** [WindowsJsonUtils::readKeysFromJson] and
    [MacOSJsonUtils::readFilesFromJson]. *)
Definition readKeysFromJson (p : Platform) (file : JsonFile) : M (list Item) :=
  match file with
  | FileContent (JArray l) => readEntries p l
  | _ => ret []
  end.

(** "Persist these key definitions into the database". *)
Fixpoint persistKeys (l : list Item) : M unit :=
  match l with
  | [] => ret tt
  | k :: rest =>
      insertOrUpdateConfiguration (valueName k) (path k) (value k) (isCritical k) ;;
      persistKeys rest
  end.

(** [reloadMonitoredKeys] and [reloadPlistFiles] ([registryKeysChanged]
    and [plistFilesChanged], notifications of the user interface, are not
    recorded).  The list is replaced by new objects; the objects of before
    are left to the closures that captured them. *)
Definition reloadMonitoredKeys (p : Platform) (file : JsonFile) (m : Monitoring)
  : M Monitoring :=
  match file with
  | FileMissing => ret m
  | _ =>
      do newKeys <- readKeysFromJson p file;
      match newKeys with
      | [] => ret m
      | _ :: _ =>
          persistKeys newKeys ;;
          ret (setItems m newKeys)
      end
  end.

(** ** Contacts at rest *)

Module ContactStore.
Import EncryptionUtils.

(** What [Database::insertUserSettings] binds to the column [user_email]
    or [phone_number]: SQL NULL ([None]) for an empty contact, the base64
    text of what [encrypt] returns otherwise. *)
Definition storedContact (f : KeyFile) (ks : Keys) (contact : string)
  : option bytes * Keys :=
  if Qt.isEmpty contact then (None, ks)
  else
    let r := encrypt f ks contact in
    (Some (Base64.toBase64 (fst r)), snd r).

(** What [Database::getAllUserSettings] makes of the column:
    [decrypt(QByteArray::fromBase64(value.toByteArray()))]; the bytes of
    NULL are empty. *)
Definition loadedContact (f : KeyFile) (ks : Keys) (column : option bytes)
  : string * Keys :=
  decrypt f ks (Base64.fromBase64 (default [] column)).

End ContactStore.

(** ** Derived notions used in the statements of the further properties *)

(** What identifies the key or file of an item. *)
Definition keyOf (k : Item) : string * string * string := (hive k, path k, valueName k).

(** The item a step returns is the item of the same key, and the monitor
    it returns lists the same items. *)
Definition sameKeys (k : Item) (m : Monitoring) (r : Item * Monitoring * World) : Prop :=
  keyOf (fst (fst r)) = keyOf k /\ items (snd (fst r)) = items m.

(** A computation only adds to the record of events. *)
Definition extends {A} (c : M A) : Prop :=
  forall w, exists l, trace (snd (c w)) = trace w ++ l.

(** The store takes writes to the item's key or file. *)
Definition writable (p : Platform) (e : Ext) (k : Item) : bool :=
  bool_decide (storePath p e k ∉ ext_locked e).

(** The cached value of the item is the value the store holds for it. *)
Definition settled (p : Platform) (e : Ext) (k : Item) : Prop :=
  liveValue p e k = value k.

(** Only plist files that exist hold values.  (Nothing is asked of the
    registry, where no file is looked for.) *)
Definition wellFormed (p : Platform) (e : Ext) : Prop :=
  match p with
  | Windows => True
  | MacOS => forall f n, is_Some (ext_values e !! (f, n)) -> f ∈ ext_files e
  end.

(** The requests [sendAlert] makes for one row of the user settings: the
    mail address first, then the phone number, each when it is not empty
    and its client exists. *)
Definition requestsFor (a : Alert) (u : UserRow) : list (Channel * string) :=
  (if (negb (Qt.isEmpty (u_email u)) && sesv2Client a)%bool then [(Email, u_email u)] else [])
  ++ (if (negb (Qt.isEmpty (u_phone u)) && snsClient a)%bool then [(Sms, u_phone u)] else []).

(** The requests recorded in a list of events, with the message they
    carried. *)
Definition requestsOf (l : list Event) : list (Channel * string * string) :=
  flat_map (fun e => match e with
                     | EvDeliver c address message _ => [(c, address, message)]
                     | _ => []
                     end) l.

(** The rows of the change log under one name that are not acknowledged. *)
Definition pending (n : string) (d : Database) : list ChangeRow :=
  List.filter (fun r => (String.eqb (ch_name r) n && negb (ch_acknowledged r))%bool)
              (db_changes d).

(** A state of the key material [EncryptionUtils] can be in: nothing
    loaded yet, or a key of 32 bytes with a vector of 16 bytes and the
    time stamp of the file they came from. *)
Definition keysConsistent (ks : EncryptionUtils.Keys) : Prop :=
  (EncryptionUtils.encryptionKey ks = [] /\ EncryptionUtils.encryptionIv ks = []
   /\ EncryptionUtils.lastKeyFileModified ks = None)
  \/ (length (EncryptionUtils.encryptionKey ks) = 32%nat
      /\ length (EncryptionUtils.encryptionIv ks) = 16%nat
      /\ EncryptionUtils.lastKeyFileModified ks <> None).

(** A request with the message it carries. *)
Definition withMessage (message : string) (r : Channel * string) : Channel * string * string :=
  (fst r, snd r, message).

(** The item [allowChange] leaves in the place of the item it finds, and
    the store it leaves: [cancelRollback] writes [newValue] when there is
    one and the item does not cache it already. *)
Definition allowed (k : Item) : Item :=
  let v := newValue k in
  mkItem (hive k) (path k) (valueName k) (isCritical k)
         (if Qt.isEmpty v then value k else v) v v (changeCount k) true.

Definition reapplied (p : Platform) (e : Ext) (k : Item) : Ext :=
  let v := newValue k in
  if (negb (Qt.isEmpty v) && negb (String.eqb (value k) v))%bool
  then settingsWrite e (storePath p e k) (valueName k) v
  else e.

(** What an acknowledgement leaves of a row of the change log. *)
Definition recorded (r : ChangeRow) : string * string * string * bool :=
  (ch_name r, ch_old r, ch_new r, ch_critical r).

(** An item as its constructor leaves it, on a store that holds [v] for
    it. *)
Definition freshItem (p : Platform) (h f n : string) (critical : bool) (v : string) : Item :=
  mkItem (match p with Windows => h | MacOS => "" end) f n critical v v "" 0 false.

(** What [readKeysFromJson] promises of an item it returns, on the store
    [e]. *)
Definition loaded (p : Platform) (e : Ext) (k : Item) : Prop :=
  value k = liveValue p e k
  /\ previousValue k = value k
  /\ newValue k = ""
  /\ changeCount k = 0
  /\ rollbackCancelled k = false
  /\ path k <> ""
  /\ valueName k <> "".

(** An element of the array that [readKeysFromJson] does not skip. *)
Definition validEntry (p : Platform) (j : Json) : bool :=
  match entryOf p j with Some _ => true | None => false end.

(** The number of characters [insertUserSettings] binds to the column for
    a contact of [n] bytes: the base64 text of the base64 text of the
    padded blocks; nothing (NULL) for the empty contact. *)
Definition columnLength (n : nat) : nat :=
  if Nat.eqb n 0 then 0
  else 4 * ((4 * ((16 * (n / 16 + 1) + 2) / 3) + 2) / 3).

(** The row a pass logs for an item, on the store [e]: none when the store
    holds the value the item caches. *)
Definition changeRows (p : Platform) (e : Ext) (k : Item) : list ChangeRow :=
  if String.eqb (liveValue p e k) (value k) then []
  else [mkChange (valueName k) (value k) (liveValue p e k) false false].

(** * Properties *)

(** ** World updates and the equations of the primitives *)

Lemma upd_id w : upd w (ext w) (db w) [] = w.
Proof. destruct w. unfold upd; simpl. by rewrite app_nil_r. Qed.

Lemma upd_upd w e1 d1 l1 e2 d2 l2 :
  upd (upd w e1 d1 l1) e2 d2 l2 = upd w e2 d2 (l1 ++ l2).
Proof. unfold upd; simpl. by rewrite app_assoc. Qed.

Lemma getExt_eq w : getExt w = (ext w, w).
Proof. reflexivity. Qed.

Lemma emit_upd e w : emit e w = (tt, upd w (ext w) (db w) [e]).
Proof. reflexivity. Qed.

Lemma getCurrentValue_upd p k w :
  getCurrentValue p k w =
  (liveValue p (ext w) k, upd w (ext w) (db w) (readWarnings p (ext w) k)).
Proof.
  unfold getCurrentValue, liveValue, readWarnings, bind, getExt, emit, ret,
    settingsContains, settingsString.
  destruct p; simpl.
  - by rewrite upd_id.
  - destruct (fileExists _ _); simpl; [| done].
    destruct (settingsValue _ _ _); simpl; [| done].
    by rewrite upd_id.
Qed.

Lemma writeSync_upd f n v w :
  writeSync f n v w =
  (tt, upd w (settingsWrite (ext w) f n v) (db w) [EvWrite f n v; EvSync f]).
Proof.
  unfold writeSync, bind, getExt, emit, putExt, upd; simpl.
  by rewrite <- app_assoc.
Qed.

Lemma emit_emit_ret {A} (a b : Event) (x : A) w :
  (emit a ;; emit b ;; ret x) w = (x, addTrace w [a; b]).
Proof. unfold bind, emit, ret, addTrace; simpl. by rewrite <- app_assoc. Qed.

(** One step of a computation whose first action has a known equation. *)
Ltac mstep E := unfold bind at 1; rewrite E; cbv beta iota.

(** What holds of the rest of a computation holds of the whole. *)
Lemma bind_inv {A B} (c : M A) (k : A -> M B) (w : World) (P : B * World -> Prop) :
  (forall a w', c w = (a, w') -> P (k a w')) -> P (bind c k w).
Proof. intros H. unfold bind. destruct (c w) as [a w'] eqn:E. by apply H. Qed.

(** ** Start and stop *)

(** C10.  [startMonitoring] on a running monitor and [stopMonitoring] on a
    stopped one return the monitor and the world unchanged (no timer
    restart, no [statusChanged]); the flag and the timer change exactly on
    a Stopped-to-Running or Running-to-Stopped call, which starts or stops
    the timer once and emits one [statusChanged]; hence a second call in a
    row changes nothing. *)
Theorem start_stop_idempotent (m : Monitoring) (w : World) :
  startMonitoring m w =
    (if monitoringActive m then (m, w)
     else (setActive m true (Some 1000),
           addTrace w [EvTimerStart 1000; EvEmit (statusChanged "Monitoring started")]))
  /\ stopMonitoring m w =
    (if monitoringActive m
     then (setActive m false None,
           addTrace w [EvTimerStop; EvEmit (statusChanged "Monitoring stopped")])
     else (m, w))
  /\ (let r := startMonitoring m w in startMonitoring (fst r) (snd r) = r)
  /\ (let r := stopMonitoring m w in stopMonitoring (fst r) (snd r) = r).
Proof.
  assert (Hon : forall m' w', monitoringActive m' = false ->
            startMonitoring m' w' =
            (setActive m' true (Some 1000),
             addTrace w' [EvTimerStart 1000; EvEmit (statusChanged "Monitoring started")])).
  { intros m' w' H. unfold startMonitoring. rewrite H. apply emit_emit_ret. }
  assert (Hoff : forall m' w', monitoringActive m' = true ->
            stopMonitoring m' w' =
            (setActive m' false None,
             addTrace w' [EvTimerStop; EvEmit (statusChanged "Monitoring stopped")])).
  { intros m' w' H. unfold stopMonitoring. rewrite H. apply emit_emit_ret. }
  assert (Hon' : forall m' w', monitoringActive m' = true -> startMonitoring m' w' = (m', w')).
  { intros m' w' H. unfold startMonitoring. by rewrite H. }
  assert (Hoff' : forall m' w', monitoringActive m' = false -> stopMonitoring m' w' = (m', w')).
  { intros m' w' H. unfold stopMonitoring. by rewrite H. }
  destruct (monitoringActive m) eqn:Hact.
  - rewrite (Hon' _ _ Hact), (Hoff _ _ Hact). repeat split; simpl; auto.
  - rewrite (Hon _ _ Hact), (Hoff' _ _ Hact). repeat split; simpl; auto.
Qed.

(** ** Accepting the cached value *)

(** C9.  [setValue] with the cached value returns the item unchanged
    ([m_value] and [m_previousValue] included) and leaves the whole world
    as it was: the store is not written, nothing is synced, signalled or
    logged. *)
Theorem setValue_same_noop (p : Platform) (k : Item) (w : World) :
  setValue p k (value k) w = (k, w).
Proof. unfold setValue. by rewrite String.eqb_refl. Qed.

(** ** Alert dispatch *)

Lemma advance_0 w : advance w 0 0 [] = w.
Proof.
  destruct w; unfold advance; simpl.
  by rewrite !Nat.add_0_r, app_nil_r.
Qed.

Lemma advance_advance w r1 n1 l1 r2 n2 l2 :
  advance (advance w r1 n1 l1) r2 n2 l2 = advance w (r1 + r2) (n1 + n2) (l1 ++ l2).
Proof.
  unfold advance; simpl. by rewrite !Nat.add_assoc, app_assoc.
Qed.

Lemma delivered_app l1 l2 : delivered (l1 ++ l2) = (delivered l1 || delivered l2)%bool.
Proof. apply existsb_app. Qed.

Lemma awsCall_eq c address message w :
  awsCall c address message w =
  (net w (calls w) c address message,
   advance w 0 1 [EvDeliver c address message (net w (calls w) c address message)]).
Proof.
  unfold awsCall, advance. by rewrite Nat.add_0_r, Nat.add_1_r.
Qed.

Lemma sendEmailAlert_spec a address message w :
  exists n l,
    sendEmailAlert a address message w = (delivered l, advance w 0 n l)
    /\ Forall (isDelivery message) l.
Proof.
  unfold sendEmailAlert. destruct (sesv2Client a); simpl.
  - rewrite awsCall_eq. eexists 1%nat, [_]. split.
    + f_equal. simpl. by destruct (net w _ _ _ _).
    + repeat constructor. red; eauto.
  - exists 0%nat, []. rewrite advance_0. split; [done | constructor].
Qed.

Lemma sendSmsAlert_spec a address message w :
  exists n l,
    sendSmsAlert a address message w = (delivered l, advance w 0 n l)
    /\ Forall (isDelivery message) l.
Proof.
  unfold sendSmsAlert. destruct (snsClient a); simpl.
  - rewrite awsCall_eq. eexists 1%nat, [_]. split.
    + f_equal. simpl. by destruct (net w _ _ _ _).
    + repeat constructor. red; eauto.
  - exists 0%nat, []. rewrite advance_0. split; [done | constructor].
Qed.

Lemma viaEmail_spec a message u any w :
  exists n l,
    viaEmail a message u any w = ((any || delivered l)%bool, advance w 0 n l)
    /\ Forall (isDelivery message) l.
Proof.
  unfold viaEmail, bind, ret. destruct (Qt.isEmpty (u_email u)); simpl.
  - exists 0%nat, []. rewrite advance_0, orb_false_r. split; [done | constructor].
  - destruct (sendEmailAlert_spec a (u_email u) message w) as (n & l & -> & F).
    exists n, l. split; [| done]. f_equal. by destruct (delivered l), any.
Qed.

Lemma viaSms_spec a message u any w :
  exists n l,
    viaSms a message u any w = ((any || delivered l)%bool, advance w 0 n l)
    /\ Forall (isDelivery message) l.
Proof.
  unfold viaSms, bind, ret. destruct (Qt.isEmpty (u_phone u)); simpl.
  - exists 0%nat, []. rewrite advance_0, orb_false_r. split; [done | constructor].
  - destruct (sendSmsAlert_spec a (u_phone u) message w) as (n & l & -> & F).
    exists n, l. split; [| done]. f_equal. by destruct (delivered l), any.
Qed.

Lemma deliverTo_spec a message u any w :
  exists n l,
    deliverTo a message u any w = ((any || delivered l)%bool, advance w 0 n l)
    /\ Forall (isDelivery message) l.
Proof.
  unfold deliverTo, bind.
  destruct (viaEmail_spec a message u any w) as (n1 & l1 & -> & F1).
  destruct (viaSms_spec a message u (any || delivered l1)%bool (advance w 0 n1 l1))
    as (n2 & l2 & -> & F2).
  exists (n1 + n2)%nat, (l1 ++ l2).
  rewrite advance_advance, delivered_app, orb_assoc.
  split; [done | by apply Forall_app].
Qed.

Lemma deliverAll_spec a message users : forall any w,
  exists n l,
    deliverAll a message users any w = ((any || delivered l)%bool, advance w 0 n l)
    /\ Forall (isDelivery message) l.
Proof.
  induction users as [| u rest IH]; intros any w; simpl.
  - exists 0%nat, []. rewrite advance_0, orb_false_r. split; [done | constructor].
  - unfold bind.
    destruct (deliverTo_spec a message u any w) as (n1 & l1 & -> & F1).
    destruct (IH (any || delivered l1)%bool (advance w 0 n1 l1)) as (n2 & l2 & -> & F2).
    exists (n1 + n2)%nat, (l1 ++ l2). rewrite advance_advance, delivered_app, orb_assoc.
    split; [done | by apply Forall_app].
Qed.

(** With every AWS call succeeding, one reachable row is enough. *)
Lemma deliverTo_ok a message u any w :
  (forall i c address m, net w i c address m = true) ->
  (any || reachable a u)%bool = true ->
  fst (deliverTo a message u any w) = true.
Proof.
  intros Hnet. unfold reachable, deliverTo, viaEmail, viaSms, sendEmailAlert,
    sendSmsAlert, bind, ret.
  destruct (Qt.isEmpty (u_email u)), (sesv2Client a),
           (Qt.isEmpty (u_phone u)), (snsClient a), any; simpl;
    rewrite ?awsCall_eq; simpl; rewrite ?Hnet; simpl;
    rewrite ?awsCall_eq; simpl; rewrite ?Hnet; simpl; try done.
Qed.

Lemma deliverAll_ok a message users : forall any w,
  (forall i c address m, net w i c address m = true) ->
  (any || existsb (reachable a) users)%bool = true ->
  fst (deliverAll a message users any w) = true.
Proof.
  induction users as [| u rest IH]; intros any w Hnet Hr; simpl in *.
  - by rewrite orb_false_r in Hr.
  - unfold bind.
    destruct (deliverTo_spec a message u any w) as (n1 & l1 & E & _).
    pose proof (deliverTo_ok a message u any w Hnet) as Hok.
    rewrite E in *. simpl in Hok. apply IH; [done |].
    destruct (any || reachable a u)%bool eqn:H1.
    + by rewrite Hok.
    + apply orb_false_iff in H1 as [-> H1]. rewrite H1 in Hr. simpl in Hr.
      rewrite Hr. apply orb_true_r.
Qed.

Lemma emit_eq e w : emit e w = (tt, advance w 0 0 [e]).
Proof. unfold emit, advance. by rewrite !Nat.add_0_r. Qed.

Lemma currentDateTime_eq w :
  currentDateTime w = (clock w (reads w), advance w 1 0 []).
Proof.
  unfold currentDateTime, advance. by rewrite Nat.add_0_r, Nat.add_1_r, app_nil_r.
Qed.

Lemma getAllUserSettings_eq w : getAllUserSettings w = (contacts (db w), w).
Proof. reflexivity. Qed.

(** Everything [sendAlert] does, in one statement. *)
Lemma sendAlert_spec cfg a message w :
  let now := clock w (reads w) in
  let pruned := pruneTimestamps now (alertTimestamps a) in
  exists r n l sent a',
    sendAlert cfg a message w =
      ((sent, a'), advance w r n (EvSendAlert message :: l))
    /\ (r <= 2)%nat
    /\ Forall (isDelivery message) l
    /\ ((sent = true
         /\ a' = setTimestamps a (pruned ++ [clock w (S (reads w))])
         /\ delivered l = true
         /\ dispatchReady a (db w) = true
         /\ Z.of_nat (length pruned) < alertsPerHour cfg)
        \/ (sent = false /\ a' = a /\ l = [] /\ dispatchReady a (db w) = false)
        \/ (sent = false
            /\ a' = setTimestamps a pruned
            /\ delivered l = false
            /\ dispatchReady a (db w) = true
            /\ (alertsPerHour cfg <= Z.of_nat (length pruned) -> l = [])
            /\ (Z.of_nat (length pruned) < alertsPerHour cfg ->
                fst (deliverAll (setTimestamps a pruned) message (contacts (db w)) false
                       (advance w 1 0 [EvSendAlert message])) = false))).
Proof.
  intros now pruned.
  unfold sendAlert. mstep emit_eq.
  destruct (negb (snsClient a) && negb (sesv2Client a))%bool eqn:Hcl; cbv beta iota.
  { exists 0%nat, 0%nat, [], false, a. split; [done |]. split; [lia |]. split; [constructor |].
    right; left. repeat split. unfold dispatchReady.
    by destruct (snsClient a), (sesv2Client a). }
  destruct (hasDatabase a) eqn:Hdb; cbv beta iota delta [negb].
  2: { exists 0%nat, 0%nat, [], false, a. split; [done |]. split; [lia |]. split; [constructor |].
       right; left. repeat split. unfold dispatchReady.
       rewrite Hdb. by rewrite andb_false_r. }
  mstep getAllUserSettings_eq.
  change (db (advance w 0 0 [EvSendAlert message])) with (db w).
  assert (Hready : dispatchReady a (db w) = existsb hasContact (contacts (db w))).
  { unfold dispatchReady. rewrite Hdb.
    destruct (snsClient a), (sesv2Client a); try done. }
  destruct (contacts (db w)) as [| u us] eqn:Hus; cbv beta iota.
  { exists 0%nat, 0%nat, [], false, a. split; [done |]. split; [lia |]. split; [constructor |].
    right; left. done. }
  destruct (existsb hasContact (u :: us)) eqn:Hc; cbv beta iota delta [negb].
  2: { exists 0%nat, 0%nat, [], false, a. split; [done |]. split; [lia |]. split; [constructor |].
       right; left. done. }
  mstep currentDateTime_eq. rewrite advance_advance.
  change (clock (advance w 0 0 [EvSendAlert message])
                (reads (advance w 0 0 [EvSendAlert message])))
    with (clock w (reads w + 0)%nat).
  rewrite Nat.add_0_r. fold now. change (alertTimestamps (setTimestamps a ?x)) with x.
  fold pruned.
  destruct (Z.of_nat (length pruned) <? alertsPerHour cfg) eqn:Hlim; cbv beta iota.
  2: { apply Z.ltb_ge in Hlim. exists 1%nat, 0%nat, [], false, (setTimestamps a pruned).
       split; [done |]. split; [lia |]. split; [constructor |]. right; right.
       repeat split; try done. lia. }
  apply Z.ltb_lt in Hlim.
  unfold bind at 1.
  change (advance w (0 + 1) (0 + 0) ([EvSendAlert message] ++ []))
    with (advance w 1 0 [EvSendAlert message]).
  destruct (deliverAll_spec (setTimestamps a pruned) message (u :: us) false
              (advance w 1 0 [EvSendAlert message]))
    as (n & l & E & F).
  rewrite E.
  cbv beta iota. rewrite advance_advance. rewrite orb_false_l.
  destruct (delivered l) eqn:Hd; cbv beta iota.
  - mstep currentDateTime_eq. rewrite advance_advance.
    exists 2%nat, n, l, true, (setTimestamps a (pruned ++ [clock w (S (reads w))])).
    split.
    + unfold ret. f_equal.
      * f_equal. unfold setTimestamps, advance; simpl. by rewrite Nat.add_1_r.
      * unfold advance; simpl. f_equal; [lia | by rewrite app_nil_r].
    + split; [lia |]. split; [done |]. left. done.
  - exists 1%nat, n, l, false, (setTimestamps a pruned).
    split; [done |]. split; [lia |]. split; [done |]. right; right.
    repeat split; try done; try lia.
Qed.

Lemma delivered_In message l :
  Forall (isDelivery message) l ->
  delivered l = true <-> exists c address, In (EvDeliver c address message true) l.
Proof.
  intros F. unfold delivered. rewrite existsb_exists. split.
  - intros (e & Hin & He). rewrite Forall_forall in F.
    destruct (F e (proj2 (list_elem_of_In _ _) Hin)) as (c & address & ok & ->).
    destruct ok; [eauto | done].
  - intros (c & address & Hin). eexists. split; [exact Hin | done].
Qed.

Lemma reachable_ready a d :
  hasDatabase a = true -> existsb (reachable a) (contacts d) = true ->
  dispatchReady a d = true.
Proof.
  intros Hdb H. unfold dispatchReady. rewrite Hdb.
  apply existsb_exists in H as (u & Hin & Hu). unfold reachable in Hu.
  assert (Hc : existsb hasContact (contacts d) = true).
  { apply existsb_exists. exists u. split; [done |]. unfold hasContact.
    destruct (Qt.isEmpty (u_email u)), (Qt.isEmpty (u_phone u)); done. }
  rewrite Hc.
  destruct (snsClient a), (sesv2Client a); try done.
  by destruct (Qt.isEmpty (u_email u)), (Qt.isEmpty (u_phone u)).
Qed.

(** With a reachable contact and a network that delivers, the only thing
    that stops an alert is the rate limit. *)
Lemma sendAlert_ok cfg a message w :
  hasDatabase a = true ->
  existsb (reachable a) (contacts (db w)) = true ->
  (forall i c address m, net w i c address m = true) ->
  let pruned := pruneTimestamps (clock w (reads w)) (alertTimestamps a) in
  exists r n l,
    sendAlert cfg a message w =
      (if Z.of_nat (length pruned) <? alertsPerHour cfg
       then (true, setTimestamps a (pruned ++ [clock w (S (reads w))]))
       else (false, setTimestamps a pruned),
       advance w r n l)
    /\ (r <= 2)%nat.
Proof.
  intros Hdb Hreach Hnet pruned.
  destruct (sendAlert_spec cfg a message w)
    as (r & n & l & sent & a' & E & Hr2 & F & H).
  fold pruned in H. rewrite E. exists r, n, (EvSendAlert message :: l).
  split; [| done].
  destruct H as [(-> & -> & _ & _ & Hlt) | [(_ & _ & _ & Hr) | (-> & -> & _ & _ & _ & Hno)]].
  - apply Z.ltb_lt in Hlt. by rewrite Hlt.
  - by rewrite (reachable_ready _ _ Hdb Hreach) in Hr.
  - destruct (Z.of_nat (length pruned) <? alertsPerHour cfg) eqn:Hlt; [| done].
    apply Z.ltb_lt in Hlt. specialize (Hno Hlt).
    rewrite deliverAll_ok in Hno; try done.
Qed.

Lemma pruneTimestamps_fresh now ts T :
  now <= T + hour_ms -> Forall (fun t => T <= t) ts -> pruneTimestamps now ts = ts.
Proof.
  intros Hnow. unfold pruneTimestamps. induction 1 as [| t ts Ht _ IH]; simpl; [done |].
  rewrite IH. destruct (t <? now - hour_ms) eqn:E; [| done].
  apply Z.ltb_lt in E. lia.
Qed.

Lemma pruneTimestamps_stale now ts t :
  In t ts -> t < now - hour_ms ->
  (length (pruneTimestamps now ts) < length ts)%nat.
Proof.
  unfold pruneTimestamps. intros Hin Hold.
  induction ts as [| x ts IH]; simpl in *; [done |].
  pose proof (filter_length_le (fun t0 => negb (t0 <? now - hour_ms)) ts) as Hle.
  destruct Hin as [-> | Hin].
  - apply Z.ltb_lt in Hold. rewrite Hold. simpl. lia.
  - specialize (IH Hin). destruct (negb (x <? now - hour_ms)); simpl; lia.
Qed.

(** A burst of alerts against a window that holds [c] fresh time stamps. *)
Lemma sendAll_burst cfg (N : nat) T messages : forall a w,
  alertsPerHour cfg = Z.of_nat N ->
  hasDatabase a = true ->
  existsb (reachable a) (contacts (db w)) = true ->
  (forall i c address m, net w i c address m = true) ->
  (forall i, (reads w <= i < reads w + 2 * length messages)%nat ->
             T <= clock w i <= T + hour_ms) ->
  Forall (fun t => T <= t) (alertTimestamps a) ->
  let c := length (alertTimestamps a) in
  fst (fst (sendAll cfg a messages w)) =
    repeat true (Nat.min (N - c) (length messages))
    ++ repeat false (length messages - (N - c)).
Proof.
  induction messages as [| message rest IH]; intros a w HN Hdb Hreach Hnet Hclock Hts c.
  - simpl. by rewrite Nat.min_0_r.
  - cbn [sendAll]. unfold bind at 1.
    destruct (sendAlert_ok cfg a message w Hdb Hreach Hnet) as (r & n & l & E & Hr2).
    rewrite E. clear E.
    cbn [length] in Hclock.
    rewrite (pruneTimestamps_fresh _ _ T) by (done || apply Hclock; lia).
    fold c. rewrite HN.
    set (w1 := advance w r n l).
    assert (Hclock1 : forall i, (reads w1 <= i < reads w1 + 2 * length rest)%nat ->
                                T <= clock w1 i <= T + hour_ms).
    { intros i Hi. unfold w1, advance in *. cbn [reads clock] in *. apply Hclock. lia. }
    destruct (Z.of_nat c <? Z.of_nat N) eqn:Hlt; cbv beta iota; unfold bind at 1.
    + apply Z.ltb_lt in Hlt.
      specialize (IH (setTimestamps a (alertTimestamps a ++ [clock w (S (reads w))])) w1
                     HN Hdb Hreach Hnet Hclock1).
      cbn [snd fst]. destruct (sendAll cfg _ rest w1) as [[rs a2] w2].
      cbn [fst snd ret] in *. rewrite IH.
      * cbn [alertTimestamps setTimestamps]. rewrite length_app. cbn [length].
        fold c. replace (N - c)%nat with (S (N - (c + 1))) by lia.
        cbn [Nat.min length repeat Nat.sub]. done.
      * cbn [alertTimestamps setTimestamps]. apply Forall_app. split; [done |].
        repeat constructor. apply Hclock. lia.
    + apply Z.ltb_ge in Hlt.
      specialize (IH (setTimestamps a (alertTimestamps a)) w1
                     HN Hdb Hreach Hnet Hclock1 Hts).
      cbn [snd fst]. destruct (sendAll cfg _ rest w1) as [[rs a2] w2].
      cbn [fst snd ret] in *. rewrite IH.
      cbn [alertTimestamps setTimestamps]. fold c.
      replace (N - c)%nat with 0%nat by lia. cbn [Nat.min repeat app].
      by rewrite !Nat.sub_0_r.
Qed.

(** C6.  [Alert::sendAlert]:
    - returns [true] exactly when one of the deliveries it attempted
      succeeded;
    - appends a time stamp to the window exactly in that case (a call that
      returns [false] leaves the window as it was, or only pruned);
    - with a positive frequency [N], a reachable contact and deliveries
      that succeed, a burst of [N + k] alerts against an empty window, all
      clock readings of which lie within one hour, sends exactly the first
      [N] and drops the other [k];
    - under the same conditions an alert is sent exactly when fewer than
      [N] time stamps of the last hour remain, so a full window lets the
      next alert through as soon as one of its time stamps is older than
      one hour. *)
Theorem sendAlert_rate_limit (cfg : Settings) (a : Alert) (message : string) (w : World) :
  let res := sendAlert cfg a message w in
  let sent := fst (fst res) in
  let a' := snd (fst res) in
  let now := clock w (reads w) in
  let pruned := pruneTimestamps now (alertTimestamps a) in
  (exists l, trace (snd res) = trace w ++ EvSendAlert message :: l
             /\ (sent = true <-> exists c address, In (EvDeliver c address message true) l))
  /\ (sent = true -> alertTimestamps a' = pruned ++ [clock w (S (reads w))])
  /\ (sent = false -> alertTimestamps a' = alertTimestamps a \/ alertTimestamps a' = pruned)
  /\ (forall N : nat,
        (0 < N)%nat ->
        Qt.toInt (notificationFrequency cfg) = Z.of_nat N ->
        hasDatabase a = true ->
        existsb (reachable a) (contacts (db w)) = true ->
        (forall i c address m, net w i c address m = true) ->
        (forall (k : nat) (messages : list string) (T : Z),
            alertTimestamps a = [] ->
            (forall i, (reads w <= i < reads w + 2 * (N + k))%nat ->
                       T <= clock w i <= T + hour_ms) ->
            length messages = (N + k)%nat ->
            fst (fst (sendAll cfg a messages w)) = repeat true N ++ repeat false k)
        /\ (sent = true <-> (length pruned < N)%nat)
        /\ ((length (alertTimestamps a) <= N)%nat ->
            (exists t, In t (alertTimestamps a) /\ t < now - hour_ms) ->
            sent = true)).
Proof.
  intros res sent a' now pruned.
  destruct (sendAlert_spec cfg a message w)
    as (r & n & l & sent0 & a0 & E & _ & F & H).
  fold now pruned in H.
  assert (Hsent : sent = sent0) by (unfold sent, res; by rewrite E).
  assert (Ha' : a' = a0) by (unfold a', res; by rewrite E).
  split; [| split; [| split]].
  - exists l. split.
    + unfold res. by rewrite E.
    + rewrite Hsent, <- (delivered_In message l F).
      destruct H as [(-> & _ & -> & _) | [(-> & _ & -> & _) | (-> & _ & -> & _)]]; done.
  - rewrite Hsent, Ha'. intros ->.
    destruct H as [(_ & -> & _) | [(? & _) | (? & _)]]; done.
  - rewrite Hsent, Ha'. intros ->.
    destruct H as [(? & _) | [(_ & -> & _) | (_ & -> & _)]]; [done | by left | by right].
  - intros N HN Hfreq Hdb Hreach Hnet.
    assert (Hper : alertsPerHour cfg = Z.of_nat N).
    { unfold alertsPerHour. rewrite Hfreq.
      destruct (Z.of_nat N <=? 0) eqn:E0; [apply Z.leb_le in E0; lia | done]. }
    destruct (sendAlert_ok cfg a message w Hdb Hreach Hnet) as (r' & n' & l' & E' & _).
    fold now pruned in E'. rewrite Hper in E'.
    assert (Hiff : sent = true <-> (length pruned < N)%nat).
    { unfold sent, res. rewrite E'.
      destruct (Z.of_nat (length pruned) <? Z.of_nat N) eqn:Hlt; simpl.
      - apply Z.ltb_lt in Hlt. split; [lia | done].
      - apply Z.ltb_ge in Hlt. split; [done | lia]. }
    split; [| split; [done |]].
    + intros k messages T Hempty Hclock Hlen.
      rewrite <- Hlen in Hclock.
      rewrite (sendAll_burst cfg N T messages a w Hper Hdb Hreach Hnet Hclock)
        by (rewrite Hempty; constructor).
      rewrite Hempty, Hlen. cbn [length].
      rewrite Nat.sub_0_r, Nat.min_l by lia. f_equal. f_equal. lia.
    + intros Hfull (t & Hin & Hold). apply Hiff.
      pose proof (pruneTimestamps_stale now _ t Hin Hold). fold pruned in H0. lia.
Qed.

(** C6, an instance: the frequency is "2", one row of user settings names a
    mail address and a phone number, every AWS call succeeds, and the clock
    advances by one second per reading.  Of three alerts in a row the first
    two are sent and the third is dropped. *)
Lemma sendAlert_rate_limit_witness :
  fst (fst (sendAll (settingsWith "3" "2") awsAlert ["first"; "second"; "third"]
                    (worldOf emptyRegistry)))
  = [true; true; false]
  /\ (fst (fst (sendAlert (settingsWith "3" "2") awsAlert "first" (worldOf emptyRegistry)))
      = true <-> (0 < 2)%nat).
Proof.
  destruct (sendAlert_rate_limit (settingsWith "3" "2") awsAlert "first"
                                 (worldOf emptyRegistry)) as (_ & _ & _ & H).
  destruct (H 2%nat) as (Hburst & Hiff & _).
  - lia.
  - reflexivity.
  - reflexivity.
  - reflexivity.
  - intros. reflexivity.
  - split; [| exact Hiff].
    apply (Hburst 1%nat ["first"; "second"; "third"] 0).
    + reflexivity.
    + intros i Hi. cbn [worldOf clock reads] in *. unfold secondsClock, hour_ms. lia.
    + reflexivity.
Defined.

(** ** Items and rollback *)

Lemma insertOrUpdateConfiguration_upd n p v c w :
  insertOrUpdateConfiguration n p v c w =
  (db_online (db w), upd w (ext w) (upserted (db w) n p v c) (dbWarning (db w))).
Proof.
  unfold insertOrUpdateConfiguration, upserted, dbWarning, bind, getDb, putDb, emit, ret, upd.
  destruct (db_online (db w)) eqn:E; cbn [fst snd]; [| done].
  f_equal. destruct w; cbn. by rewrite app_nil_r.
Qed.

Lemma insertChange_upd n o v a c w :
  insertChange n o v a c w =
  (db_online (db w), upd w (ext w) (logged (db w) (mkChange n o v a c)) (dbWarning (db w))).
Proof.
  unfold insertChange, logged, dbWarning, bind, getDb, putDb, emit, ret, upd.
  destruct (db_online (db w)) eqn:E; cbn [fst snd]; [| done].
  f_equal. destruct w; cbn. by rewrite app_nil_r.
Qed.

Lemma storePath_write p e f n v k :
  storePath p (settingsWrite e f n v) k = storePath p e k.
Proof.
  unfold storePath, settingsWrite. destruct p; [done |]. by case_bool_decide.
Qed.

Lemma storePath_setNewValue p e k v : storePath p e (setNewValue k v) = storePath p e k.
Proof. by destruct p. Qed.

Lemma liveValue_setNewValue p e k v : liveValue p e (setNewValue k v) = liveValue p e k.
Proof. by destruct p. Qed.

Lemma readWarnings_setNewValue p e k v :
  readWarnings p e (setNewValue k v) = readWarnings p e k.
Proof. by destruct p. Qed.

Lemma restorePreviousValue_upd p k w :
  restorePreviousValue p k w =
  (tt,
   if String.eqb (liveValue p (ext w) k) (previousValue k)
   then upd w (ext w) (db w) (readWarnings p (ext w) k)
   else
     let f := storePath p (ext w) k in
     let e' := settingsWrite (ext w) f (valueName k) (previousValue k) in
     upd w e' (db w)
         (readWarnings p (ext w) k
          ++ [EvWrite f (valueName k) (previousValue k); EvSync f]
          ++ restoreReport p e' k)).
Proof.
  unfold restorePreviousValue. mstep getCurrentValue_upd.
  destruct (String.eqb (liveValue p (ext w) k) (previousValue k)) eqn:E; [done |].
  mstep getExt_eq. cbn [ext upd]. mstep writeSync_upd. rewrite upd_upd. cbn [ext upd db].
  mstep getCurrentValue_upd. rewrite upd_upd. cbn [ext upd db].
  unfold restoreReport, when.
  destruct (String.eqb (liveValue p (settingsWrite _ _ _ _) k) (previousValue k));
    cbn [negb].
  - unfold ret. by rewrite !app_nil_r, <- !app_assoc.
  - rewrite emit_upd, upd_upd. cbn [ext upd db]. by rewrite <- !app_assoc.
Qed.

(** Everything [rollbackIfNeeded] does to a critical item whose live value
    differs from [previousValue]. *)
Lemma rollbackIfNeeded_diverged p k w :
  isCritical k = true ->
  liveValue p (ext w) k <> previousValue k ->
  let f := storePath p (ext w) k in
  let e' := settingsWrite (ext w) f (valueName k) (previousValue k) in
  rollbackIfNeeded p k w =
  ((setNewValue k (liveValue p (ext w) k), true),
   upd w e' (upserted (db w) (valueName k) (path k) (previousValue k) true)
       (readWarnings p (ext w) k ++ readWarnings p (ext w) k
        ++ [EvWrite f (valueName k) (previousValue k); EvSync f]
        ++ restoreReport p e' k
        ++ dbWarning (db w)
        ++ [EvEmit (rollbackPerformed (valueName k))])).
Proof.
  intros Hc Hd f e'. apply String.eqb_neq in Hd.
  unfold rollbackIfNeeded. mstep getCurrentValue_upd. rewrite Hc, Hd. cbn [andb negb].
  mstep restorePreviousValue_upd. cbn [ext upd db previousValue setNewValue].
  rewrite liveValue_setNewValue, Hd, storePath_setNewValue, readWarnings_setNewValue.
  cbv zeta. rewrite upd_upd. cbn [valueName setNewValue path].
  mstep insertOrUpdateConfiguration_upd. rewrite upd_upd. cbn [ext upd db].
  mstep emit_upd. rewrite upd_upd. cbn [ext upd db]. unfold ret.
  f_equal. fold f. fold e'. f_equal.
  unfold restoreReport. rewrite liveValue_setNewValue, readWarnings_setNewValue.
  cbn [previousValue valueName setNewValue]. by rewrite <- !app_assoc.
Qed.

Lemma rollbackIfNeeded_idle p k w :
  (isCritical k && negb (String.eqb (liveValue p (ext w) k) (previousValue k)))%bool = false ->
  rollbackIfNeeded p k w = ((k, false), upd w (ext w) (db w) (readWarnings p (ext w) k)).
Proof.
  intros H. unfold rollbackIfNeeded. mstep getCurrentValue_upd. by rewrite H.
Qed.

Lemma storePath_shiftValue p e k v : storePath p e (shiftValue k v) = storePath p e k.
Proof. by destruct p. Qed.

(** Everything [setValue] does when the value is new. *)
Lemma setValue_changed p k v w :
  value k <> v ->
  let f := storePath p (ext w) k in
  let e' := settingsWrite (ext w) f (valueName k) v in
  setValue p k v w =
  (shiftValue k v,
   upd w e' (db w)
       (setSignals p k v ++ [EvWrite f (valueName k) v; EvSync f] ++ setReport e' f k v)).
Proof.
  intros Hne f e'. apply String.eqb_neq in Hne.
  unfold setValue. rewrite Hne.
  assert (Hsig : (match p with
                  | Windows => ret tt
                  | MacOS =>
                      emit (EvEmit valueChanged) ;;
                      emit (EvEmit (logMessage
                        ("[LOG] Plist: " +:+ valueName (shiftValue k v) +:+ ", Prev: "
                         +:+ previousValue (shiftValue k v) +:+ ", New: "
                         +:+ value (shiftValue k v))))
                  end) w = (tt, upd w (ext w) (db w) (setSignals p k v))).
  { destruct p; cbn [setSignals].
    - unfold ret. by rewrite upd_id.
    - mstep emit_upd. rewrite emit_upd, upd_upd. done. }
  mstep Hsig. mstep getExt_eq. cbn [ext upd].
  rewrite storePath_shiftValue. fold f.
  cbn [valueName value shiftValue].
  mstep writeSync_upd. rewrite upd_upd. cbn [ext upd db]. fold e'.
  mstep getExt_eq. cbn [ext upd path shiftValue].
  unfold setReport, when.
  destruct (String.eqb (settingsString e' f (valueName k)) v); cbn [negb].
  - unfold bind, ret. by rewrite app_nil_r.
  - unfold bind. rewrite emit_upd, upd_upd. cbn [ext upd db]. unfold ret.
    by rewrite <- !app_assoc.
Qed.

Lemma setValue_fst p k v w :
  fst (setValue p k v w) = if String.eqb (value k) v then k else shiftValue k v.
Proof.
  destruct (String.eqb (value k) v) eqn:E.
  - unfold setValue. by rewrite E.
  - apply String.eqb_neq in E. by rewrite setValue_changed.
Qed.

Lemma setValue_flag p k v w :
  rollbackCancelled (fst (setValue p k v w)) = rollbackCancelled k.
Proof. rewrite setValue_fst. by destruct (String.eqb (value k) v). Qed.

Lemma rollbackIfNeeded_fst p k w :
  fst (rollbackIfNeeded p k w) =
  if (isCritical k && negb (String.eqb (liveValue p (ext w) k) (previousValue k)))%bool
  then (setNewValue k (liveValue p (ext w) k), true) else (k, false).
Proof.
  destruct (isCritical k && _)%bool eqn:E.
  - apply andb_true_iff in E as [Hc Hd]. apply negb_true_iff, String.eqb_neq in Hd.
    by rewrite rollbackIfNeeded_diverged.
  - by rewrite rollbackIfNeeded_idle.
Qed.

Lemma persistFinal_flag p cfg m k v message w :
  rollbackCancelled (fst (fst (persistFinal p cfg m k v message w))) = rollbackCancelled k.
Proof.
  unfold persistFinal.
  apply (bind_inv _ _ _ (fun r => rollbackCancelled (fst (fst r)) = _)); intros m1 w1 _.
  apply (bind_inv _ _ _ (fun r => rollbackCancelled (fst (fst r)) = _)); intros b w2 _.
  apply (bind_inv _ _ _ (fun r => rollbackCancelled (fst (fst r)) = _)); intros k1 w3 E.
  cbn [ret fst]. rewrite <- (setValue_flag p k v w2). by rewrite E.
Qed.

Lemma criticalChange_flag p cfg i m k v w :
  rollbackCancelled (fst (fst (criticalChange p cfg i m k v w))) = false.
Proof.
  unfold criticalChange.
  apply (bind_inv _ _ _ (fun r => rollbackCancelled (fst (fst r)) = _)); intros [k2 b] w1 E.
  assert (Hk2 : rollbackCancelled k2 = false).
  { pose proof (rollbackIfNeeded_fst p (setNewValue (setRollbackCancelled k false) v) w) as H.
    rewrite E in H. cbn [fst] in H. destruct (_ && _)%bool in H; by inversion H. }
  cbn [fst snd].
  apply (bind_inv _ _ _ (fun r => rollbackCancelled (fst (fst r)) = _)); intros m1 w2 _.
  apply (bind_inv _ _ _ (fun r => rollbackCancelled (fst (fst r)) = _)); intros m2 w3 _.
  by rewrite persistFinal_flag.
Qed.

(** [rollbackIfNeeded] never reads or writes the exemption flag.  For a
    critical item whose live value differs from [previousValue], and for
    either value [b] of the flag: the item comes back with the diverging
    value recorded as [newValue] and with the flag, the cached value and
    [previousValue] as they were (nothing is accepted); [previousValue] is
    written back to the store; [rollbackPerformed] is emitted; and the
    effect on the world is the same as without the flag.  It is the tick
    that clears the flag: after the critical branch of [checkForChanges]
    the flag is [false] whatever it was before. *)
Lemma rollbackIfNeeded_ignores_exemption
        (p : Platform) (k : Item) (w : World) (b : bool) :
  isCritical k = true ->
  fst (getCurrentValue p k w) <> previousValue k ->
  let current := fst (getCurrentValue p k w) in
  let kb := setRollbackCancelled k b in
  let res := rollbackIfNeeded p kb w in
  fst res = (setNewValue kb current, true)
  /\ rollbackCancelled (fst (fst res)) = b
  /\ value (fst (fst res)) = value k
  /\ previousValue (fst (fst res)) = previousValue k
  /\ snd res = snd (rollbackIfNeeded p k w)
  /\ In (EvWrite (storePath p (ext w) k) (valueName k) (previousValue k)) (trace (snd res))
  /\ In (EvEmit (rollbackPerformed (valueName k))) (trace (snd res))
  /\ ext (snd res) =
       settingsWrite (ext w) (storePath p (ext w) k) (valueName k) (previousValue k)
  /\ (forall cfg i m v,
        rollbackCancelled (fst (fst (criticalChange p cfg i m kb v w))) = false).
Proof.
  intros Hc Hd current kb res. unfold current in *. clear current.
  rewrite getCurrentValue_upd in *. cbn [fst] in *.
  assert (Hkb : liveValue p (ext w) kb = liveValue p (ext w) k) by by destruct p.
  assert (Hpath : storePath p (ext w) kb = storePath p (ext w) k) by by destruct p.
  assert (Hw : forall e, readWarnings p e kb = readWarnings p e k) by by destruct p.
  assert (Hr : forall e, restoreReport p e kb = restoreReport p e k).
  { intros e. unfold restoreReport. rewrite Hw.
    by replace (liveValue p e kb) with (liveValue p e k) by by destruct p. }
  pose proof (rollbackIfNeeded_diverged p kb w Hc) as E.
  rewrite Hkb in E. specialize (E Hd). cbv zeta in E.
  rewrite Hpath, !Hw, Hr in E. cbn [valueName previousValue path kb setRollbackCancelled] in E.
  pose proof (rollbackIfNeeded_diverged p k w Hc Hd) as E0. cbv zeta in E0.
  unfold res. rewrite E, E0. cbn [fst snd].
  repeat split; try done.
  - cbn [trace upd]. rewrite !in_app_iff. right. right. right. left. by left.
  - cbn [trace upd]. rewrite !in_app_iff. do 6 right. by left.
  - intros. apply criticalChange_flag.
Qed.


(** An instance of the lemma above: the flagged critical key found at
    "100". *)
Lemma rollbackIfNeeded_ignores_exemption_instance :
  fst (rollbackIfNeeded Windows (setRollbackCancelled (mouseKey true false) true)
                        (worldOf (registry "100" false)))
  = (setNewValue (setRollbackCancelled (mouseKey true false) true)
                 (fst (getCurrentValue Windows (mouseKey true false)
                                       (worldOf (registry "100" false)))), true).
Proof.
  refine (proj1 (rollbackIfNeeded_ignores_exemption
                   Windows (mouseKey true false) (worldOf (registry "100" false)) true
                   _ _)).
  - reflexivity.
  - vm_compute. discriminate.
Qed.

(** ** The monitoring loop *)

Lemma keeps_ret {X A} (obs : World -> X) (a : A) : keeps obs (ret a).
Proof. by intros w. Qed.

Lemma keeps_bind {X A B} (obs : World -> X) (c : M A) (k : A -> M B) :
  keeps obs c -> (forall a, keeps obs (k a)) -> keeps obs (bind c k).
Proof.
  intros Hc Hk w. unfold bind. specialize (Hc w).
  destruct (c w) as [a w']. cbn [snd] in Hc. by rewrite Hk.
Qed.

Lemma alertCalls_app l1 l2 : alertCalls (l1 ++ l2) = alertCalls l1 ++ alertCalls l2.
Proof. apply flat_map_app. Qed.

Lemma alertCalls_deliveries message l : Forall (isDelivery message) l -> alertCalls l = [].
Proof.
  induction 1 as [| e l (c & address & ok & ->) _ IH]; [done |]. by cbn.
Qed.

Lemma alertCalls_readWarnings p e k : alertCalls (readWarnings p e k) = [].
Proof.
  unfold readWarnings. destruct p; [done |].
  destruct (fileExists _ _); [| done]. by destruct (settingsContains _ _ _).
Qed.

Lemma alertCalls_restoreReport p e k : alertCalls (restoreReport p e k) = [].
Proof.
  unfold restoreReport. rewrite alertCalls_app, alertCalls_readWarnings.
  by destruct (String.eqb _ _).
Qed.

Lemma alertCalls_dbWarning d : alertCalls (dbWarning d) = [].
Proof. unfold dbWarning. by destruct (db_online d). Qed.

Lemma alertCalls_setValue p k v e f :
  alertCalls (setSignals p k v ++ [EvWrite f (valueName k) v; EvSync f] ++ setReport e f k v) = [].
Proof.
  rewrite !alertCalls_app. unfold setReport, setSignals.
  destruct p; by destruct (String.eqb _ _).
Qed.

Lemma quiet_upd (w : World) e d l :
  alertCalls l = [] -> alertCalls (trace (upd w e d l)) = alertCalls (trace w).
Proof. intros H. cbn [trace upd]. by rewrite alertCalls_app, H, app_nil_r. Qed.

Lemma quiet_getCurrentValue p k : quiet (getCurrentValue p k).
Proof.
  intros w. rewrite getCurrentValue_upd. apply quiet_upd, alertCalls_readWarnings.
Qed.

Lemma quiet_insertChange n o v a c : quiet (insertChange n o v a c).
Proof. intros w. rewrite insertChange_upd. apply quiet_upd, alertCalls_dbWarning. Qed.

Lemma quiet_insertOrUpdateConfiguration n p v c :
  quiet (insertOrUpdateConfiguration n p v c).
Proof.
  intros w. rewrite insertOrUpdateConfiguration_upd. apply quiet_upd, alertCalls_dbWarning.
Qed.

Lemma quiet_setValue p k v : quiet (setValue p k v).
Proof.
  intros w. destruct (String.eqb (value k) v) eqn:E.
  - unfold setValue. by rewrite E.
  - apply String.eqb_neq in E. rewrite setValue_changed by done.
    apply quiet_upd, alertCalls_setValue.
Qed.

Lemma quiet_rollbackIfNeeded p k : quiet (rollbackIfNeeded p k).
Proof.
  intros w.
  destruct (isCritical k && negb (String.eqb (liveValue p (ext w) k) (previousValue k)))%bool
    eqn:E.
  - apply andb_true_iff in E as [Hc Hd]. apply negb_true_iff, String.eqb_neq in Hd.
    rewrite rollbackIfNeeded_diverged by done. apply quiet_upd.
    rewrite !alertCalls_app, !alertCalls_readWarnings, alertCalls_restoreReport,
      alertCalls_dbWarning. done.
  - rewrite rollbackIfNeeded_idle by done. apply quiet_upd, alertCalls_readWarnings.
Qed.

Lemma quiet_emit e : alertCalls [e] = [] -> quiet (emit e).
Proof. intros H w. rewrite emit_upd. by apply quiet_upd. Qed.

(** One call of [sendAlert] is one more entry. *)
Lemma sendAlert_calls cfg a message w :
  alertCalls (trace (snd (sendAlert cfg a message w))) = alertCalls (trace w) ++ [message].
Proof.
  destruct (sendAlert_spec cfg a message w) as (r & n & l & sent & a' & E & _ & F & _).
  rewrite E. cbn [snd trace advance].
  change (EvSendAlert message :: l) with ([EvSendAlert message] ++ l).
  by rewrite !alertCalls_app, (alertCalls_deliveries message l F).
Qed.

Lemma alertVia_calls cfg m message w :
  alertCalls (trace (snd (alertVia cfg m message w))) = alertCalls (trace w) ++ [message].
Proof.
  unfold alertVia, bind. pose proof (sendAlert_calls cfg (alert m) message w) as H.
  by destruct (sendAlert cfg (alert m) message w) as [r w'].
Qed.

Lemma calls_bind {A B} (c : M A) (k : A -> M B) (w : World) (ms1 ms2 : list string) :
  alertCalls (trace (snd (c w))) = alertCalls (trace w) ++ ms1 ->
  (forall a w', c w = (a, w') ->
                alertCalls (trace (snd (k a w'))) = alertCalls (trace w') ++ ms2) ->
  alertCalls (trace (snd (bind c k w))) = alertCalls (trace w) ++ ms1 ++ ms2.
Proof.
  intros H1 H2. unfold bind. destruct (c w) as [a w'] eqn:E. cbn [snd] in H1.
  rewrite (H2 a w' eq_refl), H1. by rewrite app_assoc.
Qed.

Lemma calls_then_quiet {A B} (c : M A) (k : A -> M B) (w : World) (ms : list string) :
  alertCalls (trace (snd (c w))) = alertCalls (trace w) ++ ms ->
  (forall a, quiet (k a)) ->
  alertCalls (trace (snd (bind c k w))) = alertCalls (trace w) ++ ms.
Proof.
  intros H1 H2. rewrite <- (app_nil_r ms). apply calls_bind; [done |].
  intros a w' _. rewrite app_nil_r. apply H2.
Qed.

Lemma calls_after_quiet {A B} (c : M A) (k : A -> M B) (w : World) (ms : list string) :
  quiet c ->
  (forall a w', alertCalls (trace (snd (k a w'))) = alertCalls (trace w') ++ ms) ->
  alertCalls (trace (snd (bind c k w))) = alertCalls (trace w) ++ ms.
Proof.
  intros H1 H2. change ms with ([] ++ ms). apply calls_bind.
  - rewrite app_nil_r. apply H1.
  - intros a w' _. apply H2.
Qed.

Lemma quiet_bind {A B} (c : M A) (k : A -> M B) :
  quiet c -> (forall a, quiet (k a)) -> quiet (bind c k).
Proof. apply keeps_bind. Qed.

Lemma quiet_ret {A} (a : A) : quiet (ret a).
Proof. apply keeps_ret. Qed.

(** [insertOrUpdateConfiguration(...); key->setValue(v);], the way every
    path of the loop body ends. *)
Lemma quiet_persist {B} p k n f v c (b : B) :
  quiet (insertOrUpdateConfiguration n f v c ;; do k1 <- setValue p k v; ret (k1, b)).
Proof.
  apply quiet_bind; [apply quiet_insertOrUpdateConfiguration | intros _].
  apply quiet_bind; [apply quiet_setValue | intros k1]. apply quiet_ret.
Qed.

Lemma persistFinal_calls p cfg m k v message w :
  alertCalls (trace (snd (persistFinal p cfg m k v message w)))
  = alertCalls (trace w) ++ finalAlerts p message.
Proof.
  unfold persistFinal. apply calls_then_quiet.
  - destruct p; cbn [finalAlerts]; [by rewrite app_nil_r | apply alertVia_calls].
  - intros m1. apply quiet_persist.
Qed.

Lemma persistFinal_count p cfg m k v message w :
  changeCount (fst (fst (persistFinal p cfg m k v message w))) = changeCount k.
Proof.
  unfold persistFinal.
  apply (bind_inv _ _ _ (fun r => changeCount (fst (fst r)) = _)); intros m1 w1 _.
  apply (bind_inv _ _ _ (fun r => changeCount (fst (fst r)) = _)); intros b w2 _.
  apply (bind_inv _ _ _ (fun r => changeCount (fst (fst r)) = _)); intros k1 w3 E.
  cbn [ret fst]. pose proof (setValue_fst p k v w2) as H. rewrite E in H. cbn [fst] in H.
  rewrite H. by destruct (String.eqb (value k) v).
Qed.

Lemma nonCriticalChange_calls p cfg m k v w :
  let threshold := Qt.toInt (nonCriticalAlertThreshold cfg) in
  let count := Qt.wrapInt (changeCount k + 1) in
  alertCalls (trace (snd (nonCriticalChange p cfg m k v w)))
  = alertCalls (trace w)
    ++ (if ((0 <? threshold) && (threshold <=? count) && notSilenced p cfg)%bool
        then [thresholdMessage p k v] else []).
Proof.
  intros threshold count. unfold nonCriticalChange. fold threshold.
  cbn [changeCount incrementChangeCount]. fold count.
  destruct ((0 <? threshold) && (threshold <=? count))%bool; cbn [andb].
  - change (thresholdMessage p (incrementChangeCount k) v) with (thresholdMessage p k v).
    destruct p; cbn [notSilenced].
    + unfold bind at 1. destruct (negb (isNever cfg)).
      * pose proof (alertVia_calls cfg m (thresholdMessage Windows k v) w) as H.
        destruct (alertVia cfg m _ w) as [m1 w1]. cbn [snd] in H.
        rewrite persistFinal_calls, H. cbn [finalAlerts]. by rewrite app_nil_r.
      * unfold ret. rewrite persistFinal_calls. done.
    + unfold bind at 1, ret. rewrite persistFinal_calls. done.
  - rewrite app_nil_r. apply quiet_persist.
Qed.

Lemma nonCriticalChange_count p cfg m k v w :
  let threshold := Qt.toInt (nonCriticalAlertThreshold cfg) in
  let count := Qt.wrapInt (changeCount k + 1) in
  changeCount (fst (fst (nonCriticalChange p cfg m k v w)))
  = if ((0 <? threshold) && (threshold <=? count))%bool then 0 else count.
Proof.
  intros threshold count. unfold nonCriticalChange. fold threshold.
  cbn [changeCount incrementChangeCount]. fold count.
  destruct ((0 <? threshold) && (threshold <=? count))%bool.
  - apply (bind_inv _ _ _ (fun r => changeCount (fst (fst r)) = _)); intros m1 w1 _.
    by rewrite persistFinal_count.
  - apply (bind_inv _ _ _ (fun r => changeCount (fst (fst r)) = _)); intros b w1 _.
    apply (bind_inv _ _ _ (fun r => changeCount (fst (fst r)) = _)); intros k1 w2 E.
    cbn [ret fst]. pose proof (setValue_fst p (incrementChangeCount k) v w1) as H.
    rewrite E in H. cbn [fst] in H. rewrite H.
    by destruct (String.eqb _ v).
Qed.

(** The first statements of the loop body: the read, and the entry in the
    change log when the value differs. *)
Lemma checkItem_unchanged p cfg i m k w :
  liveValue p (ext w) k = value k ->
  checkItem p cfg i m k w = ((k, m), upd w (ext w) (db w) (readWarnings p (ext w) k)).
Proof.
  intros H. unfold checkItem. mstep getCurrentValue_upd.
  by rewrite H, String.eqb_refl.
Qed.

Lemma checkItem_changed p cfg i m k w :
  liveValue p (ext w) k <> value k ->
  let current := liveValue p (ext w) k in
  let w2 := upd w (ext w)
                (logged (db w) (mkChange (valueName k) (value k) current false
                                         insertChange_default_critical))
                (readWarnings p (ext w) k ++ dbWarning (db w)) in
  checkItem p cfg i m k w =
  (if String.eqb (lastAlerted m (valueName k)) current
   then do k1 <- setValue p k current; ret (k1, m)
   else if isCritical k
        then criticalChange p cfg i (setLastAlerted m (valueName k) current) k current
        else nonCriticalChange p cfg (setLastAlerted m (valueName k) current) k current) w2.
Proof.
  intros H current w2. apply String.eqb_neq in H. subst current w2.
  unfold checkItem. mstep getCurrentValue_upd. rewrite H.
  mstep insertChange_upd. rewrite upd_upd. cbn [ext db upd]. done.
Qed.

(** One pass of the loop body over a non-critical item, silenced or not:
    [sendAlert] is called exactly when the threshold is reached and the
    call site lets the alert through. *)
Lemma checkItem_nonCritical p cfg i m k w :
  isCritical k = false ->
  let current := liveValue p (ext w) k in
  let counted := (negb (String.eqb current (value k))
                  && negb (String.eqb (lastAlerted m (valueName k)) current))%bool in
  let threshold := Qt.toInt (nonCriticalAlertThreshold cfg) in
  let count := if counted then Qt.wrapInt (changeCount k + 1) else changeCount k in
  let reached := (counted && (0 <? threshold) && (threshold <=? count))%bool in
  let res := checkItem p cfg i m k w in
  alertCalls (trace (snd res))
  = alertCalls (trace w)
    ++ (if (reached && notSilenced p cfg)%bool then [thresholdMessage p k current] else [])
  /\ changeCount (fst (fst res)) = (if reached then 0 else count).
Proof.
  intros Hnc current counted threshold count reached res.
  subst reached count counted res. cbv zeta.
  destruct (String.eqb current (value k)) eqn:Hsame.
  { apply String.eqb_eq in Hsame. rewrite checkItem_unchanged by done.
    cbn [negb andb fst snd]. rewrite app_nil_r. split; [| done].
    apply quiet_upd, alertCalls_readWarnings. }
  apply String.eqb_neq in Hsame. rewrite checkItem_changed by done. fold current.
  set (w2 := upd w _ _ _).
  assert (Hw2 : alertCalls (trace w2) = alertCalls (trace w)).
  { apply quiet_upd. by rewrite alertCalls_app, alertCalls_readWarnings, alertCalls_dbWarning. }
  destruct (String.eqb (lastAlerted m (valueName k)) current) eqn:Hdeb.
  { cbn [negb andb].
    pose proof (quiet_setValue p k current w2) as Hw3. unfold callsOf in Hw3.
    pose proof (setValue_fst p k current w2) as Hk.
    unfold bind. destruct (setValue p k current w2) as [k1 w3].
    cbn [fst snd ret] in *. rewrite Hw3, Hw2, app_nil_r. split; [done |].
    rewrite Hk. by destruct (String.eqb (value k) current). }
  rewrite Hnc. cbn [negb andb]. split.
  - rewrite nonCriticalChange_calls, Hw2. done.
  - rewrite nonCriticalChange_count. done.
Qed.

(** An [int] that is in range is the [int] it was. *)
Lemma wrapInt_id v : Qt.INT_MIN <= v <= Qt.INT_MAX -> Qt.wrapInt v = v.
Proof.
  unfold Qt.wrapInt, Qt.INT_MIN, Qt.INT_MAX. intros H.
  change (2 ^ 31) with 2147483648 in *. change (2 ^ 32) with 4294967296.
  rewrite Z.mod_small by lia. lia.
Qed.

(** C7.  One pass of the loop body over a non-critical item, with a
    notification frequency other than "Never" (the kill switch) and a
    counter that the increment does not overflow.  The change is counted
    when the live value differs from the cached one and is not the value
    last alerted for the item.  An alert fires ([sendAlert] is called,
    once and with the threshold message) exactly when the change is
    counted, the threshold is positive and the incremented counter is
    greater than or equal to it; no other call of [sendAlert] is made.
    Firing resets the counter to zero; otherwise the counter holds the
    count. *)
Theorem nonCritical_threshold_alert
        (p : Platform) (cfg : Settings) (i : nat) (m : Monitoring) (k : Item) (w : World) :
  isCritical k = false ->
  isNever cfg = false ->
  Qt.INT_MIN <= changeCount k < Qt.INT_MAX ->
  let current := fst (getCurrentValue p k w) in
  let counted := (negb (String.eqb current (value k))
                  && negb (String.eqb (lastAlerted m (valueName k)) current))%bool in
  let threshold := Qt.toInt (nonCriticalAlertThreshold cfg) in
  let count := if counted then changeCount k + 1 else changeCount k in
  let reached := (counted && (0 <? threshold) && (threshold <=? count))%bool in
  let res := checkItem p cfg i m k w in
  alertCalls (trace (snd res))
  = alertCalls (trace w) ++ (if reached then [thresholdMessage p k current] else [])
  /\ changeCount (fst (fst res)) = (if reached then 0 else count).
Proof.
  intros Hnc Hnever Hrange. cbv zeta. rewrite getCurrentValue_upd. cbn [fst].
  pose proof (checkItem_nonCritical p cfg i m k w Hnc) as H. cbv zeta in H.
  rewrite wrapInt_id in H by lia.
  assert (Hs : notSilenced p cfg = true) by (destruct p; cbn; by rewrite ?Hnever).
  rewrite Hs, andb_true_r in H. exact H.
Qed.

(** C7, an instance: the threshold is "1", the frequency "10"; the first
    counted change of the non-critical key fires the threshold alert and
    resets the counter. *)
Lemma nonCritical_threshold_alert_witness :
  alertCalls (trace (snd (checkItem Windows (settingsWith "1" "10") 0
                                    (monitorOf [mouseKey false false])
                                    (mouseKey false false)
                                    (worldOf (registry "100" false)))))
  = ["[ALERT] Non-critical threshold reached for DoubleClickSpeed: 100"]
  /\ changeCount (fst (fst (checkItem Windows (settingsWith "1" "10") 0
                                      (monitorOf [mouseKey false false])
                                      (mouseKey false false)
                                      (worldOf (registry "100" false))))) = 0.
Proof.
  apply (nonCritical_threshold_alert Windows (settingsWith "1" "10") 0
           (monitorOf [mouseKey false false]) (mouseKey false false)
           (worldOf (registry "100" false))).
  - reflexivity.
  - reflexivity.
  - vm_compute. split; [discriminate | reflexivity].
Defined.

(** With the frequency "Never" and the threshold "1", the first counted
    change of a non-critical key on Windows brings the counter to the
    threshold; the kill switch holds the alert back, and the counter is
    reset all the same. *)
Lemma threshold_reached_under_never :
  isCritical (mouseKey false false) = false
  /\ Qt.toInt (nonCriticalAlertThreshold (settingsWith "1" "Never")) = 1
  /\ changeCount (mouseKey false false) + 1 = 1
  /\ alertCalls (trace (snd (checkItem Windows (settingsWith "1" "Never") 0
                                       (monitorOf [mouseKey false false])
                                       (mouseKey false false)
                                       (worldOf (registry "100" false))))) = []
  /\ changeCount (fst (fst (checkItem Windows (settingsWith "1" "Never") 0
                                      (monitorOf [mouseKey false false])
                                      (mouseKey false false)
                                      (worldOf (registry "100" false))))) = 0.
Proof. vm_compute. repeat split; reflexivity. Qed.

(** *** What the tick adds to the change log *)

Lemma sameLog_upd (w : World) e d l :
  db_changes d = db_changes (db w) -> db_online d = db_online (db w) ->
  (db_changes (db (upd w e d l)), db_online (db (upd w e d l)))
  = (db_changes (db w), db_online (db w)).
Proof. intros H1 H2. cbn [db upd]. by rewrite H1, H2. Qed.

Lemma upserted_log d n p v c :
  db_changes (upserted d n p v c) = db_changes d
  /\ db_online (upserted d n p v c) = db_online d.
Proof. unfold upserted. destruct (db_online d) eqn:E; split; cbn; congruence. Qed.

Lemma sameLog_getCurrentValue p k : sameLog (getCurrentValue p k).
Proof. intros w. rewrite getCurrentValue_upd. by apply sameLog_upd. Qed.

Lemma sameLog_insertOrUpdateConfiguration n p v c :
  sameLog (insertOrUpdateConfiguration n p v c).
Proof.
  intros w. rewrite insertOrUpdateConfiguration_upd.
  apply sameLog_upd; apply upserted_log.
Qed.

Lemma sameLog_setValue p k v : sameLog (setValue p k v).
Proof.
  intros w. destruct (String.eqb (value k) v) eqn:E.
  - unfold setValue. by rewrite E.
  - apply String.eqb_neq in E. rewrite setValue_changed by done. by apply sameLog_upd.
Qed.

Lemma sameLog_rollbackIfNeeded p k : sameLog (rollbackIfNeeded p k).
Proof.
  intros w.
  destruct (isCritical k && negb (String.eqb (liveValue p (ext w) k) (previousValue k)))%bool
    eqn:E.
  - apply andb_true_iff in E as [Hc Hd]. apply negb_true_iff, String.eqb_neq in Hd.
    rewrite rollbackIfNeeded_diverged by done. apply sameLog_upd; apply upserted_log.
  - rewrite rollbackIfNeeded_idle by done. by apply sameLog_upd.
Qed.

Lemma sameLog_emit e : sameLog (emit e).
Proof. by intros w. Qed.

Lemma sameLog_sendAlert cfg a message : sameLog (sendAlert cfg a message).
Proof.
  intros w.
  destruct (sendAlert_spec cfg a message w) as (r & n & l & sent & a' & E & _).
  by rewrite E.
Qed.

Create HintDb keeps.

#[local] Hint Resolve sameLog_getCurrentValue sameLog_insertOrUpdateConfiguration
  sameLog_setValue sameLog_rollbackIfNeeded sameLog_emit sameLog_sendAlert : keeps.

(** Composite computations: split at every [bind] and at every test. *)
Ltac keeps_steps :=
  repeat first
    [ solve [eauto with keeps]
    | apply keeps_ret
    | match goal with
      | |- keeps _ (if ?b then _ else _) => destruct b
      | |- keeps _ (match ?p with Windows => _ | MacOS => _ end) => destruct p
      | |- keeps _ (bind _ _) => apply keeps_bind; [| intros ?]
      end ].

Lemma sameLog_alertVia cfg m message : sameLog (alertVia cfg m message).
Proof. unfold alertVia. keeps_steps. Qed.

#[local] Hint Resolve sameLog_alertVia : keeps.

Lemma sameLog_persistFinal p cfg m k v message :
  sameLog (persistFinal p cfg m k v message).
Proof. unfold persistFinal. keeps_steps. Qed.

#[local] Hint Resolve sameLog_persistFinal : keeps.

Lemma sameLog_criticalChange p cfg i m k v : sameLog (criticalChange p cfg i m k v).
Proof. unfold criticalChange, onRollbackPerformed. keeps_steps. Qed.

Lemma sameLog_nonCriticalChange p cfg m k v : sameLog (nonCriticalChange p cfg m k v).
Proof. unfold nonCriticalChange. keeps_steps. Qed.

(** A tick that finds the live value different from the cached one adds
    exactly one row to the change log (when the database is reachable):
    the old and the new value, not acknowledged, and [critical] left at the
    default of [insertChange]. *)
Lemma checkItem_logs p cfg i m k w :
  liveValue p (ext w) k <> value k ->
  db_changes (db (snd (checkItem p cfg i m k w)))
  = db_changes (logged (db w) (mkChange (valueName k) (value k) (liveValue p (ext w) k)
                                        false insertChange_default_critical)).
Proof.
  intros H. rewrite checkItem_changed by done.
  set (w2 := upd w _ _ _). set (current := liveValue p (ext w) k).
  assert (Hrest : forall c : M (Item * Monitoring), sameLog c ->
            db_changes (db (snd (c w2))) = db_changes (db w2)).
  { intros c Hc. specialize (Hc w2). by inversion Hc. }
  change (db_changes (logged _ _)) with (db_changes (db w2)).
  destruct (String.eqb _ current); [| destruct (isCritical k)]; apply Hrest.
  - keeps_steps.
  - apply sameLog_criticalChange.
  - apply sameLog_nonCriticalChange.
Qed.

(** After such a tick the cache holds the value that was read. *)
Lemma persistFinal_value p cfg m k v message w :
  value (fst (fst (persistFinal p cfg m k v message w))) = v.
Proof.
  unfold persistFinal.
  apply (bind_inv _ _ _ (fun r => value (fst (fst r)) = _)); intros m1 w1 _.
  apply (bind_inv _ _ _ (fun r => value (fst (fst r)) = _)); intros b w2 _.
  apply (bind_inv _ _ _ (fun r => value (fst (fst r)) = _)); intros k1 w3 E.
  cbn [ret fst]. pose proof (setValue_fst p k v w2) as H. rewrite E in H. cbn [fst] in H.
  rewrite H. destruct (String.eqb (value k) v) eqn:Ev; [by apply String.eqb_eq | done].
Qed.

Lemma checkItem_value p cfg i m k w :
  value (fst (fst (checkItem p cfg i m k w))) = liveValue p (ext w) k.
Proof.
  destruct (String.eqb (liveValue p (ext w) k) (value k)) eqn:E.
  { apply String.eqb_eq in E. by rewrite checkItem_unchanged. }
  apply String.eqb_neq in E. rewrite checkItem_changed by done.
  set (w2 := upd w _ _ _). set (current := liveValue p (ext w) k).
  destruct (String.eqb _ current); [| destruct (isCritical k)].
  - apply (bind_inv _ _ _ (fun r => value (fst (fst r)) = _)); intros k1 w3 E1.
    cbn [ret fst]. pose proof (setValue_fst p k current w2) as H. rewrite E1 in H.
    cbn [fst] in H. rewrite H.
    destruct (String.eqb (value k) current) eqn:Ev; [by apply String.eqb_eq | done].
  - unfold criticalChange.
    apply (bind_inv _ _ _ (fun r => value (fst (fst r)) = _)); intros r w3 _.
    apply (bind_inv _ _ _ (fun r => value (fst (fst r)) = _)); intros m1 w4 _.
    apply (bind_inv _ _ _ (fun r => value (fst (fst r)) = _)); intros m2 w5 _.
    apply persistFinal_value.
  - unfold nonCriticalChange. destruct (_ && _)%bool.
    + apply (bind_inv _ _ _ (fun r => value (fst (fst r)) = _)); intros m1 w3 _.
      apply persistFinal_value.
    + apply (bind_inv _ _ _ (fun r => value (fst (fst r)) = _)); intros b w3 _.
      apply (bind_inv _ _ _ (fun r => value (fst (fst r)) = _)); intros k1 w4 E1.
      cbn [ret fst].
      pose proof (setValue_fst p (incrementChangeCount k) current w3) as H.
      rewrite E1 in H. cbn [fst] in H. rewrite H. cbn [value incrementChangeCount].
      destruct (String.eqb (value k) current) eqn:Ev; [by apply String.eqb_eq | done].
Qed.

(** *** A resource that is missing *)

Lemma unavailable_liveValue p e k : unavailable p e k = true -> liveValue p e k = "".
Proof.
  unfold unavailable, liveValue, settingsContains, settingsString.
  destruct p.
  - by destruct (settingsValue _ _ _).
  - destruct (fileExists _ _); [| done]. by destruct (settingsValue _ _ _).
Qed.

(** C3, counterexample.  The dock plist, cached at "1", has been removed:
    the tick records a Change Event from "1" to "" and overwrites the cache
    (and the store) with the empty string.  The registry value
    [DoubleClickSpeed], critical and cached at "500", has been deleted
    after "100" was the value last alerted: the tick records a Change
    Event, rolls back and arms the delayed alert. *)
Lemma missing_resource_is_a_transition :
  unavailable MacOS (ext (worldOf noPlists)) (dockKey false) = true
  /\ db_changes (db (snd (checkItem MacOS (settingsWith "3" "10") 0
                                    (monitorOf [dockKey false]) (dockKey false)
                                    (worldOf noPlists))))
     = [mkChange "autohide" "1" "" false false]
  /\ value (fst (fst (checkItem MacOS (settingsWith "3" "10") 0
                                (monitorOf [dockKey false]) (dockKey false)
                                (worldOf noPlists)))) = ""
  /\ trace (snd (checkItem MacOS (settingsWith "3" "10") 0
                           (monitorOf [dockKey false]) (dockKey false)
                           (worldOf noPlists)))
     = [EvWarn (WarnFileMissing dockPath);
        EvEmit valueChanged;
        EvEmit (logMessage "[LOG] Plist: autohide, Prev: 1, New: ");
        EvWrite dockPath "autohide" ""; EvSync dockPath]
  /\ unavailable Windows (ext (worldOf emptyRegistry)) (mouseKey true false) = true
  /\ db_changes (db (snd (checkItem Windows (settingsWith "3" "10") 0
                                    (setLastAlerted (monitorOf [mouseKey true false])
                                                    "DoubleClickSpeed" "100")
                                    (mouseKey true false) (worldOf emptyRegistry))))
     = [mkChange "DoubleClickSpeed" "500" "" false false]
  /\ trace (snd (checkItem Windows (settingsWith "3" "10") 0
                           (setLastAlerted (monitorOf [mouseKey true false])
                                           "DoubleClickSpeed" "100")
                           (mouseKey true false) (worldOf emptyRegistry)))
     = [EvWrite mousePath "DoubleClickSpeed" "500"; EvSync mousePath;
        EvEmit (rollbackPerformed "DoubleClickSpeed");
        EvEmit (criticalChangeDetected
                  "[CRITICAL] Rollback performed for key: DoubleClickSpeed");
        EvSingleShot 10000 0 "[CRITICAL ALERT] Key: DoubleClickSpeed changed to ";
        EvWrite mousePath "DoubleClickSpeed" ""; EvSync mousePath].
Proof. vm_compute. repeat split; reflexivity. Qed.

(** *** The code at the inputs where it departs from the specification *)

(** C2, the code at the failing input.  A critical registry value found
    changed from "500" to "100", and a critical plist value found changed
    from "1" to "0": the Change Event the tick appends carries
    [critical = false], the default of the argument both call sites omit. *)
Lemma change_event_of_critical_item_not_critical :
  isCritical (mouseKey true false) = true
  /\ db_changes (db (snd (checkItem Windows (settingsWith "3" "10") 0
                                    (monitorOf [mouseKey true false])
                                    (mouseKey true false)
                                    (worldOf (registry "100" false)))))
     = [mkChange "DoubleClickSpeed" "500" "100" false false]
  /\ isCritical (dockKey true) = true
  /\ db_changes (db (snd (checkItem MacOS (settingsWith "3" "10") 0
                                    (monitorOf [dockKey true]) (dockKey true)
                                    (worldOf (plists "0" false)))))
     = [mkChange "autohide" "1" "0" false false].
Proof. vm_compute. repeat split; reflexivity. Qed.

(** C4, the code at the failing input.  The store does not take the write
    (the key, the file, is read-only): [restorePreviousValue] finds "100",
    "0" again on re-reading and prints the failure, and [rollbackIfNeeded]
    emits [rollbackPerformed] all the same. *)
Lemma rollbackPerformed_after_failed_restore :
  trace (snd (rollbackIfNeeded Windows (mouseKey true false)
                               (worldOf (registry "100" true))))
  = [EvWrite mousePath "DoubleClickSpeed" "500"; EvSync mousePath;
     EvWarn (WarnRestoreFailed "DoubleClickSpeed" "500" "100");
     EvEmit (rollbackPerformed "DoubleClickSpeed")]
  /\ fst (getCurrentValue Windows (mouseKey true false)
            (snd (rollbackIfNeeded Windows (mouseKey true false)
                                   (worldOf (registry "100" true))))) = "100"
  /\ trace (snd (rollbackIfNeeded MacOS (dockKey true) (worldOf (plists "0" true))))
  = [EvWrite dockPath "autohide" "1"; EvSync dockPath;
     EvWarn (WarnRestoreFailed "~/Library/Preferences/com.apple.dock.plist" "1" "0");
     EvEmit (rollbackPerformed "autohide")]
  /\ fst (getCurrentValue MacOS (dockKey true)
            (snd (rollbackIfNeeded MacOS (dockKey true)
                                   (worldOf (plists "0" true))))) = "0".
Proof. vm_compute. repeat split; reflexivity. Qed.

(** C5, the code at the failing input.  The notification frequency is
    "Never".  On macOS a change of a critical plist value sends two alerts
    (the slot of [rollbackPerformed] and the tick itself), each delivered
    by mail and by SMS; a non-critical change that reaches the threshold
    sends one. *)
Lemma never_does_not_silence_macOS :
  isNever (settingsWith "1" "Never") = true
  /\ deliveriesOf (trace (snd (checkItem MacOS (settingsWith "1" "Never") 0
                                         (monitorOf [dockKey true]) (dockKey true)
                                         (worldOf (plists "0" false)))))
     = [EvDeliver Email "ops@example.org"
                  "[CRITICAL] Revert performed for file: autohide" true;
        EvDeliver Sms "+15551234567"
                  "[CRITICAL] Revert performed for file: autohide" true;
        EvDeliver Email "ops@example.org"
                  "[CRITICAL ALERT] ~/Library/Preferences/com.apple.dock.plist changed to 0"
                  true;
        EvDeliver Sms "+15551234567"
                  "[CRITICAL ALERT] ~/Library/Preferences/com.apple.dock.plist changed to 0"
                  true]
  /\ deliveriesOf (trace (snd (checkItem MacOS (settingsWith "1" "Never") 0
                                         (monitorOf [dockKey false]) (dockKey false)
                                         (worldOf (plists "0" false)))))
     = [EvDeliver Email "ops@example.org"
                  "[ALERT] Threshold reached for ~/Library/Preferences/com.apple.dock.plist: 0"
                  true;
        EvDeliver Sms "+15551234567"
                  "[ALERT] Threshold reached for ~/Library/Preferences/com.apple.dock.plist: 0"
                  true].
Proof. vm_compute. repeat split; reflexivity. Qed.

(** The Windows copy tests for "Never" at both of its call sites: with
    that frequency neither the loop body nor the delayed closure calls
    [sendAlert]. *)
Lemma quiet_persistFinal_windows cfg m k v message :
  quiet (persistFinal Windows cfg m k v message).
Proof. intros w. unfold callsOf. by rewrite persistFinal_calls, app_nil_r. Qed.

Lemma never_silences_windows cfg i m k w key message :
  isNever cfg = true ->
  alertCalls (trace (snd (checkItem Windows cfg i m k w))) = alertCalls (trace w)
  /\ alertCalls (trace (snd (delayedAlert cfg m key message w))) = alertCalls (trace w).
Proof.
  intros Hnever. split.
  - destruct (String.eqb (liveValue Windows (ext w) k) (value k)) eqn:E.
    { apply String.eqb_eq in E. rewrite checkItem_unchanged by done.
      by apply quiet_upd. }
    apply String.eqb_neq in E. rewrite checkItem_changed by done.
    set (w2 := upd w _ _ _).
    assert (Hw2 : alertCalls (trace w2) = alertCalls (trace w)).
    { apply quiet_upd. by rewrite alertCalls_app, alertCalls_dbWarning. }
    rewrite <- Hw2.
    assert (Hrest : forall c : M (Item * Monitoring), quiet c ->
              alertCalls (trace (snd (c w2))) = alertCalls (trace w2))
      by (intros c Hc; apply Hc).
    destruct (String.eqb _ _); [| destruct (isCritical k)]; apply Hrest.
    + apply quiet_bind; [apply quiet_setValue | intros; apply quiet_ret].
    + unfold criticalChange, onRollbackPerformed.
      apply quiet_bind; [apply quiet_rollbackIfNeeded | intros r].
      apply quiet_bind.
      { destruct (snd r); [| apply quiet_ret].
        apply quiet_bind; [by apply quiet_emit | intros; apply quiet_ret]. }
      intros m1. apply quiet_bind.
      { apply quiet_bind; [by apply quiet_emit | intros; apply quiet_ret]. }
      intros m2. apply quiet_persistFinal_windows.
    + intros w3. unfold callsOf. rewrite nonCriticalChange_calls.
      cbn [notSilenced]. rewrite Hnever. cbn [negb]. rewrite andb_false_r.
      by rewrite app_nil_r.
  - unfold delayedAlert.
    destruct (negb (rollbackCancelled key)); [| done]. by rewrite Hnever.
Qed.

(** ** Encryption *)

Module Base64Facts.
Import Base64.

Lemma bytesOfBits_byte a r : bytesOfBits (bitsOfByte a ++ r) = a :: bytesOfBits r.
Proof. by destruct a. Qed.

Lemma bytesOfBits_short tail : (length tail < 8)%nat -> bytesOfBits tail = [].
Proof.
  intros H. do 8 (destruct tail as [| ? tail]; [done |]). cbn [length] in H. lia.
Qed.

Lemma bytesOfBits_bytes d tail :
  (length tail < 8)%nat -> bytesOfBits (bitsOfBytes d ++ tail) = d.
Proof.
  intros H. unfold bitsOfBytes. induction d as [| a d IH]; cbn [flat_map].
  - by apply bytesOfBits_short.
  - by rewrite <- app_assoc, bytesOfBits_byte, IH.
Qed.

Lemma sextetOfChar_charOfSextet s :
  length s = 6%nat -> sextetOfChar (charOfSextet s) = Some s.
Proof.
  intros H. do 6 (destruct s as [| ? s]; [done |]). destruct s; [| done].
  repeat match goal with b : bool |- _ => destruct b end; vm_compute; reflexivity.
Qed.

Lemma sextets_spec n : forall bs,
  (length bs <= n)%nat ->
  Forall (fun s => length s = 6%nat) (sextets bs)
  /\ exists tail, concat (sextets bs) = bs ++ tail /\ (length tail < 6)%nat.
Proof.
  induction n as [| n IH]; intros bs Hlen.
  - destruct bs; [| cbn [length] in Hlen; lia].
    split; [constructor | exists []; cbn; split; [done | lia]].
  - destruct bs as [| a [| b [| c [| d [| e [| f r]]]]]]; cbn [sextets concat app].
    + split; [constructor | exists []; cbn; split; [done | lia]].
    + split; [by repeat constructor |].
      exists [false; false; false; false; false]. cbn. split; [done | lia].
    + split; [by repeat constructor |].
      exists [false; false; false; false]. cbn. split; [done | lia].
    + split; [by repeat constructor |].
      exists [false; false; false]. cbn. split; [done | lia].
    + split; [by repeat constructor |].
      exists [false; false]. cbn. split; [done | lia].
    + split; [by repeat constructor |].
      exists [false]. cbn. split; [done | lia].
    + destruct (IH r) as (F & tail & E & Ht); [cbn [length] in Hlen; lia |].
      split; [by constructor |]. exists tail. split; [| done].
      cbn [concat app]. by rewrite E.
Qed.

Lemma decode_chars ss :
  Forall (fun s => length s = 6%nat) ss ->
  flat_map decodeChar (map charOfSextet ss) = concat ss.
Proof.
  induction 1 as [| s ss Hs _ IH]; [done |].
  cbn [map flat_map concat]. unfold decodeChar at 1.
  by rewrite sextetOfChar_charOfSextet, IH.
Qed.

Lemma decode_padding n : flat_map decodeChar (repeat "="%char n) = [].
Proof. induction n as [| n IH]; [done |]. cbn [repeat flat_map]. by rewrite IH. Qed.

(** Decoding what was encoded gives the bytes back. *)
Lemma fromBase64_toBase64 (d : bytes) : fromBase64 (toBase64 d) = d.
Proof.
  unfold fromBase64, toBase64.
  destruct (sextets_spec _ (bitsOfBytes d) (le_n _)) as (F & tail & E & Ht).
  rewrite flat_map_app, decode_chars, decode_padding, app_nil_r, E by done.
  apply bytesOfBits_bytes. lia.
Qed.

(** Only the empty array encodes to the empty text. *)
Lemma toBase64_nonempty a d : toBase64 (a :: d) <> [].
Proof.
  unfold toBase64, bitsOfBytes. cbn [flat_map]. destruct a. cbn [bitsOfByte app sextets map].
  discriminate.
Qed.

End Base64Facts.

(** *** Exclusive or *)

Lemma xorByte_cancel a b : xorByte (xorByte a b) b = a.
Proof.
  destruct a, b. cbn [xorByte]. by rewrite !xorb_assoc, !xorb_nilpotent, !xorb_false_r.
Qed.

Lemma xorBytes_length a b :
  (length a <= length b)%nat -> length (xorBytes a b) = length a.
Proof.
  revert b. induction a as [| x a IH]; intros [| y b] H; cbn in *; try done; try lia.
  by rewrite IH by lia.
Qed.

Lemma xorBytes_cancel a b :
  (length a <= length b)%nat -> xorBytes (xorBytes a b) b = a.
Proof.
  revert b. induction a as [| x a IH]; intros [| y b] H; cbn in *; try done; try lia.
  by rewrite xorByte_cancel, IH by lia.
Qed.

Lemma xorb_twice_id (x b c : bool) : xorb (xorb x b) c = x -> b = c.
Proof. by destruct x, b, c. Qed.

Lemma xorByte_twice_id x b c : xorByte (xorByte x b) c = x -> b = c.
Proof.
  destruct x, b, c. cbn [xorByte]. intros H. injection H as H0 H1 H2 H3 H4 H5 H6 H7.
  f_equal; by eapply xorb_twice_id.
Qed.

Lemma xorBytes_twice_id a : forall b c,
  length b = length a -> length c = length a ->
  xorBytes (xorBytes a b) c = a -> b = c.
Proof.
  induction a as [| x a IH]; intros [| y b] [| z c] Hb Hc H; cbn in *; try done.
  injection H as H0 H. f_equal; [by eapply xorByte_twice_id | apply IH; (done || lia)].
Qed.

(** *** The inverse cipher of AES-256 undoes the cipher *)

Module AESFacts.
Import AES.

(** The example vector of FIPS 197, appendix C.3. *)
Example Cipher_fips197 :
  Cipher (hex "000102030405060708090a0b0c0d0e0f101112131415161718191a1b1c1d1e1f")
         (hex "00112233445566778899aabbccddeeff")
  = hex "8ea2b7ca516745bfeafc49904b496089".
Proof. vm_compute. reflexivity. Qed.

Example InvCipher_fips197 :
  InvCipher (hex "000102030405060708090a0b0c0d0e0f101112131415161718191a1b1c1d1e1f")
            (hex "8ea2b7ca516745bfeafc49904b496089")
  = hex "00112233445566778899aabbccddeeff".
Proof. vm_compute. reflexivity. Qed.

(** The second table undoes the first, entry by entry. *)
Lemma invSubByte_subByte b : invSubByte (subByte b) = b.
Proof. destruct b as [[] [] [] [] [] [] [] []]; vm_compute; reflexivity. Qed.

Lemma InvSubBytes_SubBytes s : InvSubBytes (SubBytes s) = s.
Proof.
  unfold InvSubBytes, SubBytes. rewrite map_map.
  induction s as [| b s IH]; [done |]. cbn [map]. by rewrite invSubByte_subByte, IH.
Qed.

(** A list of 16 bytes, spelled out. *)
Ltac block s :=
  do 16 (destruct s as [| ? s]; [discriminate |]);
  destruct s; [| discriminate].

Lemma InvShiftRows_ShiftRows (s : bytes) :
  length s = 16%nat -> InvShiftRows (ShiftRows s) = s.
Proof. intros H. block s. reflexivity. Qed.

(** The two matrices are inverse to each other: bit by bit, an identity
    of exclusive ors. *)
Lemma invMixColumn_mixColumn a b c d x y z t :
  mixColumn a b c d = [x; y; z; t] -> invMixColumn x y z t = [a; b; c; d].
Proof.
  intros H. injection H as <- <- <- <-.
  destruct a as [a0 a1 a2 a3 a4 a5 a6 a7], b as [b0 b1 b2 b3 b4 b5 b6 b7],
           c as [c0 c1 c2 c3 c4 c5 c6 c7], d as [d0 d1 d2 d3 d4 d5 d6 d7].
  cbv [invMixColumn xor4 mul3 mul9 mul11 mul13 mul14 xtime xorByte].
  repeat f_equal; btauto.
Qed.

Lemma InvMixColumns_MixColumns (s : bytes) :
  length s = 16%nat -> InvMixColumns (MixColumns s) = s.
Proof.
  intros H. block s. cbn [MixColumns].
  repeat match goal with
         | |- context [mixColumn ?a ?b ?c ?d] =>
             let E := fresh "E" in
             destruct (mixColumn a b c d) as [| ? [| ? [| ? [| ? [| ? ?]]]]] eqn:E;
             try discriminate E; apply invMixColumn_mixColumn in E
         end.
  cbn [app InvMixColumns]. by repeat match goal with E : _ = _ |- _ => rewrite E; clear E end.
Qed.

Lemma SubBytes_length s : length (SubBytes s) = length s.
Proof. apply length_map. Qed.

Lemma ShiftRows_length s : length (ShiftRows s) = 16%nat.
Proof. reflexivity. Qed.

Lemma MixColumns_length (s : bytes) : length s = 16%nat -> length (MixColumns s) = 16%nat.
Proof. intros H. block s. reflexivity. Qed.

Lemma round_length s rk :
  length s = 16%nat -> length rk = 16%nat -> length (round s rk) = 16%nat.
Proof.
  intros Hs Hrk. unfold round, AddRoundKey.
  rewrite xorBytes_length; rewrite MixColumns_length; done || lia.
Qed.

Lemma invRound_round s rk :
  length s = 16%nat -> length rk = 16%nat -> invRound (round s rk) rk = s.
Proof.
  intros Hs Hrk. unfold invRound, round, AddRoundKey.
  rewrite xorBytes_cancel by (rewrite MixColumns_length; done || lia).
  rewrite InvMixColumns_MixColumns by done.
  rewrite InvShiftRows_ShiftRows by by rewrite SubBytes_length.
  apply InvSubBytes_SubBytes.
Qed.

Lemma invFinalRound_finalRound s rk :
  length s = 16%nat -> length rk = 16%nat -> invFinalRound (finalRound s rk) rk = s.
Proof.
  intros Hs Hrk. unfold invFinalRound, finalRound, AddRoundKey.
  rewrite xorBytes_cancel by (rewrite ShiftRows_length; lia).
  rewrite InvShiftRows_ShiftRows by by rewrite SubBytes_length.
  apply InvSubBytes_SubBytes.
Qed.

(** The rounds are undone one by one, the last one first. *)
Lemma rounds_undone rks : forall s,
  Forall (fun rk => length rk = 16%nat) rks -> length s = 16%nat ->
  length (fold_left round rks s) = 16%nat
  /\ fold_left invRound (rev rks) (fold_left round rks s) = s.
Proof.
  induction rks as [| rk rks IH]; intros s F Hs; [done |].
  inversion F as [| ? ? Hrk F']; subst.
  destruct (IH (round s rk) F' (round_length s rk Hs Hrk)) as [Hl Hi].
  cbn [fold_left rev]. split; [done |].
  rewrite fold_left_app, Hi. cbn [fold_left]. by apply invRound_round.
Qed.

Lemma expand_length n : forall w, length (expand n w) = (n + length w)%nat.
Proof.
  induction n as [| n IH]; intros w; [done |].
  cbn [expand]. rewrite IH, length_app. cbn [length]. lia.
Qed.

Lemma wordsOf_length (key : bytes) :
  length key = 32%nat -> length (wordsOf key) = 8%nat.
Proof.
  intros H. do 32 (destruct key as [| ? key]; [discriminate |]).
  by destruct key.
Qed.

Lemma KeyExpansion_length key :
  length key = 32%nat -> length (KeyExpansion key) = 60%nat.
Proof. intros H. unfold KeyExpansion. by rewrite expand_length, wordsOf_length. Qed.

Lemma words_length (ws : list word) :
  length (flat_map bytesOfWord ws) = (4 * length ws)%nat.
Proof.
  induction ws as [| [[[a b] c] d] ws IH]; [done |].
  cbn [flat_map bytesOfWord app length]. lia.
Qed.

Lemma roundKey_length w r :
  length w = 60%nat -> (r <= 14)%nat -> length (roundKey w r) = 16%nat.
Proof.
  intros Hw Hr. unfold roundKey.
  rewrite words_length, length_firstn, length_skipn. lia.
Qed.

Lemma middleKeys_length w :
  length w = 60%nat -> Forall (fun rk => length rk = 16%nat) (middleKeys w).
Proof.
  intros Hw. unfold middleKeys. apply List.Forall_forall. intros rk Hin.
  apply in_map_iff in Hin as (r & <- & Hin). apply in_seq in Hin.
  apply roundKey_length; [done | lia].
Qed.

(** The inverse cipher undoes the cipher, and a block stays a block. *)
Lemma InvCipher_Cipher key b :
  length key = 32%nat -> length b = 16%nat ->
  InvCipher key (Cipher key b) = b /\ length (Cipher key b) = 16%nat.
Proof.
  intros Hk Hb. unfold InvCipher, Cipher. cbv zeta.
  set (w := KeyExpansion key).
  assert (Hw : length w = 60%nat) by by apply KeyExpansion_length.
  assert (H0 : length (roundKey w 0) = 16%nat) by (apply roundKey_length; [done | lia]).
  assert (H14 : length (roundKey w 14) = 16%nat) by (apply roundKey_length; [done | lia]).
  assert (Hs : length (AddRoundKey b (roundKey w 0)) = 16%nat)
    by (unfold AddRoundKey; rewrite xorBytes_length; lia).
  destruct (rounds_undone (middleKeys w) _ (middleKeys_length w Hw) Hs) as [Hl Hi].
  split.
  - rewrite invFinalRound_finalRound, Hi by done.
    unfold AddRoundKey. apply xorBytes_cancel. lia.
  - unfold finalRound, AddRoundKey. rewrite xorBytes_length; rewrite ShiftRows_length; lia.
Qed.

End AESFacts.

Module EncryptionFacts.
Import EncryptionUtils.

(** Cutting a whole number of blocks and gluing them again. *)
Lemma chunks_concat (bl : list bytes) : forall fuel,
  Forall (fun b => length b = 16%nat) bl ->
  (length bl <= fuel)%nat ->
  chunks fuel (concat bl) = bl.
Proof.
  induction bl as [| b bl IH]; intros fuel F Hfuel.
  - by destruct fuel.
  - inversion F as [| ? ? Hb F']; subst. cbn [length] in Hfuel.
    destruct fuel as [| fuel]; [lia |]. cbn [concat].
    destruct b as [| x b]; [done |]. cbn [chunks app].
    change (x :: b ++ concat bl) with ((x :: b) ++ concat bl).
    rewrite firstn_app, skipn_app, Hb, Nat.sub_diag.
    rewrite firstn_all2, skipn_all2 by lia.
    cbn [firstn skipn app]. rewrite app_nil_r, IH by (done || lia). done.
Qed.

Lemma concat_length16 (bl : list bytes) :
  Forall (fun b => length b = 16%nat) bl -> length (concat bl) = (16 * length bl)%nat.
Proof.
  induction 1 as [| b bl Hb _ IH]; [done |].
  cbn [concat length]. rewrite length_app, IH, Hb. lia.
Qed.

Lemma blocks_concat (bl : list bytes) :
  Forall (fun b => length b = 16%nat) bl -> blocks (concat bl) = bl.
Proof.
  intros F. unfold blocks. apply chunks_concat; [done |].
  rewrite concat_length16 by done. lia.
Qed.

(** A list of [16 * n] bytes is [n] blocks. *)
Lemma blocks_spec n : forall l : bytes,
  length l = (16 * n)%nat ->
  exists bl, l = concat bl /\ Forall (fun b => length b = 16%nat) bl /\ length bl = n.
Proof.
  induction n as [| n IH]; intros l Hl.
  - destruct l; [| cbn in Hl; lia]. by exists [].
  - destruct (IH (skipn 16 l)) as (bl & E & F & Hn).
    { rewrite length_skipn. lia. }
    exists (firstn 16 l :: bl). split; [| split].
    + cbn [concat]. by rewrite <- E, firstn_skipn.
    + constructor; [| done]. rewrite length_firstn. lia.
    + cbn [length]. by rewrite Hn.
Qed.

Lemma pad_length data : exists n, length (pad data) = (16 * S n)%nat.
Proof.
  unfold pad. exists (length data / 16)%nat.
  rewrite length_app, repeat_length.
  pose proof (Nat.div_mod_eq (length data) 16).
  pose proof (Nat.mod_upper_bound (length data) 16). lia.
Qed.

Lemma last_append (l l' : bytes) d : l' <> [] -> List.last (l ++ l') d = List.last l' d.
Proof.
  intros H. induction l as [| x l IH]; [done |].
  cbn [app]. rewrite <- IH. cbn [List.last].
  destruct (l ++ l') eqn:E; [| done]. by apply app_eq_nil in E as [_ ?].
Qed.

Lemma last_repeat (x d : ascii) n : List.last (repeat x (S n)) d = x.
Proof. induction n as [| n IH]; [done |]. exact IH. Qed.

Lemma forallb_repeat (x : ascii) n : forallb (Ascii.eqb x) (repeat x n) = true.
Proof. induction n as [| n IH]; [done |]. cbn. by rewrite Ascii.eqb_refl. Qed.

(** The padding check accepts what [pad] produced and removes it. *)
Lemma unpad_pad data : unpad (pad data) = Some data.
Proof.
  unfold unpad, pad.
  set (n := (16 - length data mod 16)%nat).
  assert (Hn : (1 <= n <= 16)%nat).
  { pose proof (Nat.mod_upper_bound (length data) 16). lia. }
  assert (Hlast : List.last (data ++ repeat (ascii_of_nat n) n) "000"%char = ascii_of_nat n).
  { destruct n as [| n']; [lia |]. rewrite last_append by done. apply last_repeat. }
  rewrite Hlast, nat_ascii_embedding by lia.
  rewrite length_app, repeat_length.
  replace (length data + n - n)%nat with (length data) by lia.
  rewrite skipn_app, skipn_all, Nat.sub_diag, firstn_app, firstn_all, Nat.sub_diag.
  rewrite skipn_O, firstn_O. cbn [app]. rewrite forallb_repeat, app_nil_r.
  destruct (Nat.leb 1 n) eqn:E1; [| apply Nat.leb_gt in E1; lia].
  destruct (Nat.leb n 16) eqn:E2; [| apply Nat.leb_gt in E2; lia].
  destruct (Nat.leb n (length data + n)) eqn:E3; [| apply Nat.leb_gt in E3; lia].
  done.
Qed.

Section WithCipher.

Context {cipher : BlockCipher}.
Hypothesis laws : cipherLaws cipher.

Lemma cbcEncrypt_length16 key (ps : list bytes) : forall prev,
  length key = 32%nat -> length prev = 16%nat ->
  Forall (fun b => length b = 16%nat) ps ->
  Forall (fun b => length b = 16%nat) (cbcEncrypt key prev ps).
Proof.
  induction ps as [| p ps IH]; intros prev Hk Hprev F; cbn [cbcEncrypt]; [done |].
  inversion F as [| ? ? Hp F']; subst.
  assert (Hc : length (encryptBlock key (xorBytes p prev)) = 16%nat).
  { apply laws; [done |]. rewrite xorBytes_length; lia. }
  constructor; [done |]. by apply IH.
Qed.

(** Chaining with the same key and the same initial vector decrypts
    what it encrypted. *)
Lemma cbcDecrypt_cbcEncrypt key (ps : list bytes) : forall prev,
  length key = 32%nat -> length prev = 16%nat ->
  Forall (fun b => length b = 16%nat) ps ->
  cbcDecrypt key prev (cbcEncrypt key prev ps) = ps.
Proof.
  induction ps as [| p ps IH]; intros prev Hk Hprev F; cbn [cbcEncrypt cbcDecrypt];
    [done |].
  inversion F as [| ? ? Hp F']; subst.
  assert (Hx : length (xorBytes p prev) = 16%nat)
    by (rewrite xorBytes_length; lia).
  destruct (laws key (xorBytes p prev) Hk Hx) as [Hd Hl].
  rewrite Hd, xorBytes_cancel by lia. f_equal. by apply IH.
Qed.

(** With another initial vector only the first block differs. *)
Lemma cbcDecrypt_other_iv key iv iv' p (ps : list bytes) :
  length key = 32%nat -> length iv = 16%nat -> length iv' = 16%nat ->
  length p = 16%nat ->
  Forall (fun b => length b = 16%nat) ps ->
  cbcDecrypt key iv' (cbcEncrypt key iv (p :: ps))
  = xorBytes (xorBytes p iv) iv' :: ps.
Proof.
  intros Hk Hiv Hiv' Hp F. cbn [cbcEncrypt cbcDecrypt].
  assert (Hx : length (xorBytes p iv) = 16%nat)
    by (rewrite xorBytes_length; lia).
  destruct (laws key (xorBytes p iv) Hk Hx) as [Hd Hl].
  rewrite Hd. f_equal. by apply cbcDecrypt_cbcEncrypt.
Qed.

Lemma evpEncrypt_blocks key iv input :
  length key = 32%nat -> length iv = 16%nat ->
  exists ps, pad input = concat ps
             /\ Forall (fun b => length b = 16%nat) ps
             /\ ps <> []
             /\ evpEncrypt key iv input = concat (cbcEncrypt key iv ps)
             /\ blocks (evpEncrypt key iv input) = cbcEncrypt key iv ps.
Proof.
  intros Hk Hiv. destruct (pad_length input) as (n & Hn).
  destruct (blocks_spec _ _ Hn) as (ps & E & F & Hlen).
  exists ps. split; [done |]. split; [done |]. split; [by destruct ps |].
  unfold evpEncrypt. rewrite E, blocks_concat by done. split; [done |].
  apply blocks_concat. by apply cbcEncrypt_length16.
Qed.

Lemma evpEncrypt_length key iv input :
  length key = 32%nat -> length iv = 16%nat ->
  exists n, length (evpEncrypt key iv input) = (16 * S n)%nat.
Proof.
  intros Hk Hiv. destruct (evpEncrypt_blocks key iv input Hk Hiv)
    as (ps & E & F & Hne & Ec & _).
  rewrite Ec, concat_length16 by by apply cbcEncrypt_length16.
  destruct ps as [| p ps]; [done |]. cbn [cbcEncrypt length]. eauto.
Qed.

Lemma evpDecrypt_whole key iv input n :
  length input = (16 * S n)%nat ->
  evpDecrypt key iv input = unpad (concat (cbcDecrypt key iv (blocks input))).
Proof.
  intros H. unfold evpDecrypt. rewrite H.
  replace ((16 * S n) mod 16)%nat with 0%nat.
  - done.
  - symmetry. rewrite Nat.mul_comm. apply Nat.Div0.mod_mul.
Qed.

(** [EVP_Decrypt*] undoes [EVP_Encrypt*] under one key and one initial
    vector. *)
Lemma evpDecrypt_evpEncrypt key iv input :
  length key = 32%nat -> length iv = 16%nat ->
  evpDecrypt key iv (evpEncrypt key iv input) = Some input.
Proof.
  intros Hk Hiv.
  destruct (evpEncrypt_length key iv input Hk Hiv) as (n & Hn).
  destruct (evpEncrypt_blocks key iv input Hk Hiv) as (ps & E & F & Hne & _ & Eb).
  rewrite (evpDecrypt_whole _ _ _ n Hn), Eb, cbcDecrypt_cbcEncrypt by done.
  rewrite <- E. apply unpad_pad.
Qed.

(** With another initial vector and the same key, a plaintext of 16
    bytes or more comes back with its first block changed, and the
    padding check passes. *)
Lemma evpDecrypt_other_iv key iv iv' input :
  length key = 32%nat -> length iv = 16%nat -> length iv' = 16%nat ->
  (16 <= length input)%nat ->
  evpDecrypt key iv' (evpEncrypt key iv input)
  = Some (xorBytes (xorBytes (firstn 16 input) iv) iv' ++ skipn 16 input).
Proof.
  intros Hk Hiv Hiv' Hlen.
  set (p := firstn 16 input). set (rest := skipn 16 input).
  set (n := (16 - length input mod 16)%nat).
  assert (Hp : length p = 16%nat) by (unfold p; rewrite length_firstn; lia).
  assert (Hrest : length rest = (length input - 16)%nat) by apply length_skipn.
  assert (Hpad : pad input = p ++ rest ++ repeat (ascii_of_nat n) n).
  { unfold pad, p, rest. fold n. by rewrite app_assoc, firstn_skipn. }
  destruct (pad_length input) as (q & Hq).
  assert (Htail : length (rest ++ repeat (ascii_of_nat n) n) = (16 * q)%nat).
  { rewrite Hpad, length_app, Hp in Hq. lia. }
  destruct (blocks_spec _ _ Htail) as (ps & Eps & F & _).
  assert (Eall : pad input = concat (p :: ps)) by (cbn [concat]; by rewrite <- Eps).
  assert (Fall : Forall (fun b : bytes => length b = 16%nat) (p :: ps)) by by constructor.
  destruct (evpEncrypt_length key iv input Hk Hiv) as (m & Hm).
  rewrite (evpDecrypt_whole _ _ _ m Hm).
  unfold evpEncrypt. rewrite Eall, (blocks_concat (p :: ps)) by done.
  rewrite blocks_concat by by apply cbcEncrypt_length16.
  rewrite cbcDecrypt_other_iv by done. cbn [concat]. rewrite <- Eps, app_assoc.
  set (x := xorBytes (xorBytes p iv) iv' ++ rest).
  assert (Hx : length x = length input).
  { unfold x. rewrite length_app, !xorBytes_length by (rewrite ?xorBytes_length; lia). lia. }
  replace (x ++ repeat (ascii_of_nat n) n) with (pad x)
    by (unfold pad; by rewrite Hx).
  apply unpad_pad.
Qed.

End WithCipher.

Lemma keysLoaded_some f ks : keysLoaded f ks -> noKeys ks = false.
Proof.
  intros (Hk & Hiv & _). unfold noKeys.
  destruct (encryptionKey ks); [done |]. by destruct (encryptionIv ks).
Qed.

Lemma length_bytes s : length (list_ascii_of_string s) = String.length s.
Proof. induction s as [| c s IH]; [done |]. cbn. by rewrite IH. Qed.

Section RoundTrip.

Context {cipher : BlockCipher}.
Hypothesis laws : cipherLaws cipher.

(** What [encrypt] returns for a text that is not empty. *)
Lemma encrypt_loaded f ks c s :
  keysLoaded f ks ->
  exists a d,
    encrypt f ks (String c s)
    = (Base64.toBase64 (evpEncrypt (encryptionKey ks) (encryptionIv ks)
                                   (list_ascii_of_string (String c s))), ks)
    /\ Base64.toBase64 (evpEncrypt (encryptionKey ks) (encryptionIv ks)
                                   (list_ascii_of_string (String c s))) = a :: d.
Proof.
  intros Hl. pose proof (keysLoaded_some _ _ Hl) as Hno. destruct Hl as (Hk & Hiv & Hst).
  unfold encrypt. cbn [Qt.isEmpty]. rewrite Hst, Hno.
  destruct (evpEncrypt_length laws (encryptionKey ks) (encryptionIv ks)
              (list_ascii_of_string (String c s)) Hk Hiv) as (n & Hn).
  destruct (evpEncrypt _ _ _) as [| x xs] eqn:E; [cbn in Hn; lia |].
  pose proof (Base64Facts.toBase64_nonempty x xs) as Hne.
  destruct (Base64.toBase64 (x :: xs)) as [| a d] eqn:E64; [done |]. eauto.
Qed.

Lemma decrypt_loaded f ks a d :
  keysLoaded f ks ->
  decrypt f ks (a :: d)
  = (match evpDecrypt (encryptionKey ks) (encryptionIv ks) (Base64.fromBase64 (a :: d)) with
     | Some output => string_of_list_ascii output
     | None => ""
     end, ks).
Proof.
  intros Hl. pose proof (keysLoaded_some _ _ Hl) as Hno. destruct Hl as (Hk & Hiv & Hst).
  unfold decrypt. rewrite Hst, Hno. by destruct (evpDecrypt _ _ _).
Qed.

(** The round trip and the effect of another initial vector, for every
    cipher that satisfies [cipherLaws]. *)
Lemma roundtrip_of_lawful_cipher (f : KeyFile) (ks : Keys) :
  keysLoaded f ks ->
  (forall s, fst (decrypt f ks (fst (encrypt f ks s))) = s)
  /\ (forall s, snd (encrypt f ks s) = ks
                /\ snd (decrypt f ks (fst (encrypt f ks s))) = ks)
  /\ (forall f' ks' s,
        keysLoaded f' ks' ->
        s <> "" ->
        fst (decrypt f' ks' (fst (encrypt f ks s)))
        = match unpad (concat (cbcDecrypt
                                 (encryptionKey ks') (encryptionIv ks')
                                 (blocks (evpEncrypt (encryptionKey ks) (encryptionIv ks)
                                                     (list_ascii_of_string s))))) with
          | Some output => string_of_list_ascii output
          | None => ""
          end)
  /\ (forall f' ks' s,
        keysLoaded f' ks' ->
        encryptionKey ks' = encryptionKey ks ->
        encryptionIv ks' <> encryptionIv ks ->
        (16 <= String.length s)%nat ->
        let out := fst (decrypt f' ks' (fst (encrypt f ks s))) in
        out = string_of_list_ascii
                (xorBytes (xorBytes (firstn 16 (list_ascii_of_string s))
                                    (encryptionIv ks))
                          (encryptionIv ks')
                 ++ skipn 16 (list_ascii_of_string s))
        /\ out <> "" /\ out <> s).
Proof.
  intros Hl. split; [| split; [| split]].
  - intros [| c s]; [done |].
    destruct (encrypt_loaded f ks c s Hl) as (a & d & -> & E). cbn [fst].
    rewrite E, (decrypt_loaded f ks a d Hl), <- E. cbn [fst].
    rewrite Base64Facts.fromBase64_toBase64.
    destruct Hl as (Hk & Hiv & _).
    rewrite (evpDecrypt_evpEncrypt laws) by done.
    apply string_of_list_ascii_of_string.
  - intros [| c s]; [done |].
    destruct (encrypt_loaded f ks c s Hl) as (a & d & -> & E). cbn [fst snd].
    split; [done |]. by rewrite E, (decrypt_loaded f ks a d Hl).
  - intros f' ks' [| c s] Hl' Hs; [done |].
    destruct (encrypt_loaded f ks c s Hl) as (a & d & -> & E). cbn [fst].
    rewrite E, (decrypt_loaded f' ks' a d Hl'), <- E. cbn [fst].
    rewrite Base64Facts.fromBase64_toBase64.
    destruct Hl as (Hk & Hiv & _).
    destruct (evpEncrypt_length laws (encryptionKey ks) (encryptionIv ks)
                (list_ascii_of_string (String c s)) Hk Hiv) as (n & Hn).
    by rewrite (evpDecrypt_whole _ _ _ n Hn).
  - intros f' ks' s Hl' Hkey Hiv' Hlen out.
    destruct s as [| c s]; [cbn in Hlen; lia |].
    set (input := list_ascii_of_string (String c s)) in *.
    assert (Hin : (16 <= length input)%nat) by (unfold input; by rewrite length_bytes).
    assert (Hout : out = string_of_list_ascii
              (xorBytes (xorBytes (firstn 16 input) (encryptionIv ks)) (encryptionIv ks')
               ++ skipn 16 input)).
    { unfold out. clear out. subst input.
      destruct (encrypt_loaded f ks c s Hl) as (a & d & -> & E). cbn [fst].
      rewrite E, (decrypt_loaded f' ks' a d Hl'), <- E. cbn [fst].
      rewrite Base64Facts.fromBase64_toBase64, Hkey.
      destruct Hl as (Hk & Hiv & _). destruct Hl' as (Hk' & Hiv'' & _).
      rewrite <- Hkey. rewrite (evpDecrypt_other_iv laws) by (done || congruence).
      done. }
    destruct Hl as (Hk & Hiv & _). destruct Hl' as (Hk' & Hiv'' & _).
    set (p' := xorBytes (xorBytes (firstn 16 input) (encryptionIv ks)) (encryptionIv ks'))
      in *.
    assert (Hp : length (firstn 16 input) = 16%nat) by (rewrite length_firstn; lia).
    assert (Hp' : length p' = 16%nat).
    { unfold p'. rewrite !xorBytes_length; rewrite ?xorBytes_length; lia. }
    split; [done |]. rewrite Hout. split.
    + intros H. apply (f_equal list_ascii_of_string) in H.
      rewrite list_ascii_of_string_of_list_ascii in H.
      apply (f_equal (@length ascii)) in H. rewrite length_app, Hp' in H.
      cbn [list_ascii_of_string length] in H. lia.
    + intros H. apply (f_equal list_ascii_of_string) in H.
      rewrite list_ascii_of_string_of_list_ascii in H. fold input in H.
      pose proof (eq_trans H (eq_sym (firstn_skipn 16 input))) as H'.
      apply app_inv_tail in H'. unfold p' in H'. rename H' into H2.
      apply xorBytes_twice_id in H2; [congruence | lia | lia].
Qed.

End RoundTrip.

Lemma aes256_laws : cipherLaws aes256.
Proof. intros key b Hk Hb. by apply AESFacts.InvCipher_Cipher. Qed.

(** C8 (as amended).  The cipher is AES-256 ([aes256]).  With key
    material of the right sizes and a key file that has not changed
    since it was loaded: [decrypt (encrypt s)] is [s] for every [s], and
    both calls leave the key material as it was.  A mismatch is not
    detected as such: whatever key material [decrypt] runs under, its
    result is what the blocks decrypt to, less the padding, whenever
    [EVP_DecryptFinal_ex] accepts the padding of the last block; the
    empty string, which is what a failure returns, comes back when the
    padding is rejected and also when it is accepted and nothing is left
    of the blocks, and in no other case.
    In particular, under the same key and another initial vector, every
    text of 16 bytes or more decrypts, without any failure, to the text
    with its first 16 bytes xored with the two vectors; the result is
    neither empty nor the text that was encrypted. *)
Theorem encrypt_decrypt_roundtrip (f : KeyFile) (ks : Keys) :
  keysLoaded f ks ->
  (forall s, fst (decrypt f ks (fst (encrypt f ks s))) = s)
  /\ (forall s, snd (encrypt f ks s) = ks
                /\ snd (decrypt f ks (fst (encrypt f ks s))) = ks)
  /\ (forall f' ks' s,
        keysLoaded f' ks' ->
        s <> "" ->
        fst (decrypt f' ks' (fst (encrypt f ks s)))
        = match unpad (concat (cbcDecrypt
                                 (encryptionKey ks') (encryptionIv ks')
                                 (blocks (evpEncrypt (encryptionKey ks) (encryptionIv ks)
                                                     (list_ascii_of_string s))))) with
          | Some output => string_of_list_ascii output
          | None => ""
          end)
  /\ (forall f' ks' s,
        keysLoaded f' ks' ->
        s <> "" ->
        fst (decrypt f' ks' (fst (encrypt f ks s))) = ""
        <-> match unpad (concat (cbcDecrypt
                                   (encryptionKey ks') (encryptionIv ks')
                                   (blocks (evpEncrypt (encryptionKey ks) (encryptionIv ks)
                                                       (list_ascii_of_string s))))) with
            | Some output => output = []
            | None => True
            end)
  /\ (forall f' ks' s,
        keysLoaded f' ks' ->
        encryptionKey ks' = encryptionKey ks ->
        encryptionIv ks' <> encryptionIv ks ->
        (16 <= String.length s)%nat ->
        let out := fst (decrypt f' ks' (fst (encrypt f ks s))) in
        out = string_of_list_ascii
                (xorBytes (xorBytes (firstn 16 (list_ascii_of_string s))
                                    (encryptionIv ks))
                          (encryptionIv ks')
                 ++ skipn 16 (list_ascii_of_string s))
        /\ out <> "" /\ out <> s).
Proof.
  intros Hl.
  destruct (roundtrip_of_lawful_cipher aes256_laws f ks Hl) as (H1 & H2 & H3 & H4).
  split; [exact H1 |]. split; [exact H2 |]. split; [exact H3 |]. split; [| exact H4].
  intros f' ks' s Hl' Hs. rewrite (H3 f' ks' s Hl' Hs).
  destruct (unpad _) as [output |]; [| done].
  destruct output; [done |]. split; discriminate.
Qed.

(** C8, an instance: the example key and vector; "500" comes back. *)
Lemma encrypt_decrypt_roundtrip_witness :
  fst (decrypt (keyFileOf exampleIv) (keysOf exampleIv)
               (fst (encrypt (keyFileOf exampleIv) (keysOf exampleIv) "500"))) = "500".
Proof.
  refine (proj1 (encrypt_decrypt_roundtrip (keyFileOf exampleIv) (keysOf exampleIv) _)
                "500").
  repeat split.
Defined.

(** C8, counterexample.  The text is encrypted under the key
    "0123456789abcdef0123456789abcdef" and the vector "ABCDEFGHIJKLMNOP"
    (the ciphertext is the one [openssl enc -aes-256-cbc] gives for them)
    and decrypted under the same key and the vector "@BCDEFGHIJKLMNOP":
    [decrypt] reports no failure and returns a text whose first character
    is wrong.  Under the vector [craftedIv] the padding of "500" is
    accepted and nothing is left: [decrypt] returns the empty string, the
    value of a failure, without one. *)
Lemma mismatched_iv_decrypts_to_garbage :
  encryptionIv (keysOf otherIv) <> encryptionIv (keysOf exampleIv)
  /\ fst (encrypt (keyFileOf exampleIv) (keysOf exampleIv) "administrator@example.org")
     = list_ascii_of_string "Nop2IQXgDvtQiDw02ML3jS75DZ7/YQ4Lv8kpAUc3jC4="
  /\ fst (decrypt (keyFileOf otherIv) (keysOf otherIv)
                  (fst (encrypt (keyFileOf exampleIv) (keysOf exampleIv)
                                "administrator@example.org")))
     = "`dministrator@example.org"
  /\ fst (decrypt (keyFileOf otherIv) (keysOf otherIv)
                  (fst (encrypt (keyFileOf exampleIv) (keysOf exampleIv) "500")))
     = "400"
  /\ evpDecrypt exampleKey craftedIv
                (Base64.fromBase64
                   (fst (encrypt (keyFileOf exampleIv) (keysOf exampleIv) "500")))
     = Some []
  /\ fst (decrypt (keyFileOf craftedIv) (keysOf craftedIv)
                  (fst (encrypt (keyFileOf exampleIv) (keysOf exampleIv) "500")))
     = "".
Proof. split; [discriminate | vm_compute; repeat split; reflexivity]. Qed.

End EncryptionFacts.

(** * Further properties *)

(** ** The store after a write *)

Lemma settingsWrite_locked e f n v : f ∈ ext_locked e -> settingsWrite e f n v = e.
Proof. intros H. unfold settingsWrite. by rewrite bool_decide_eq_true_2. Qed.

Lemma settingsWrite_open e f n v :
  f ∉ ext_locked e ->
  settingsWrite e f n v
  = mkExt (ext_home e) ({[ f ]} ∪ ext_files e) (<[ (f, n) := v ]> (ext_values e))
          (ext_locked e).
Proof. intros H. unfold settingsWrite. by rewrite bool_decide_eq_false_2. Qed.

Lemma settingsWrite_home e f n v : ext_home (settingsWrite e f n v) = ext_home e.
Proof. unfold settingsWrite. by case_bool_decide. Qed.

Lemma settingsWrite_keeps_locked e f n v :
  ext_locked (settingsWrite e f n v) = ext_locked e.
Proof. unfold settingsWrite. by case_bool_decide. Qed.

Lemma writable_write p e f n v k :
  writable p (settingsWrite e f n v) k = writable p e k.
Proof. unfold writable. by rewrite storePath_write, settingsWrite_keeps_locked. Qed.

Lemma file_written (f : string) (X : gset string) : f ∈ {[ f ]} ∪ X.
Proof. set_solver. Qed.

(** Reading back the key that was written. *)
Lemma liveValue_written p e k v :
  liveValue p (settingsWrite e (storePath p e k) (valueName k) v) k
  = if writable p e k then v else liveValue p e k.
Proof.
  unfold writable. case_bool_decide as Hw.
  - unfold liveValue. rewrite storePath_write, settingsWrite_open by done.
    unfold settingsString, settingsValue, fileExists. cbn [ext_values ext_files].
    rewrite lookup_insert_eq. cbn [default].
    destruct p; [done |]. rewrite bool_decide_eq_true_2; [done | apply file_written].
  - by rewrite settingsWrite_locked.
Qed.

Lemma readWarnings_written p e k v :
  writable p e k = true ->
  readWarnings p (settingsWrite e (storePath p e k) (valueName k) v) k = [].
Proof.
  unfold writable. intros Hw. apply bool_decide_eq_true_1 in Hw.
  unfold readWarnings. destruct p; [done |].
  rewrite storePath_write, settingsWrite_open by done.
  unfold settingsContains, settingsValue, fileExists. cbn [ext_values ext_files].
  rewrite lookup_insert_eq. rewrite bool_decide_eq_true_2; [done | apply file_written].
Qed.

(** A write leaves every other key as it was; on macOS it may create the
    file, which shows no value of another key when only files that exist
    hold values. *)
Lemma liveValue_other p e f n v k :
  wellFormed p e ->
  (storePath p e k, valueName k) <> (f, n) ->
  liveValue p (settingsWrite e f n v) k = liveValue p e k.
Proof.
  intros Hwf Hne. unfold settingsWrite. case_bool_decide as Hl; [done |].
  unfold liveValue. set (f2 := storePath p e k).
  assert (Hf2 : storePath p (mkExt (ext_home e) ({[f]} ∪ ext_files e)
                              (<[(f, n):=v]> (ext_values e)) (ext_locked e)) k = f2)
    by by destruct p.
  rewrite Hf2.
  assert (Hs : settingsString (mkExt (ext_home e) ({[f]} ∪ ext_files e)
                                 (<[(f, n):=v]> (ext_values e)) (ext_locked e))
                              f2 (valueName k)
               = settingsString e f2 (valueName k)).
  { unfold settingsString, settingsValue. cbn [ext_values].
    rewrite lookup_insert_ne; [done |]. intros Heq. apply Hne. by symmetry. }
  rewrite Hs. destruct p; [done |].
  unfold fileExists. cbn [ext_files].
  destruct (decide (f2 ∈ ext_files e)) as [Hin | Hout].
  - rewrite !bool_decide_eq_true_2; [done | done | set_solver].
  - rewrite (bool_decide_eq_false_2 (f2 ∈ ext_files e)) by done.
    case_bool_decide; [| done].
    unfold settingsString, settingsValue.
    destruct (ext_values e !! (f2, valueName k)) eqn:E; [| done].
    exfalso. apply Hout, (Hwf f2 (valueName k)). by rewrite E.
Qed.

Lemma wellFormed_write p e f n v : wellFormed p e -> wellFormed p (settingsWrite e f n v).
Proof.
  destruct p; [done |].
  intros Hwf. unfold settingsWrite. case_bool_decide; [done |].
  intros f' n' [x Hx]. cbn [ext_values ext_files] in *.
  destruct (decide ((f, n) = (f', n'))) as [Heq | Hne].
  - injection Heq as <- <-. set_solver.
  - rewrite lookup_insert_ne in Hx by done.
    apply elem_of_union_r, (Hwf f' n'). by rewrite Hx.
Qed.

(** ** One pass of the loop: what it leaves in the store *)

Lemma storePath_key p e k1 k2 : keyOf k1 = keyOf k2 -> storePath p e k1 = storePath p e k2.
Proof. unfold keyOf, storePath. intros H. injection H as H1 H2 H3. by rewrite H1, H2. Qed.

Lemma liveValue_key p e k1 k2 : keyOf k1 = keyOf k2 -> liveValue p e k1 = liveValue p e k2.
Proof.
  intros H. unfold liveValue. rewrite (storePath_key p e k1 k2 H).
  unfold keyOf in H. injection H as _ _ H3. by rewrite H3.
Qed.

Lemma keeps_eq {X A} (obs : World -> X) (c : M A) w a w' :
  keeps obs c -> c w = (a, w') -> obs w' = obs w.
Proof. intros H E. specialize (H w). by rewrite E in H. Qed.

Lemma keepsExt_emit e : keeps ext (emit e).
Proof. by intros w. Qed.

Lemma keepsExt_insertChange n o v a c : keeps ext (insertChange n o v a c).
Proof. intros w. by rewrite insertChange_upd. Qed.

Lemma keepsExt_insertOrUpdateConfiguration n f v c :
  keeps ext (insertOrUpdateConfiguration n f v c).
Proof. intros w. by rewrite insertOrUpdateConfiguration_upd. Qed.

Lemma keepsExt_sendAlert cfg a message : keeps ext (sendAlert cfg a message).
Proof.
  intros w.
  destruct (sendAlert_spec cfg a message w) as (r & n & l & sent & a' & E & _).
  by rewrite E.
Qed.

#[local] Hint Resolve keepsExt_emit keepsExt_insertChange
  keepsExt_insertOrUpdateConfiguration keepsExt_sendAlert : keeps.

Lemma keepsExt_alertVia cfg m message : keeps ext (alertVia cfg m message).
Proof. unfold alertVia. keeps_steps. Qed.

#[local] Hint Resolve keepsExt_alertVia : keeps.

Lemma keepsExt_onRollbackPerformed p cfg m n : keeps ext (onRollbackPerformed p cfg m n).
Proof. unfold onRollbackPerformed. keeps_steps. Qed.

#[local] Hint Resolve keepsExt_onRollbackPerformed : keeps.

Lemma setValue_ext p k v w :
  value k <> v ->
  ext (snd (setValue p k v w)) = settingsWrite (ext w) (storePath p (ext w) k) (valueName k) v.
Proof. intros H. by rewrite setValue_changed. Qed.

Lemma rollbackIfNeeded_ext p k w :
  ext (snd (rollbackIfNeeded p k w))
  = if (isCritical k && negb (String.eqb (liveValue p (ext w) k) (previousValue k)))%bool
    then settingsWrite (ext w) (storePath p (ext w) k) (valueName k) (previousValue k)
    else ext w.
Proof.
  destruct (isCritical k && _)%bool eqn:E.
  - apply andb_true_iff in E as [Hc Hd]. apply negb_true_iff, String.eqb_neq in Hd.
    by rewrite rollbackIfNeeded_diverged.
  - by rewrite rollbackIfNeeded_idle.
Qed.

Lemma setValue_key p k v w : keyOf (fst (setValue p k v w)) = keyOf k.
Proof. rewrite setValue_fst. by destruct (String.eqb (value k) v). Qed.

Lemma rollbackIfNeeded_key p k w : keyOf (fst (fst (rollbackIfNeeded p k w))) = keyOf k.
Proof. rewrite rollbackIfNeeded_fst. by destruct (_ && _)%bool. Qed.

Lemma rollbackIfNeeded_value p k w : value (fst (fst (rollbackIfNeeded p k w))) = value k.
Proof. rewrite rollbackIfNeeded_fst. by destruct (_ && _)%bool. Qed.

Lemma alertVia_items cfg m message w : items (fst (alertVia cfg m message w)) = items m.
Proof.
  unfold alertVia, bind. by destruct (sendAlert cfg (alert m) message w) as [[sent a'] w'].
Qed.

Lemma persistFinal_sameKeys p cfg m k v message w :
  sameKeys k m (persistFinal p cfg m k v message w).
Proof.
  unfold persistFinal.
  apply (bind_inv _ _ _ (sameKeys k m)); intros m1 w1 E1.
  assert (Hm1 : items m1 = items m).
  { destruct p; [by injection E1 as <- _ |].
    pose proof (alertVia_items cfg m message w) as H. by rewrite E1 in H. }
  apply (bind_inv _ _ _ (sameKeys k m)); intros b w2 _.
  apply (bind_inv _ _ _ (sameKeys k m)); intros k1 w3 E3.
  split; cbn [ret fst snd]; [| done].
  pose proof (setValue_key p k v w2) as H. by rewrite E3 in H.
Qed.

Lemma persistFinal_ext p cfg m k v message w :
  value k <> v ->
  ext (snd (persistFinal p cfg m k v message w))
  = settingsWrite (ext w) (storePath p (ext w) k) (valueName k) v.
Proof.
  intros Hne. unfold persistFinal.
  apply (bind_inv _ _ _ (fun r => ext (snd r) = _)); intros m1 w1 E1.
  assert (H1 : ext w1 = ext w).
  { destruct p; [by injection E1 as _ <- |].
    by apply (keeps_eq ext _ _ _ _ (keepsExt_alertVia cfg m message) E1). }
  apply (bind_inv _ _ _ (fun r => ext (snd r) = _)); intros b w2 E2.
  pose proof (keeps_eq ext _ _ _ _ (keepsExt_insertOrUpdateConfiguration _ _ _ _) E2) as H2.
  apply (bind_inv _ _ _ (fun r => ext (snd r) = _)); intros k1 w3 E3.
  cbn [ret snd]. pose proof (setValue_ext p k v w2 Hne) as H3. rewrite E3 in H3.
  cbn [snd] in H3. by rewrite H3, H2, H1.
Qed.

Lemma onRollbackPerformed_items p cfg m n w :
  items (fst (onRollbackPerformed p cfg m n w)) = items m.
Proof.
  unfold onRollbackPerformed. destruct p.
  - done.
  - unfold bind at 1. rewrite emit_upd. cbv beta iota. apply alertVia_items.
Qed.

Lemma criticalChange_sameKeys p cfg i m k v w :
  sameKeys k m (criticalChange p cfg i m k v w).
Proof.
  unfold criticalChange.
  apply (bind_inv _ _ _ (sameKeys k m)); intros r w1 E1.
  assert (Hk : keyOf (fst r) = keyOf k).
  { pose proof (rollbackIfNeeded_key p (setNewValue (setRollbackCancelled k false) v) w) as H.
    by rewrite E1 in H. }
  apply (bind_inv _ _ _ (sameKeys k m)); intros m1 w2 E2.
  assert (Hm1 : items m1 = items m).
  { destruct (snd r); [| by injection E2 as <- _].
    pose proof (onRollbackPerformed_items p cfg m (valueName (fst r)) w1) as H.
    by rewrite E2 in H. }
  apply (bind_inv _ _ _ (sameKeys k m)); intros m2 w3 E3.
  assert (Hm2 : items m2 = items m).
  { destruct p; [| by injection E3 as <- _].
    unfold bind in E3. rewrite emit_upd in E3. by injection E3 as <- _. }
  destruct (persistFinal_sameKeys p cfg m2 (fst r) v
              (criticalMessage p (fst r) v) w3) as [H1 H2].
  split; congruence.
Qed.

Lemma criticalChange_ext p cfg i m k v w :
  value k <> v ->
  exists e1,
    (e1 = ext w
     \/ e1 = settingsWrite (ext w) (storePath p (ext w) k) (valueName k) (previousValue k))
    /\ ext (snd (criticalChange p cfg i m k v w))
       = settingsWrite e1 (storePath p (ext w) k) (valueName k) v.
Proof.
  intros Hne. unfold criticalChange.
  set (k1 := setNewValue (setRollbackCancelled k false) v).
  assert (Hkey : keyOf k1 = keyOf k) by done.
  exists (ext (snd (rollbackIfNeeded p k1 w))). split.
  { rewrite rollbackIfNeeded_ext. destruct (_ && _)%bool; [right | by left].
    by rewrite (storePath_key p (ext w) k1 k Hkey). }
  apply (bind_inv _ _ _ (fun r => ext (snd r) = _)); intros r w1 E1.
  rewrite E1. cbn [snd].
  assert (Hk : keyOf (fst r) = keyOf k).
  { pose proof (rollbackIfNeeded_key p k1 w) as H. by rewrite E1 in H. }
  assert (Hv : value (fst r) = value k).
  { pose proof (rollbackIfNeeded_value p k1 w) as H. by rewrite E1 in H. }
  assert (Hp : storePath p (ext w1) (fst r) = storePath p (ext w) k).
  { rewrite (storePath_key p (ext w1) (fst r) k Hk).
    pose proof (rollbackIfNeeded_ext p k1 w) as H. rewrite E1 in H. cbn [snd] in H.
    rewrite H. destruct (_ && _)%bool; [apply storePath_write | done]. }
  apply (bind_inv _ _ _ (fun r => ext (snd r) = _)); intros m1 w2 E2.
  assert (H2 : ext w2 = ext w1).
  { destruct (snd r); [| by injection E2 as _ <-].
    by apply (keeps_eq ext _ _ _ _ (keepsExt_onRollbackPerformed p cfg m _) E2). }
  apply (bind_inv _ _ _ (fun r => ext (snd r) = _)); intros m2 w3 E3.
  assert (H3 : ext w3 = ext w2).
  { destruct p; [| by injection E3 as _ <-].
    unfold bind in E3. rewrite emit_upd in E3. by injection E3 as _ <-. }
  rewrite persistFinal_ext by congruence.
  rewrite H3, H2, Hp. unfold keyOf in Hk. injection Hk as _ _ Hn. by rewrite Hn.
Qed.

Lemma nonCriticalChange_sameKeys p cfg m k v w :
  sameKeys k m (nonCriticalChange p cfg m k v w).
Proof.
  unfold nonCriticalChange. destruct (_ && _)%bool.
  - apply (bind_inv _ _ _ (sameKeys k m)); intros m1 w1 E1.
    assert (Hm1 : items m1 = items m).
    { destruct p; [| by injection E1 as <- _].
      destruct (negb (isNever cfg)); [| by injection E1 as <- _].
      pose proof (alertVia_items cfg m (thresholdMessage Windows (incrementChangeCount k) v) w)
        as H. by rewrite E1 in H. }
    destruct (persistFinal_sameKeys p cfg m1 (resetChangeCount (incrementChangeCount k)) v
                (thresholdMessage p (incrementChangeCount k) v) w1) as [H1 H2].
    split; [by rewrite H1 | congruence].
  - apply (bind_inv _ _ _ (sameKeys k m)); intros b w1 _.
    apply (bind_inv _ _ _ (sameKeys k m)); intros k2 w2 E2.
    split; cbn [ret fst snd]; [| done].
    pose proof (setValue_key p (incrementChangeCount k) v w1) as H. by rewrite E2 in H.
Qed.

Lemma nonCriticalChange_ext p cfg m k v w :
  value k <> v ->
  ext (snd (nonCriticalChange p cfg m k v w))
  = settingsWrite (ext w) (storePath p (ext w) k) (valueName k) v.
Proof.
  intros Hne. unfold nonCriticalChange. destruct (_ && _)%bool.
  - apply (bind_inv _ _ _ (fun r => ext (snd r) = _)); intros m1 w1 E1.
    assert (H1 : ext w1 = ext w).
    { destruct p; [| by injection E1 as _ <-].
      destruct (negb (isNever cfg)); [| by injection E1 as _ <-].
      by apply (keeps_eq ext _ _ _ _ (keepsExt_alertVia cfg m _) E1). }
    rewrite persistFinal_ext by done. rewrite H1. by destruct p.
  - apply (bind_inv _ _ _ (fun r => ext (snd r) = _)); intros b w1 E1.
    pose proof (keeps_eq ext _ _ _ _ (keepsExt_insertOrUpdateConfiguration _ _ _ _) E1) as H1.
    apply (bind_inv _ _ _ (fun r => ext (snd r) = _)); intros k2 w2 E2.
    cbn [ret snd].
    pose proof (setValue_ext p (incrementChangeCount k) v w1 Hne) as H2.
    rewrite E2 in H2. cbn [snd] in H2. rewrite H2, H1. by destruct p.
Qed.

Lemma checkItem_sameKeys p cfg i m k w : sameKeys k m (checkItem p cfg i m k w).
Proof.
  destruct (String.eqb (liveValue p (ext w) k) (value k)) eqn:E.
  { apply String.eqb_eq in E. by rewrite checkItem_unchanged. }
  apply String.eqb_neq in E. rewrite checkItem_changed by done.
  set (w2 := upd w _ _ _). set (current := liveValue p (ext w) k).
  destruct (String.eqb _ current); [| destruct (isCritical k)].
  - apply (bind_inv _ _ _ (sameKeys k m)); intros k1 w3 E1.
    split; cbn [ret fst snd]; [| done].
    pose proof (setValue_key p k current w2) as H. by rewrite E1 in H.
  - destruct (criticalChange_sameKeys p cfg i (setLastAlerted m (valueName k) current)
                k current w2) as [H1 H2]. by split.
  - destruct (nonCriticalChange_sameKeys p cfg (setLastAlerted m (valueName k) current)
                k current w2) as [H1 H2]. by split.
Qed.

(** The store after one pass over an item: untouched when the value was
    found as cached; otherwise the value found is written last, after the
    previous value when the pass rolled back. *)
Lemma checkItem_ext p cfg i m k w :
  let current := liveValue p (ext w) k in
  let f := storePath p (ext w) k in
  exists e1,
    (e1 = ext w \/ e1 = settingsWrite (ext w) f (valueName k) (previousValue k))
    /\ ext (snd (checkItem p cfg i m k w))
       = if String.eqb current (value k) then ext w
         else settingsWrite e1 f (valueName k) current.
Proof.
  intros current f. subst current f.
  destruct (String.eqb (liveValue p (ext w) k) (value k)) eqn:E.
  { apply String.eqb_eq in E. rewrite checkItem_unchanged by done.
    exists (ext w). by split; [left |]. }
  apply String.eqb_neq in E. rewrite checkItem_changed by done.
  set (w2 := upd w _ _ _). set (current := liveValue p (ext w) k).
  assert (Hw2 : ext w2 = ext w) by done.
  assert (Hv : value k <> current) by (intros H; by apply E).
  destruct (String.eqb _ current); [| destruct (isCritical k)].
  - exists (ext w). split; [by left |].
    apply (bind_inv _ _ _ (fun r => ext (snd r) = _)); intros k1 w3 E1.
    cbn [ret snd]. pose proof (setValue_ext p k current w2 Hv) as H.
    rewrite E1 in H. cbn [snd] in H. by rewrite H, Hw2.
  - destruct (criticalChange_ext p cfg i (setLastAlerted m (valueName k) current)
                k current w2 Hv) as (e1 & He1 & H).
    exists e1. rewrite Hw2 in *. by split.
  - exists (ext w). split; [by left |].
    by rewrite nonCriticalChange_ext, Hw2.
Qed.

Lemma liveValue_storeKey p e k1 k2 :
  storePath p e k1 = storePath p e k2 -> valueName k1 = valueName k2 ->
  liveValue p e k1 = liveValue p e k2.
Proof. intros H1 H2. unfold liveValue. by rewrite H1, H2. Qed.

(** The value found is what the store holds at the end of the pass,
    whether it takes writes or not. *)
Lemma written_last p e e1 k :
  e1 = e \/ e1 = settingsWrite e (storePath p e k) (valueName k) (previousValue k) ->
  liveValue p (settingsWrite e1 (storePath p e k) (valueName k) (liveValue p e k)) k
  = liveValue p e k.
Proof.
  intros [-> | ->].
  - rewrite liveValue_written. by destruct (writable p e k).
  - rewrite <- (storePath_write p e (storePath p e k) (valueName k) (previousValue k) k)
      at 2.
    rewrite liveValue_written, writable_write, liveValue_written.
    by destruct (writable p e k).
Qed.

Lemma written_others p e e1 k k2 :
  wellFormed p e ->
  e1 = e \/ e1 = settingsWrite e (storePath p e k) (valueName k) (previousValue k) ->
  settled p e k2 ->
  settled p (settingsWrite e1 (storePath p e k) (valueName k) (liveValue p e k)) k2.
Proof.
  intros Hwf He1 Hs. unfold settled in *.
  set (f := storePath p e k) in *. set (n := valueName k) in *.
  assert (Hwf1 : wellFormed p e1) by (destruct He1 as [-> | ->]; [done | by apply wellFormed_write]).
  assert (Hp1 : forall x, storePath p e1 x = storePath p e x)
    by (intros x; destruct He1 as [-> | ->]; [done | apply storePath_write]).
  destruct (decide ((storePath p e k2, valueName k2) = (f, n))) as [Heq | Hne].
  - injection Heq as Hf Hn.
    rewrite (liveValue_storeKey p _ k2 k) by (rewrite ?storePath_write, ?Hp1; done).
    unfold f, n. rewrite written_last by done.
    rewrite <- Hs. symmetry. by apply liveValue_storeKey.
  - rewrite liveValue_other; [| done | by rewrite Hp1].
    destruct He1 as [-> | ->]; [done |]. by rewrite liveValue_other.
Qed.

Lemma checkItem_settles p cfg i m k w :
  settled p (ext (snd (checkItem p cfg i m k w))) (fst (fst (checkItem p cfg i m k w))).
Proof.
  destruct (checkItem_ext p cfg i m k w) as (e1 & He1 & Hext).
  destruct (checkItem_sameKeys p cfg i m k w) as [Hkey _].
  unfold settled. rewrite checkItem_value, (liveValue_key p _ _ k Hkey), Hext.
  destruct (String.eqb _ _); [done |]. by apply written_last.
Qed.

Lemma checkItem_others p cfg i m k w k2 :
  wellFormed p (ext w) -> settled p (ext w) k2 ->
  settled p (ext (snd (checkItem p cfg i m k w))) k2.
Proof.
  intros Hwf Hs. destruct (checkItem_ext p cfg i m k w) as (e1 & He1 & Hext).
  rewrite Hext. destruct (String.eqb _ _); [done |]. by apply written_others.
Qed.

Lemma checkItem_wellFormed p cfg i m k w :
  wellFormed p (ext w) -> wellFormed p (ext (snd (checkItem p cfg i m k w))).
Proof.
  intros Hwf. destruct (checkItem_ext p cfg i m k w) as (e1 & He1 & Hext).
  rewrite Hext. destruct (String.eqb _ _); [done |].
  apply wellFormed_write. destruct He1 as [-> | ->]; [done | by apply wellFormed_write].
Qed.

Lemma insert_middle {A} (l1 l2 : list A) (x y : A) :
  <[ length l1 := y ]> (l1 ++ x :: l2) = l1 ++ y :: l2.
Proof. rewrite insert_app_r_alt by lia. by rewrite Nat.sub_diag. Qed.

(** The loop, from position [length done] on. *)
Lemma checkFrom_settles p cfg : forall todo done m w,
  items m = done ++ todo ->
  wellFormed p (ext w) ->
  Forall (settled p (ext w)) done ->
  let r := checkFrom p cfg (length done) todo m w in
  wellFormed p (ext (snd r))
  /\ Forall (settled p (ext (snd r))) (items (fst r))
  /\ map keyOf (items (fst r)) = map keyOf (items m).
Proof.
  induction todo as [| k rest IH]; intros done m w Hitems Hwf Hdone r; subst r.
  - cbn [checkFrom ret fst snd]. rewrite Hitems, app_nil_r. done.
  - cbn [checkFrom]. unfold bind.
    pose proof (checkItem_settles p cfg (length done) m k w) as Hk.
    pose proof (checkItem_wellFormed p cfg (length done) m k w Hwf) as Hwf1.
    pose proof (fun k2 => checkItem_others p cfg (length done) m k w k2 Hwf) as Hothers.
    destruct (checkItem_sameKeys p cfg (length done) m k w) as [Hkey Hm].
    destruct (checkItem p cfg (length done) m k w) as [[k1 m1] w1]. cbn [fst snd] in *.
    assert (Hnew : items (setItems m1 (<[ length done := k1 ]> (items m1)))
                   = (done ++ [k1]) ++ rest).
    { cbn [items setItems]. rewrite Hm, Hitems, insert_middle. by rewrite <- app_assoc. }
    assert (Hlen : S (length done) = length (done ++ [k1]))
      by (rewrite length_app; cbn; lia).
    rewrite Hlen.
    destruct (IH (done ++ [k1]) _ w1 Hnew Hwf1) as (H1 & H2 & H3).
    { apply Forall_app. split; [| by constructor].
      eapply Forall_impl; [exact Hdone |]. intros k2. apply Hothers. }
    split; [done |]. split; [done |].
    rewrite H3, Hnew, Hitems, <- app_assoc, !map_app. cbn [map app]. by rewrite Hkey.
Qed.

Lemma setItems_same m : setItems m (items m) = m.
Proof. by destruct m. Qed.

Lemma checkFrom_quiescent p cfg : forall todo done m w,
  items m = done ++ todo ->
  Forall (settled p (ext w)) todo ->
  checkFrom p cfg (length done) todo m w
  = (m, addTrace w (flat_map (readWarnings p (ext w)) todo)).
Proof.
  induction todo as [| k rest IH]; intros done m w Hitems Hs.
  - cbn [checkFrom flat_map]. unfold ret, addTrace. destruct w; cbn. by rewrite app_nil_r.
  - inversion Hs as [| ? ? Hk Hrest]; subst.
    cbn [checkFrom flat_map]. unfold bind. rewrite checkItem_unchanged by exact Hk.
    cbn [fst snd]. rewrite Hitems, insert_middle, <- Hitems, setItems_same.
    assert (Hlen : S (length done) = length (done ++ [k]))
      by (rewrite length_app; cbn; lia).
    rewrite Hlen, (IH (done ++ [k])).
    + f_equal. unfold addTrace, upd. cbn. by rewrite <- app_assoc.
    + by rewrite <- app_assoc.
    + done.
Qed.

(** ** What a pass records *)

Lemma extends_ret {A} (a : A) : extends (ret a).
Proof. intros w. exists []. by rewrite app_nil_r. Qed.

Lemma extends_bind {A B} (c : M A) (k : A -> M B) :
  extends c -> (forall a, extends (k a)) -> extends (bind c k).
Proof.
  intros Hc Hk w. unfold bind. destruct (Hc w) as [l1 H1].
  destruct (c w) as [a w1]. cbn [snd] in *. destruct (Hk a w1) as [l2 H2].
  exists (l1 ++ l2). by rewrite H2, H1, app_assoc.
Qed.

Lemma extends_upd {A} (c : M A) :
  (forall w, exists a e d l, c w = (a, upd w e d l)) -> extends c.
Proof. intros H w. destruct (H w) as (a & e & d & l & ->). by exists l. Qed.

Lemma extends_emit e : extends (emit e).
Proof. apply extends_upd. intros w. rewrite emit_upd. eauto. Qed.

Lemma extends_getCurrentValue p k : extends (getCurrentValue p k).
Proof. apply extends_upd. intros w. rewrite getCurrentValue_upd. eauto. Qed.

Lemma extends_insertChange n o v a c : extends (insertChange n o v a c).
Proof. apply extends_upd. intros w. rewrite insertChange_upd. eauto. Qed.

Lemma extends_insertOrUpdateConfiguration n f v c :
  extends (insertOrUpdateConfiguration n f v c).
Proof. apply extends_upd. intros w. rewrite insertOrUpdateConfiguration_upd. eauto. Qed.

Lemma extends_setValue p k v : extends (setValue p k v).
Proof.
  intros w. destruct (String.eqb (value k) v) eqn:E.
  - unfold setValue. rewrite E. apply extends_ret.
  - apply String.eqb_neq in E. rewrite setValue_changed by done. eauto.
Qed.

Lemma extends_rollbackIfNeeded p k : extends (rollbackIfNeeded p k).
Proof.
  intros w.
  destruct (isCritical k && negb (String.eqb (liveValue p (ext w) k) (previousValue k)))%bool
    eqn:E.
  - apply andb_true_iff in E as [Hc Hd]. apply negb_true_iff, String.eqb_neq in Hd.
    rewrite rollbackIfNeeded_diverged by done. eauto.
  - rewrite rollbackIfNeeded_idle by done. eauto.
Qed.

Lemma extends_sendAlert cfg a message : extends (sendAlert cfg a message).
Proof.
  intros w.
  destruct (sendAlert_spec cfg a message w) as (r & n & l & sent & a' & E & _).
  rewrite E. eauto.
Qed.

Ltac extends_steps :=
  repeat first
    [ apply extends_ret
    | apply extends_emit
    | apply extends_getCurrentValue
    | apply extends_insertChange
    | apply extends_insertOrUpdateConfiguration
    | apply extends_setValue
    | apply extends_rollbackIfNeeded
    | apply extends_sendAlert
    | match goal with
      | |- extends (if ?b then _ else _) => destruct b
      | |- extends (match ?p with Windows => _ | MacOS => _ end) => destruct p
      | |- extends (bind _ _) => apply extends_bind; [| intros ?]
      end ].

Lemma extends_persistFinal p cfg m k v message : extends (persistFinal p cfg m k v message).
Proof. unfold persistFinal, alertVia. extends_steps. Qed.

Lemma extends_in {A} (c : M A) w e :
  extends c -> In e (trace w) -> In e (trace (snd (c w))).
Proof. intros H Hin. destruct (H w) as [l ->]. apply in_app_iff. by left. Qed.

Lemma keepsDb_sendAlert cfg a message : keeps db (sendAlert cfg a message).
Proof.
  intros w.
  destruct (sendAlert_spec cfg a message w) as (r & n & l & sent & a' & E & _).
  by rewrite E.
Qed.

Lemma keepsDb_alertVia cfg m message : keeps db (alertVia cfg m message).
Proof.
  unfold alertVia. apply keeps_bind; [apply keepsDb_sendAlert | intros; apply keeps_ret].
Qed.

Lemma keepsDb_setValue p k v : keeps db (setValue p k v).
Proof.
  intros w. destruct (String.eqb (value k) v) eqn:E.
  - unfold setValue. by rewrite E.
  - apply String.eqb_neq in E. by rewrite setValue_changed.
Qed.

(** The configuration row the last statements of the loop body leave. *)
Lemma persistFinal_db p cfg m k v message w :
  db (snd (persistFinal p cfg m k v message w))
  = upserted (db w) (valueName k) (path k) v (isCritical k).
Proof.
  unfold persistFinal.
  apply (bind_inv _ _ _ (fun r => db (snd r) = _)); intros m1 w1 E1.
  assert (H1 : db w1 = db w).
  { destruct p; [by injection E1 as _ <- |].
    by apply (keeps_eq db _ _ _ _ (keepsDb_alertVia cfg m message) E1). }
  apply (bind_inv _ _ _ (fun r => db (snd r) = _)); intros b w2 E2.
  rewrite insertOrUpdateConfiguration_upd in E2. injection E2 as _ <-.
  apply (bind_inv _ _ _ (fun r => db (snd r) = _)); intros k1 w3 E3.
  cbn [ret snd]. rewrite (keeps_eq db _ _ _ _ (keepsDb_setValue p k v) E3).
  cbn [db upd]. by rewrite H1.
Qed.

Lemma upserted_lookup d n f v c :
  db_online d = true ->
  db_configurations (upserted d n f v c) !! n = Some (mkConfig f v c).
Proof. intros H. unfold upserted. rewrite H. cbn. apply lookup_insert_eq. Qed.

Lemma persistFinal_item p cfg m k v message w :
  value k <> v -> fst (fst (persistFinal p cfg m k v message w)) = shiftValue k v.
Proof.
  intros Hne. unfold persistFinal.
  apply (bind_inv _ _ _ (fun r => fst (fst r) = _)); intros m1 w1 _.
  apply (bind_inv _ _ _ (fun r => fst (fst r) = _)); intros b w2 _.
  apply (bind_inv _ _ _ (fun r => fst (fst r) = _)); intros k1 w3 E3.
  cbn [ret fst]. pose proof (setValue_fst p k v w2) as H. rewrite E3 in H. cbn [fst] in H.
  rewrite H. apply String.eqb_neq in Hne. by rewrite Hne.
Qed.

Lemma persistFinal_trace p cfg m k v message w :
  value k <> v ->
  let f := storePath p (ext w) k in
  exists l,
    trace (snd (persistFinal p cfg m k v message w))
    = trace w ++ l ++ [EvWrite f (valueName k) v; EvSync f]
      ++ setReport (settingsWrite (ext w) f (valueName k) v) f k v.
Proof.
  intros Hne f. unfold persistFinal. unfold bind at 1.
  set (c1 := match p with Windows => ret m | MacOS => alertVia cfg m message end).
  assert (Hc1 : keeps ext c1 /\ keeps db c1 /\ extends c1).
  { unfold c1. destruct p.
    - split; [| split]; [apply keeps_ret | apply keeps_ret | apply extends_ret].
    - split; [apply keepsExt_alertVia | split; [apply keepsDb_alertVia |]].
      unfold alertVia. extends_steps. }
  destruct Hc1 as (Hc1e & Hc1d & Hc1t).
  pose proof (Hc1e w) as He1. pose proof (Hc1d w) as Hd1. destruct (Hc1t w) as [t1 Ht1].
  destruct (c1 w) as [m1 w1]. cbn [fst snd] in He1, Hd1, Ht1.
  unfold bind at 1. rewrite insertOrUpdateConfiguration_upd.
  unfold bind at 1. rewrite setValue_changed by done.
  cbn [ret snd trace upd ext]. rewrite He1, Ht1. fold f.
  exists (t1 ++ dbWarning (db w1) ++ setSignals p k v).
  by rewrite <- !app_assoc.
Qed.

(** The critical branch up to its last statements: the rollback, the slot
    of [rollbackPerformed] and the delayed closure touch neither the store
    nor the change log after [rollbackIfNeeded] has returned. *)
Lemma criticalChange_steps p cfg i m k v w :
  let k1 := setNewValue (setRollbackCancelled k false) v in
  let r := rollbackIfNeeded p k1 w in
  exists m3 w5 l,
    criticalChange p cfg i m k v w
    = persistFinal p cfg m3 (fst (fst r)) v (criticalMessage p (fst (fst r)) v) w5
    /\ ext w5 = ext (snd r)
    /\ logOf w5 = logOf (snd r)
    /\ trace w5 = trace (snd r) ++ l.
Proof.
  intros k1 r. subst r. unfold criticalChange. fold k1. unfold bind at 1.
  destruct (rollbackIfNeeded p k1 w) as [r w3]. cbn [fst snd].
  set (c1 := if snd r then onRollbackPerformed p cfg m (valueName (fst r)) else ret m).
  assert (Hc1 : keeps ext c1 /\ keeps logOf c1 /\ extends c1).
  { unfold c1, onRollbackPerformed, alertVia.
    split; [| split]; destruct (snd r); try keeps_steps; try extends_steps. }
  destruct Hc1 as (Hc1e & Hc1l & Hc1t).
  pose proof (Hc1e w3) as He4. pose proof (Hc1l w3) as Hl4. destruct (Hc1t w3) as [t4 Ht4].
  unfold bind at 1. destruct (c1 w3) as [m2 w4]. cbn [fst snd] in He4, Hl4, Ht4.
  set (c2 := match p with
             | Windows =>
                 emit (EvSingleShot 10000 i (criticalMessage p (fst r) v)) ;;
                 ret (setDelayed m2 (delayedAlerts m2 ++ [(i, criticalMessage p (fst r) v)]))
             | MacOS => ret m2
             end).
  assert (Hc2 : keeps ext c2 /\ keeps logOf c2 /\ extends c2).
  { unfold c2. split; [| split]; destruct p; try keeps_steps; try extends_steps. }
  destruct Hc2 as (Hc2e & Hc2l & Hc2t).
  pose proof (Hc2e w4) as He5. pose proof (Hc2l w4) as Hl5. destruct (Hc2t w4) as [t5 Ht5].
  unfold bind at 1. destruct (c2 w4) as [m3 w5]. cbn [fst snd] in He5, Hl5, Ht5.
  exists m3, w5, (t4 ++ t5). split; [done |].
  split; [congruence |]. split; [congruence |]. by rewrite Ht5, Ht4, app_assoc.
Qed.

(** Everything a pass leaves behind when it finds a critical value
    changed to something other than the value last alerted. *)
Lemma checkItem_critical p cfg i m k w :
  isCritical k = true ->
  liveValue p (ext w) k <> value k ->
  lastAlerted m (valueName k) <> liveValue p (ext w) k ->
  let current := liveValue p (ext w) k in
  let f := storePath p (ext w) k in
  let res := checkItem p cfg i m k w in
  fst (fst res)
  = mkItem (hive k) (path k) (valueName k) true current (value k) current
           (changeCount k) false
  /\ (exists d, db (snd res) = upserted d (valueName k) (path k) current true
                /\ db_online d = db_online (db w))
  /\ (current <> previousValue k ->
      exists l1 l2 l3,
        trace (snd res)
        = trace w ++ l1 ++ EvWrite f (valueName k) (previousValue k)
                   :: l2 ++ EvEmit (rollbackPerformed (valueName k))
                   :: l3 ++ [EvWrite f (valueName k) current; EvSync f]
                   ++ setReport (ext (snd res)) f k current).
Proof.
  intros Hc Hne Hdeb current f res. subst res.
  rewrite checkItem_changed by done.
  apply String.eqb_neq in Hdeb. rewrite Hdeb, Hc. fold current.
  set (w2 := upd w _ _ _). set (m1 := setLastAlerted m (valueName k) current).
  assert (Hv : value k <> current) by (intros H; by apply Hne).
  destruct (criticalChange_steps p cfg i m1 k current w2) as (m3 & w5 & l5 & -> & He5 & Hl5 & Ht5).
  set (k1 := setNewValue (setRollbackCancelled k false) current) in *.
  assert (Hlive : liveValue p (ext w2) k1 = current) by by destruct p.
  assert (Hpath : storePath p (ext w2) k1 = f) by by destruct p.
  pose proof (rollbackIfNeeded_fst p k1 w2) as Hr. rewrite Hlive in Hr.
  pose proof (sameLog_rollbackIfNeeded p k1 w2) as Hlog.
  pose proof (rollbackIfNeeded_ext p k1 w2) as Hext. rewrite Hlive, Hpath in Hext.
  assert (Htr : current <> previousValue k ->
            exists l1 l2, trace (snd (rollbackIfNeeded p k1 w2))
            = trace w ++ l1 ++ EvWrite f (valueName k) (previousValue k)
                       :: l2 ++ [EvEmit (rollbackPerformed (valueName k))]).
  { intros Hd. rewrite rollbackIfNeeded_diverged by (by rewrite ?Hlive).
    rewrite Hpath. cbn [trace upd valueName previousValue k1 setNewValue
                          setRollbackCancelled].
    exists ((readWarnings p (ext w) k ++ dbWarning (db w))
            ++ readWarnings p (ext w2) k1 ++ readWarnings p (ext w2) k1),
           (EvSync f
            :: restoreReport p (settingsWrite (ext w2) f (valueName k) (previousValue k)) k1
            ++ dbWarning (db w2)).
    cbn [snd trace upd]. unfold w2 at 1. cbn [trace upd].
    rewrite <- !app_assoc. cbn [app]. by rewrite <- ?app_assoc. }
  assert (Hk2 : fst (fst (rollbackIfNeeded p k1 w2)) = k1).
  { rewrite Hr. destruct (_ && _)%bool; [| done]. cbn [fst]. done. }
  rewrite Hk2 in *.
  assert (Hv1 : value k1 <> current) by done.
  assert (Hp5 : storePath p (ext w5) k1 = f).
  { rewrite He5, Hext. destruct (_ && _)%bool; [| done]. by rewrite storePath_write. }
  split; [| split].
  - rewrite persistFinal_item by done. unfold shiftValue, k1. cbn. by rewrite Hc.
  - rewrite persistFinal_db. exists (db w5). split.
    + cbn [valueName path isCritical k1 setNewValue setRollbackCancelled]. by rewrite Hc.
    + assert (H : db_online (db w5) = db_online (db w2)).
      { unfold logOf in *. congruence. }
      rewrite H. unfold w2. cbn [db upd]. unfold logged. by destruct (db_online (db w)) eqn:E.
  - intros Hd. destruct (Htr Hd) as (l1 & l2 & Ht3).
    pose proof (persistFinal_ext p cfg m3 k1 current (criticalMessage p k1 current) w5 Hv1)
      as Hfin.
    destruct (persistFinal_trace p cfg m3 k1 current (criticalMessage p k1 current) w5 Hv1)
      as (l6 & Ht6).
    rewrite Ht6, Hfin, Hp5, Ht5, Ht3.
    exists l1, l2, (l5 ++ l6). cbn [valueName k1 setNewValue setRollbackCancelled].
    rewrite <- !app_assoc. cbn [app]. by rewrite <- ?app_assoc.
Qed.

(** X1.  A pass that finds a critical value changed (and not to the value
    last alerted for the item) ends with the value it found: the item
    caches it, with the old cached value as [previousValue], the found
    value as [newValue] and the exemption flag cleared; reading the store
    again gives the found value; a reachable database holds it in the
    configuration row of the item.  When the found value differs from
    [previousValue] the pass writes [previousValue] back and emits
    [rollbackPerformed], and after that its last statement, [setValue],
    writes the found value again. *)
Theorem critical_pass_ends_on_found_value
        (p : Platform) (cfg : Settings) (i : nat) (m : Monitoring) (k : Item) (w : World) :
  isCritical k = true ->
  fst (getCurrentValue p k w) <> value k ->
  lastAlerted m (valueName k) <> fst (getCurrentValue p k w) ->
  let current := fst (getCurrentValue p k w) in
  let f := storePath p (ext w) k in
  let res := checkItem p cfg i m k w in
  fst (fst res)
  = mkItem (hive k) (path k) (valueName k) true current (value k) current
           (changeCount k) false
  /\ fst (getCurrentValue p (fst (fst res)) (snd res)) = current
  /\ (db_online (db w) = true ->
      db_configurations (db (snd res)) !! valueName k
      = Some (mkConfig (path k) current true))
  /\ (current <> previousValue k ->
      exists l1 l2 l3,
        trace (snd res)
        = trace w ++ l1 ++ EvWrite f (valueName k) (previousValue k)
                   :: l2 ++ EvEmit (rollbackPerformed (valueName k))
                   :: l3 ++ [EvWrite f (valueName k) current; EvSync f]
                   ++ setReport (ext (snd res)) f k current).
Proof.
  intros Hc Hne Hdeb current f res. subst current.
  rewrite getCurrentValue_upd in *. cbn [fst] in *.
  destruct (checkItem_critical p cfg i m k w Hc Hne Hdeb) as (Hitem & (d & Hdb & Hon) & Htr).
  split; [exact Hitem |]. split; [| split; [| exact Htr]].
  - rewrite getCurrentValue_upd. cbn [fst].
    pose proof (checkItem_settles p cfg i m k w) as Hs. unfold settled in Hs.
    unfold res. rewrite Hs. apply checkItem_value.
  - intros Honline. unfold res. rewrite Hdb. apply upserted_lookup. congruence.
Qed.

(** X1, an instance: the critical registry value [DoubleClickSpeed],
    cached at "500", is found at "100": after the pass the item caches
    "100". *)
Lemma critical_pass_ends_on_found_value_witness :
  fst (fst (checkItem Windows (settingsWith "3" "10") 0 (monitorOf [mouseKey true false])
                      (mouseKey true false) (worldOf (registry "100" false))))
  = mkItem "HKEY_CURRENT_USER" ("Control Panel" +:+ backslash +:+ "Mouse")
           "DoubleClickSpeed" true
           (fst (getCurrentValue Windows (mouseKey true false)
                                 (worldOf (registry "100" false))))
           "500"
           (fst (getCurrentValue Windows (mouseKey true false)
                                 (worldOf (registry "100" false))))
           0 false.
Proof.
  refine (proj1 (critical_pass_ends_on_found_value Windows (settingsWith "3" "10") 0
                   (monitorOf [mouseKey true false]) (mouseKey true false)
                   (worldOf (registry "100" false)) _ _ _)).
  - reflexivity.
  - vm_compute. discriminate.
  - vm_compute. discriminate.
Defined.

(** X2.  A pass that finds the value changed to the value last alerted
    for the item (the empty value, for an item never alerted before: a
    value that has disappeared) treats the change as a duplicate, critical
    or not: the change is logged and [setValue] writes and caches the
    value found, and that is all.  No rollback, no alert, no counting, no
    update of the configuration row; the monitor is left as it was. *)
Theorem debounced_change_is_accepted
        (p : Platform) (cfg : Settings) (i : nat) (m : Monitoring) (k : Item) (w : World) :
  fst (getCurrentValue p k w) <> value k ->
  lastAlerted m (valueName k) = fst (getCurrentValue p k w) ->
  let current := fst (getCurrentValue p k w) in
  let f := storePath p (ext w) k in
  let e' := settingsWrite (ext w) f (valueName k) current in
  checkItem p cfg i m k w
  = ((shiftValue k current, m),
     upd w e'
         (logged (db w) (mkChange (valueName k) (value k) current false false))
         (readWarnings p (ext w) k ++ dbWarning (db w) ++ setSignals p k current
          ++ [EvWrite f (valueName k) current; EvSync f] ++ setReport e' f k current)).
Proof.
  intros Hne Hdeb current f e'. subst current e'.
  rewrite getCurrentValue_upd in *. cbn [fst] in *.
  set (current := liveValue p (ext w) k) in *.
  set (e' := settingsWrite (ext w) f (valueName k) current).
  rewrite checkItem_changed by done. fold current. rewrite Hdeb, String.eqb_refl.
  unfold bind. rewrite setValue_changed by (intros H; by apply Hne).
  cbn [ret ext db upd]. rewrite upd_upd. fold f. fold e'.
  by rewrite <- !app_assoc.
Qed.

(** X2, an instance: the critical registry value [DoubleClickSpeed],
    cached at "500" and never alerted, has been deleted. *)
Lemma debounced_change_is_accepted_witness :
  fst (checkItem Windows (settingsWith "3" "10") 0 (monitorOf [mouseKey true false])
                 (mouseKey true false) (worldOf emptyRegistry))
  = (shiftValue (mouseKey true false)
                (fst (getCurrentValue Windows (mouseKey true false) (worldOf emptyRegistry))),
     monitorOf [mouseKey true false]).
Proof.
  refine (f_equal fst (debounced_change_is_accepted Windows (settingsWith "3" "10") 0
                         (monitorOf [mouseKey true false]) (mouseKey true false)
                         (worldOf emptyRegistry) _ _)).
  - vm_compute. discriminate.
  - reflexivity.
Defined.

Lemma settled_read p (w : World) k :
  settled p (ext w) k <-> fst (getCurrentValue p k w) = value k.
Proof. rewrite getCurrentValue_upd. done. Qed.

(** X3.  After [checkForChanges] the cache of every monitored item is the
    value the store holds for it, the items are those of before, in the
    same order, and a second [checkForChanges] right away changes
    nothing: it returns the monitor as it is and adds no event but the
    warnings macOS prints for a file or key that is missing. *)
Theorem checkForChanges_settles
        (p : Platform) (cfg : Settings) (m : Monitoring) (w : World) :
  wellFormed p (ext w) ->
  let r := checkForChanges p cfg m w in
  Forall (fun k => fst (getCurrentValue p k (snd r)) = value k) (items (fst r))
  /\ map keyOf (items (fst r)) = map keyOf (items m)
  /\ checkForChanges p cfg (fst r) (snd r)
     = (fst r,
        addTrace (snd r) (flat_map (readWarnings p (ext (snd r))) (items (fst r)))).
Proof.
  intros Hwf r.
  destruct (checkFrom_settles p cfg (items m) [] m w eq_refl Hwf (List.Forall_nil _))
    as (_ & Hs & Hkeys).
  change (checkFrom p cfg (length []) (items m) m w) with r in Hs, Hkeys.
  split; [| split; [exact Hkeys |]].
  - eapply Forall_impl; [exact Hs |]. intros k Hk. by apply settled_read.
  - apply (checkFrom_quiescent p cfg (items (fst r)) [] (fst r) (snd r) eq_refl Hs).
Qed.

Lemma wellFormed_plists v locked : wellFormed MacOS (plists v locked).
Proof.
  intros f n [x Hx]. cbn [plists ext_values ext_files] in *.
  apply lookup_singleton_Some in Hx as [Hk _]. injection Hk as <- _.
  by apply elem_of_singleton.
Qed.

(** X3, an instance: the dock plist holds "0" for the critical key cached
    at "1". *)
Lemma checkForChanges_settles_witness :
  map keyOf (items (fst (checkForChanges MacOS (settingsWith "3" "10")
                                         (monitorOf [dockKey true])
                                         (worldOf (plists "0" false)))))
  = map keyOf (items (monitorOf [dockKey true])).
Proof.
  refine (proj1 (proj2 (checkForChanges_settles MacOS (settingsWith "3" "10")
                          (monitorOf [dockKey true]) (worldOf (plists "0" false)) _))).
  apply wellFormed_plists.
Defined.

(** X4.  When the store holds for every monitored item the value the item
    caches, [checkForChanges] does nothing: the monitor comes back as it
    was, the store and the database are not touched, no signal is
    emitted, no alert is sent; the only events are the warnings
    [PlistFile::getCurrentValue] prints for a file or key that is missing,
    and on Windows there is none. *)
Theorem checkForChanges_quiescent
        (p : Platform) (cfg : Settings) (m : Monitoring) (w : World) :
  Forall (fun k => fst (getCurrentValue p k w) = value k) (items m) ->
  checkForChanges p cfg m w
  = (m, addTrace w (flat_map (readWarnings p (ext w)) (items m)))
  /\ (p = Windows -> checkForChanges p cfg m w = (m, w)).
Proof.
  intros Hs.
  assert (Hs' : Forall (settled p (ext w)) (items m)).
  { eapply Forall_impl; [exact Hs |]. intros k Hk. by apply settled_read. }
  assert (H : checkForChanges p cfg m w
              = (m, addTrace w (flat_map (readWarnings p (ext w)) (items m))))
    by exact (checkFrom_quiescent p cfg (items m) [] m w eq_refl Hs').
  split; [exact H |].
  intros ->. rewrite H. f_equal.
  assert (Hnil : flat_map (readWarnings Windows (ext w)) (items m) = []).
  { clear. induction (items m) as [| k l IH]; [done |]. cbn. by rewrite IH. }
  rewrite Hnil. unfold addTrace. destruct w; cbn. by rewrite app_nil_r.
Qed.

(** X4, an instance: the registry holds "500", the value the key caches. *)
Lemma checkForChanges_quiescent_witness :
  checkForChanges Windows (settingsWith "3" "10") (monitorOf [mouseKey true false])
                  (worldOf (registry "500" false))
  = (monitorOf [mouseKey true false],
     addTrace (worldOf (registry "500" false))
              (flat_map (readWarnings Windows (ext (worldOf (registry "500" false))))
                        (items (monitorOf [mouseKey true false])))).
Proof.
  refine (proj1 (checkForChanges_quiescent Windows (settingsWith "3" "10")
                   (monitorOf [mouseKey true false]) (worldOf (registry "500" false)) _)).
  constructor; [vm_compute; reflexivity | constructor].
Defined.

(** ** A resource that is missing: the handling of the empty value *)

Lemma checkItem_debounced p cfg i m k w :
  liveValue p (ext w) k <> value k ->
  lastAlerted m (valueName k) = liveValue p (ext w) k ->
  let current := liveValue p (ext w) k in
  let f := storePath p (ext w) k in
  let e' := settingsWrite (ext w) f (valueName k) current in
  checkItem p cfg i m k w
  = ((shiftValue k current, m),
     upd w e'
         (logged (db w) (mkChange (valueName k) (value k) current false false))
         (readWarnings p (ext w) k ++ dbWarning (db w) ++ setSignals p k current
          ++ [EvWrite f (valueName k) current; EvSync f] ++ setReport e' f k current)).
Proof.
  intros Hne Hdeb current f e'.
  rewrite checkItem_changed by done. fold current. rewrite Hdeb, String.eqb_refl.
  unfold bind. rewrite setValue_changed by (intros H; by apply Hne).
  cbn [ret ext db upd]. rewrite upd_upd. fold f. fold e'.
  by rewrite <- !app_assoc.
Qed.

(** The calls of [sendAlert] in the critical branch: none on Windows (the
    alert is left to the closure); on macOS the slot of [rollbackPerformed],
    when a rollback was performed, and the last statements of the branch. *)
Lemma criticalChange_calls p cfg i m k v w :
  isCritical k = true ->
  alertCalls (trace (snd (criticalChange p cfg i m k v w)))
  = alertCalls (trace w)
    ++ match p with
       | Windows => []
       | MacOS =>
           (if String.eqb (liveValue p (ext w) k) (previousValue k) then []
            else ["[CRITICAL] Revert performed for file: " +:+ valueName k])
           ++ [criticalMessage MacOS k v]
       end.
Proof.
  intros Hc. unfold criticalChange.
  set (k1 := setNewValue (setRollbackCancelled k false) v).
  assert (Hlive : liveValue p (ext w) k1 = liveValue p (ext w) k) by by destruct p.
  pose proof (rollbackIfNeeded_fst p k1 w) as Hr.
  pose proof (quiet_rollbackIfNeeded p k1 w) as Hq. unfold callsOf in Hq.
  unfold bind at 1. destruct (rollbackIfNeeded p k1 w) as [r w1]. cbn [fst snd] in Hr, Hq.
  rewrite <- Hq. rewrite Hlive in Hr. cbn [isCritical previousValue k1 setNewValue
                                              setRollbackCancelled] in Hr.
  rewrite Hc in Hr. cbn [andb] in Hr.
  destruct p.
  - assert (H1 : forall (b : bool) (n : string),
              quiet (if b then onRollbackPerformed Windows cfg m n else ret m)).
    { intros b n. destruct b; [| apply quiet_ret]. unfold onRollbackPerformed.
      apply quiet_bind; [by apply quiet_emit | intros; apply quiet_ret]. }
    rewrite app_nil_r.
    apply quiet_bind; [apply H1 | intros m1].
    apply quiet_bind.
    { apply quiet_bind; [by apply quiet_emit | intros; apply quiet_ret]. }
    intros m2. intros w2. unfold callsOf. by rewrite persistFinal_calls, app_nil_r.
  - assert (Hmsg : criticalMessage MacOS (fst r) v = criticalMessage MacOS k v).
    { rewrite Hr. by destruct (negb _). }
    rewrite Hmsg.
    apply calls_bind.
    + rewrite Hr. destruct (String.eqb _ _); cbn [negb fst snd].
      * unfold ret. cbn [snd]. by rewrite app_nil_r.
      * unfold onRollbackPerformed.
        apply calls_after_quiet; [by apply quiet_emit | intros _ w2].
        apply alertVia_calls.
    + intros m1 w2 _. apply calls_after_quiet; [apply quiet_ret | intros m2 w3].
      rewrite persistFinal_calls. done.
Qed.

Lemma alertVia_delayed cfg m message w :
  delayedAlerts (fst (alertVia cfg m message w)) = delayedAlerts m.
Proof. unfold alertVia, bind. by destruct (sendAlert cfg (alert m) message w). Qed.

Lemma persistFinal_delayed p cfg m k v message w :
  delayedAlerts (snd (fst (persistFinal p cfg m k v message w))) = delayedAlerts m.
Proof.
  unfold persistFinal.
  apply (bind_inv _ _ _ (fun r => delayedAlerts (snd (fst r)) = _)); intros m1 w1 E1.
  apply (bind_inv _ _ _ (fun r => delayedAlerts (snd (fst r)) = _)); intros b w2 _.
  apply (bind_inv _ _ _ (fun r => delayedAlerts (snd (fst r)) = _)); intros k1 w3 _.
  cbn [ret fst snd]. destruct p.
  - by inversion E1.
  - pose proof (alertVia_delayed cfg m message w) as H. by rewrite E1 in H.
Qed.

(** The closure the critical branch hands to the timer (Windows only). *)
Lemma criticalChange_delayed p cfg i m k v w :
  delayedAlerts (snd (fst (criticalChange p cfg i m k v w)))
  = match p with
    | Windows => delayedAlerts m ++ [(i, criticalMessage Windows k v)]
    | MacOS => delayedAlerts m
    end.
Proof.
  unfold criticalChange.
  set (k1 := setNewValue (setRollbackCancelled k false) v).
  pose proof (rollbackIfNeeded_fst p k1 w) as Hr.
  apply (bind_inv _ _ _ (fun r => delayedAlerts (snd (fst r)) = _)); intros r w1 E.
  rewrite E in Hr. cbn [fst] in Hr.
  assert (Hmsg : criticalMessage p (fst r) v = criticalMessage p k v).
  { rewrite Hr. destruct (_ && _)%bool; by destruct p. }
  rewrite Hmsg.
  apply (bind_inv _ _ _ (fun r => delayedAlerts (snd (fst r)) = _)); intros m1 w2 E1.
  assert (Hm1 : delayedAlerts m1 = delayedAlerts m).
  { destruct (snd r); [| by inversion E1]. unfold onRollbackPerformed in E1.
    destruct p.
    - unfold bind, emit, ret in E1. by inversion E1.
    - unfold bind at 1 in E1. unfold emit at 1 in E1.
      pose proof (alertVia_delayed cfg m ("[CRITICAL] Revert performed for file: "
                                           +:+ valueName (fst r))
                    {| ext := ext w1; db := db w1; clock := clock w1; reads := reads w1;
                       net := net w1; calls := calls w1;
                       trace := trace w1 ++
                         [EvEmit (criticalChangeDetected
                            ("[CRITICAL] Revert performed for file: "
                             +:+ valueName (fst r)))] |}) as H.
      by rewrite E1 in H. }
  apply (bind_inv _ _ _ (fun r => delayedAlerts (snd (fst r)) = _)); intros m2 w3 E2.
  rewrite persistFinal_delayed. destruct p.
  - unfold bind, emit, ret in E2. inversion E2. cbn [delayedAlerts setDelayed].
    by rewrite Hm1.
  - inversion E2. by subst.
Qed.

(** C3 (as amended).  When the backing resource of an item is missing,
    [getCurrentValue] returns the empty string; macOS prints one warning,
    Windows prints nothing.  The tick sees no transition only when the
    cached value is empty too: then the item, the monitor, the store and
    the database are left as they were.  When the cached value is not
    empty the read is handled as any change, to the empty value: the cache
    is overwritten with the empty string and a reachable database gets one
    Change Event from the cached value to the empty string; then
    - when the empty value is the value last alerted for the item (as it
      is for an item never alerted), nothing else happens: the empty value
      is written through [setValue] and the monitor is left as it was;
    - otherwise, for a critical item, [previousValue] (when it is not
      empty) is written back and [rollbackPerformed] is emitted, and the
      alerts follow: on Windows the closure with the critical message is
      handed to the timer, on macOS [sendAlert] is called by the slot of
      [rollbackPerformed] and by the tick;
    - otherwise, for a non-critical item, the change is counted and
      [sendAlert] is called when the threshold is reached (and the call
      site lets the alert through). *)
Theorem missing_resource_is_empty_value
        (p : Platform) (cfg : Settings) (i : nat) (m : Monitoring) (k : Item) (w : World) :
  unavailable p (ext w) k = true ->
  let res := checkItem p cfg i m k w in
  let f := storePath p (ext w) k in
  let n := valueName k in
  fst (getCurrentValue p k w) = ""
  /\ (exists l, snd (getCurrentValue p k w) = upd w (ext w) (db w) l
                /\ match p with
                   | Windows => l = []
                   | MacOS => exists warning, l = [EvWarn warning]
                   end)
  /\ (value k = "" -> res = ((k, m), snd (getCurrentValue p k w)))
  /\ (value k <> "" ->
      value (fst (fst res)) = ""
      /\ (db_online (db w) = true ->
          db_changes (db (snd res))
          = db_changes (db w) ++ [mkChange n (value k) "" false false])
      /\ (lastAlerted m n = "" ->
          let e' := settingsWrite (ext w) f n "" in
          res = ((shiftValue k "", m),
                 upd w e' (logged (db w) (mkChange n (value k) "" false false))
                     (readWarnings p (ext w) k ++ dbWarning (db w) ++ setSignals p k ""
                      ++ [EvWrite f n ""; EvSync f] ++ setReport e' f k "")))
      /\ (lastAlerted m n <> "" -> isCritical k = true ->
          (previousValue k <> "" ->
           exists l1 l2 l3,
             trace (snd res)
             = trace w ++ l1 ++ EvWrite f n (previousValue k)
                        :: l2 ++ EvEmit (rollbackPerformed n) :: l3)
          /\ alertCalls (trace (snd res))
             = alertCalls (trace w)
               ++ match p with
                  | Windows => []
                  | MacOS =>
                      (if String.eqb "" (previousValue k) then []
                       else ["[CRITICAL] Revert performed for file: " +:+ n])
                      ++ [criticalMessage MacOS k ""]
                  end
          /\ delayedAlerts (snd (fst res))
             = match p with
               | Windows => delayedAlerts m ++ [(i, criticalMessage Windows k "")]
               | MacOS => delayedAlerts m
               end)
      /\ (lastAlerted m n <> "" -> isCritical k = false ->
          let threshold := Qt.toInt (nonCriticalAlertThreshold cfg) in
          let count := Qt.wrapInt (changeCount k + 1) in
          let reached := ((0 <? threshold) && (threshold <=? count))%bool in
          alertCalls (trace (snd res))
          = alertCalls (trace w)
            ++ (if (reached && notSilenced p cfg)%bool then [thresholdMessage p k ""]
                else [])
          /\ changeCount (fst (fst res)) = (if reached then 0 else count))).
Proof.
  intros Hun res f n. subst n f.
  pose proof (unavailable_liveValue _ _ _ Hun) as Hlive.
  rewrite getCurrentValue_upd. cbn [fst snd]. split; [done |]. split; [| split].
  - eexists. split; [done |]. unfold readWarnings. destruct p; [done |].
    unfold unavailable in Hun. destruct (fileExists _ _); cbn [negb orb] in *.
    + rewrite Hun. eauto.
    + eauto.
  - intros Hv. unfold res. apply checkItem_unchanged. by rewrite Hlive.
  - intros Hv.
    assert (Hne : liveValue p (ext w) k <> value k) by (by rewrite Hlive).
    split; [| split; [| split; [| split]]].
    + unfold res. by rewrite checkItem_value.
    + intros Hon. unfold res. rewrite checkItem_logs by done.
      unfold logged. rewrite Hon, Hlive. done.
    + intros Hdeb.
      pose proof (checkItem_debounced p cfg i m k w Hne) as H. rewrite Hlive in H.
      exact (H Hdeb).
    + intros Hdeb Hc.
      assert (Hdeb' : lastAlerted m (valueName k) <> liveValue p (ext w) k)
        by (by rewrite Hlive).
      split; [| split].
      * intros Hprev.
        destruct (checkItem_critical p cfg i m k w Hc Hne Hdeb') as (_ & _ & Htr).
        rewrite Hlive in Htr. destruct (Htr (fun H => Hprev (eq_sym H)))
          as (l1 & l2 & l3 & E).
        exists l1, l2. eexists. exact E.
      * unfold res. rewrite checkItem_changed by done. rewrite Hlive.
        apply String.eqb_neq in Hdeb. rewrite Hdeb, Hc.
        set (w2 := upd w _ _ _).
        rewrite criticalChange_calls by done.
        assert (Hw2 : alertCalls (trace w2) = alertCalls (trace w)).
        { apply quiet_upd.
          by rewrite alertCalls_app, alertCalls_readWarnings, alertCalls_dbWarning. }
        rewrite Hw2. f_equal. destruct p; [done |].
        change (ext w2) with (ext w). by rewrite Hlive.
      * unfold res. rewrite checkItem_changed by done. rewrite Hlive.
        apply String.eqb_neq in Hdeb. rewrite Hdeb, Hc.
        rewrite criticalChange_delayed. by destruct p.
    + intros Hdeb Hnc.
      pose proof (checkItem_nonCritical p cfg i m k w Hnc) as H. cbv zeta in H.
      rewrite Hlive in H.
      apply String.eqb_neq in Hdeb.
      assert (Hv' : String.eqb "" (value k) = false)
        by (apply String.eqb_neq; intros E; by apply Hv).
      rewrite Hv', Hdeb in H. cbn [negb andb] in H. exact H.
Qed.

(** C3, an instance: the registry value [DoubleClickSpeed], critical, cached
    at "500" and last alerted at "100", has been deleted; the cache
    becomes empty. *)
Lemma missing_resource_is_empty_value_witness :
  value (fst (fst (checkItem Windows (settingsWith "3" "10") 0
                             (setLastAlerted (monitorOf [mouseKey true false])
                                             "DoubleClickSpeed" "100")
                             (mouseKey true false) (worldOf emptyRegistry)))) = "".
Proof.
  refine (proj1 (proj2 (proj2 (proj2
            (missing_resource_is_empty_value Windows (settingsWith "3" "10") 0
               (setLastAlerted (monitorOf [mouseKey true false]) "DoubleClickSpeed" "100")
               (mouseKey true false) (worldOf emptyRegistry) _))) _)).
  - reflexivity.
  - discriminate.
Defined.

(** ** Alert dispatch: the guards and the attempts *)

Lemma addTrace_advance w l : addTrace w l = advance w 0 0 l.
Proof. unfold addTrace, advance. by rewrite !Nat.add_0_r. Qed.

(** X5.  [sendAlert] gives up at once when neither AWS client exists, when
    the database object is missing, or when the user settings it reads
    (none, when the query fails) name no mail address and no phone
    number: it returns [false], makes no request to AWS, does not read
    the clock and leaves the window of time stamps as it was. *)
Theorem sendAlert_guards (cfg : Settings) (a : Alert) (message : string) (w : World) :
  dispatchReady a (db w) = false ->
  sendAlert cfg a message w = ((false, a), addTrace w [EvSendAlert message]).
Proof.
  intros Hr. rewrite addTrace_advance. unfold sendAlert. mstep emit_eq.
  unfold dispatchReady in Hr.
  destruct (snsClient a), (sesv2Client a), (hasDatabase a);
    cbn [negb andb orb] in *; try done;
    (mstep getAllUserSettings_eq;
     change (db (advance w 0 0 [EvSendAlert message])) with (db w);
     destruct (contacts (db w)) as [| u us]; [done |]; by rewrite Hr).
Qed.

(** X5, an instance: an [Alert] whose AWS credentials could not be
    loaded. *)
Lemma sendAlert_guards_witness :
  sendAlert (settingsWith "3" "10") (mkAlert false false true []) "changed"
            (worldOf emptyRegistry)
  = ((false, mkAlert false false true []),
     addTrace (worldOf emptyRegistry) [EvSendAlert "changed"]).
Proof. apply sendAlert_guards. reflexivity. Defined.

Lemma requestsOf_app l1 l2 : requestsOf (l1 ++ l2) = requestsOf l1 ++ requestsOf l2.
Proof. apply flat_map_app. Qed.

Lemma awsCall_requests c address message w :
  exists l,
    awsCall c address message w = (delivered l, advance w 0 (length l) l)
    /\ requestsOf l = [(c, address, message)].
Proof.
  rewrite awsCall_eq.
  exists [EvDeliver c address message (net w (calls w) c address message)].
  split; [| reflexivity].
  cbn [length delivered existsb]. by destruct (net w _ _ _ _).
Qed.

Lemma viaEmail_requests a message u any w :
  exists l,
    viaEmail a message u any w = ((any || delivered l)%bool, advance w 0 (length l) l)
    /\ requestsOf l
       = map (withMessage message)
             (if (negb (Qt.isEmpty (u_email u)) && sesv2Client a)%bool
              then [(Email, u_email u)] else []).
Proof.
  unfold viaEmail, sendEmailAlert, bind, ret.
  destruct (Qt.isEmpty (u_email u)), (sesv2Client a); cbn [negb andb map];
    try (exists []; by rewrite advance_0, orb_false_r).
  destruct (awsCall_requests Email (u_email u) message w) as (l & -> & Hl).
  exists l. split; [| done]. by destruct (delivered l), any.
Qed.

Lemma viaSms_requests a message u any w :
  exists l,
    viaSms a message u any w = ((any || delivered l)%bool, advance w 0 (length l) l)
    /\ requestsOf l
       = map (withMessage message)
             (if (negb (Qt.isEmpty (u_phone u)) && snsClient a)%bool
              then [(Sms, u_phone u)] else []).
Proof.
  unfold viaSms, sendSmsAlert, bind, ret.
  destruct (Qt.isEmpty (u_phone u)), (snsClient a); cbn [negb andb map];
    try (exists []; by rewrite advance_0, orb_false_r).
  destruct (awsCall_requests Sms (u_phone u) message w) as (l & -> & Hl).
  exists l. split; [| done]. by destruct (delivered l), any.
Qed.

Lemma deliverTo_requests a message u any w :
  exists l,
    deliverTo a message u any w
    = ((any || delivered l)%bool, advance w 0 (length l) l)
    /\ requestsOf l = map (withMessage message) (requestsFor a u).
Proof.
  unfold deliverTo, bind.
  destruct (viaEmail_requests a message u any w) as (l1 & -> & H1).
  destruct (viaSms_requests a message u (any || delivered l1)%bool
              (advance w 0 (length l1) l1)) as (l2 & -> & H2).
  exists (l1 ++ l2).
  rewrite advance_advance, delivered_app, orb_assoc, length_app, requestsOf_app, H1, H2.
  unfold requestsFor. by rewrite map_app.
Qed.

Lemma deliverAll_requests a message users : forall any w,
  exists l,
    deliverAll a message users any w
    = ((any || delivered l)%bool, advance w 0 (length l) l)
    /\ requestsOf l = map (withMessage message) (flat_map (requestsFor a) users).
Proof.
  induction users as [| u rest IH]; intros any w; cbn [deliverAll flat_map].
  - exists []. by rewrite advance_0, orb_false_r.
  - unfold bind.
    destruct (deliverTo_requests a message u any w) as (l1 & -> & H1).
    destruct (IH (any || delivered l1)%bool (advance w 0 (length l1) l1)) as (l2 & -> & H2).
    exists (l1 ++ l2).
    rewrite advance_advance, delivered_app, orb_assoc, length_app, requestsOf_app, H1, H2.
    by rewrite map_app.
Qed.

Lemma sendAlert_requests cfg a message w :
  dispatchReady a (db w) = true ->
  Z.of_nat (length (pruneTimestamps (clock w (reads w)) (alertTimestamps a)))
  < alertsPerHour cfg ->
  exists l r a',
    sendAlert cfg a message w
    = ((delivered l, a'), advance w r (length l) (EvSendAlert message :: l))
    /\ requestsOf l
       = map (withMessage message) (flat_map (requestsFor a) (contacts (db w))).
Proof.
  intros Hr Hlim. unfold sendAlert. mstep emit_eq.
  unfold dispatchReady in Hr. apply andb_prop in Hr as [Hr Hc].
  apply andb_prop in Hr as [Hcl Hdb].
  assert (Hcl' : (negb (snsClient a) && negb (sesv2Client a))%bool = false)
    by (by destruct (snsClient a), (sesv2Client a)).
  rewrite Hcl', Hdb. cbn [negb]. mstep getAllUserSettings_eq.
  change (db (advance w 0 0 [EvSendAlert message])) with (db w).
  destruct (contacts (db w)) as [| u us] eqn:Hus; [done |].
  rewrite Hc. cbn [negb]. mstep currentDateTime_eq. rewrite advance_advance.
  change (clock (advance w 0 0 [EvSendAlert message])
                (reads (advance w 0 0 [EvSendAlert message])))
    with (clock w (reads w + 0)%nat).
  rewrite Nat.add_0_r. change (alertTimestamps (setTimestamps a ?x)) with x.
  apply Z.ltb_lt in Hlim. rewrite Hlim.
  unfold bind at 1.
  destruct (deliverAll_requests
              (setTimestamps a (pruneTimestamps (clock w (reads w)) (alertTimestamps a)))
              message (u :: us) false
              (advance w (0 + 1) (0 + 0) ([EvSendAlert message] ++ [])))
    as (l & -> & Hl).
  exists l. rewrite advance_advance, orb_false_l.
  change (requestsFor (setTimestamps a ?x)) with (requestsFor a) in Hl.
  destruct (delivered l).
  - mstep currentDateTime_eq. rewrite advance_advance. unfold ret.
    eexists _, _. split; [| exact Hl]. apply pair_equal_spec. split; [reflexivity |].
    unfold advance.
    f_equal; first [reflexivity | lia | (cbn [app]; by rewrite app_nil_r)].
  - unfold ret. eexists _, _. split; [| exact Hl]. apply pair_equal_spec. split; [reflexivity |].
    unfold advance.
    f_equal; first [reflexivity | lia | (cbn [app]; by rewrite app_nil_r)].
Qed.

(** X6.  Past its guards and under the rate limit, [sendAlert] goes through
    every row of the user settings in order and makes one request for the
    mail address and one for the phone number, each when it is not empty
    and its client exists, all with the message it was given; a request
    that fails does not stop the loop.  The call returns [true] exactly
    when one of the requests succeeded. *)
Theorem sendAlert_attempts
        (cfg : Settings) (a : Alert) (message : string) (w : World) :
  dispatchReady a (db w) = true ->
  Z.of_nat (length (pruneTimestamps (clock w (reads w)) (alertTimestamps a)))
  < alertsPerHour cfg ->
  let r := sendAlert cfg a message w in
  exists l,
    trace (snd r) = trace w ++ EvSendAlert message :: l
    /\ requestsOf l
       = map (withMessage message) (flat_map (requestsFor a) (contacts (db w)))
    /\ calls (snd r) = (calls w + length l)%nat
    /\ fst (fst r) = delivered l.
Proof.
  intros Hr Hlim r. subst r.
  destruct (sendAlert_requests cfg a message w Hr Hlim) as (l & r & a' & -> & Hl).
  by exists l.
Qed.

(** X6, an instance: one row with a mail address and a phone number, both
    clients, no alert sent before. *)
Lemma sendAlert_attempts_witness :
  exists l,
    trace (snd (sendAlert (settingsWith "3" "10") awsAlert "changed"
                          (worldOf emptyRegistry)))
    = trace (worldOf emptyRegistry) ++ EvSendAlert "changed" :: l
    /\ requestsOf l
       = [(Email, "ops@example.org", "changed"); (Sms, "+15551234567", "changed")].
Proof.
  destruct (sendAlert_attempts (settingsWith "3" "10") awsAlert "changed"
                               (worldOf emptyRegistry)) as (l & Ht & Hr & _).
  - reflexivity.
  - vm_compute. reflexivity.
  - exists l. split; [exact Ht | exact Hr].
Defined.

(** ** Rollback on a store that takes the write *)

Lemma upd_addTrace w l : upd w (ext w) (db w) l = addTrace w l.
Proof. done. Qed.



(** ** User overrides *)

(** The item [allowChange] leaves in the place of [k]. *)
Lemma cancelRollback_spec p k w :
  let v := newValue k in
  let rewrites := (negb (Qt.isEmpty v) && negb (String.eqb (value k) v))%bool in
  exists l,
    cancelRollback p k w
    = (mkItem (hive k) (path k) (valueName k) (isCritical k)
              (if Qt.isEmpty v then value k else v)
              (if rewrites then value k else previousValue k)
              v (changeCount k) true,
       upd w (if rewrites
              then settingsWrite (ext w) (storePath p (ext w) k) (valueName k) v
              else ext w)
           (db w) l).
Proof.
  intros v rewrites. subst rewrites. unfold cancelRollback.
  cbn [newValue setRollbackCancelled]. fold v.
  destruct (Qt.isEmpty v) eqn:Hv; cbn [negb andb].
  - exists []. unfold ret. by rewrite upd_id.
  - destruct (String.eqb (value k) v) eqn:E; cbn [negb].
    + unfold bind at 1. unfold setValue at 1. cbn [value setRollbackCancelled].
      rewrite E. unfold ret at 1. cbv beta iota.
      mstep getExt_eq. mstep emit_upd. mstep getCurrentValue_upd. rewrite upd_upd.
      cbn [ext upd db]. apply String.eqb_eq in E.
      destruct (negb _); cbn [when].
      * mstep emit_upd. rewrite upd_upd. cbn [ext upd db]. unfold ret.
        eexists. apply pair_equal_spec. split; [| reflexivity].
        unfold setRollbackCancelled. by rewrite E.
      * unfold bind, ret. eexists. apply pair_equal_spec. split; [| reflexivity].
        unfold setRollbackCancelled. by rewrite E.
    + apply String.eqb_neq in E.
      unfold bind at 1. rewrite setValue_changed by done. cbv beta iota zeta.
      mstep getExt_eq. mstep emit_upd. rewrite upd_upd. mstep getCurrentValue_upd.
      rewrite upd_upd. cbn [ext upd db].
      change (storePath p (ext w) (setRollbackCancelled k true)) with (storePath p (ext w) k).
      cbn [valueName setRollbackCancelled].
      destruct (negb _); cbn [when].
      * mstep emit_upd. rewrite upd_upd. cbn [ext upd db]. unfold ret.
        eexists. reflexivity.
      * unfold bind, ret. eexists. reflexivity.
Qed.

Lemma allowItem_spec p k w :
  exists l, allowItem p k w = (allowed k, upd w (reapplied p (ext w) k) (db w) l).
Proof.
  unfold allowItem. unfold bind.
  destruct (cancelRollback_spec p (setRollbackCancelled k true) w) as (l & ->).
  exists l. unfold ret. done.
Qed.

Lemma allowFirst_spec p n l2 k : forall l1 w,
  Forall (fun k' => overrideName p k' <> n) l1 ->
  overrideName p k = n ->
  exists l,
    allowFirst p n (l1 ++ k :: l2) w
    = (l1 ++ allowed k :: l2, upd w (reapplied p (ext w) k) (db w) l).
Proof.
  induction l1 as [| k0 l1 IH]; intros w Hl1 Hk.
  - cbn [app allowFirst]. apply String.eqb_eq in Hk. rewrite Hk. unfold bind.
    destruct (allowItem_spec p k w) as (l & ->). by exists l.
  - inversion Hl1 as [| ? ? H0 Hrest]; subst.
    cbn [app allowFirst]. apply String.eqb_neq in H0. rewrite H0. unfold bind.
    destruct (IH w Hrest eq_refl) as (l & ->). by exists l.
Qed.

Lemma allowFirst_unknown p n l : forall w,
  Forall (fun k' => overrideName p k' <> n) l -> allowFirst p n l w = (l, w).
Proof.
  induction l as [| k0 l IH]; intros w Hl; [done |].
  inversion Hl as [| ? ? H0 Hrest]; subst.
  cbn [allowFirst]. apply String.eqb_neq in H0. rewrite H0. unfold bind.
  by rewrite (IH w Hrest).
Qed.

Lemma keepsExt_acknowledgeChanges p n : keeps ext (acknowledgeChanges p n).
Proof.
  assert (H : keeps ext (updateAcknowledgmentStatus n)).
  { intros w. unfold updateAcknowledgmentStatus, bind, getDb, putDb, emit, ret.
    by destruct (db_online (db w)). }
  destruct p; [| exact H].
  intros w. unfold acknowledgeChanges, getAllChanges, bind, getDb, ret.
  destruct (negb _); [apply H | done].
Qed.

(** X8.  [allowChange] works on the first item whose name ([plistPath] on
    macOS) is the one given, and on that item only: its exemption flag is
    set, [previousValue] becomes [newValue] (the empty value when no
    rollback ever recorded one), the cached value becomes [newValue] when
    there is one, and the other fields and the other items stay as they
    were.  The store is written only when there is a [newValue] that the
    item does not cache already. *)
Theorem allowChange_accepts_recorded_value
        (p : Platform) (m : Monitoring) (n : string) (l1 l2 : list Item) (k : Item)
        (w : World) :
  items m = l1 ++ k :: l2 ->
  Forall (fun k' => overrideName p k' <> n) l1 ->
  overrideName p k = n ->
  let r := allowChange p m n w in
  let v := newValue k in
  fst (fst r)
  = setItems m (l1 ++ mkItem (hive k) (path k) (valueName k) (isCritical k)
                             (if Qt.isEmpty v then value k else v) v v
                             (changeCount k) true :: l2)
  /\ ext (snd r)
     = if (negb (Qt.isEmpty v) && negb (String.eqb (value k) v))%bool
       then settingsWrite (ext w) (storePath p (ext w) k) (valueName k) v
       else ext w.
Proof.
  intros Hitems Hl1 Hk r v. subst r. unfold allowChange. unfold bind.
  pose proof (keepsExt_acknowledgeChanges p n w) as He.
  destruct (acknowledgeChanges p n w) as [b w1]. cbn [snd] in He.
  rewrite Hitems.
  destruct (allowFirst_spec p n l2 k l1 w1 Hl1 Hk) as (l & ->).
  cbn [ret fst snd ext upd]. unfold reapplied. by rewrite He.
Qed.

(** X8, an instance: the item as a pass leaves it that found "100" in the
    place of "500". *)
Lemma allowChange_accepts_recorded_value_witness :
  items (fst (fst (allowChange Windows
                     (monitorOf [mkItem "HKEY_CURRENT_USER"
                                        ("Control Panel" +:+ backslash +:+ "Mouse")
                                        "DoubleClickSpeed" true "100" "500" "100" 0 false])
                     "DoubleClickSpeed" (worldOf (registry "100" false)))))
  = [mkItem "HKEY_CURRENT_USER" ("Control Panel" +:+ backslash +:+ "Mouse")
            "DoubleClickSpeed" true "100" "100" "100" 0 true].
Proof.
  refine (f_equal items
            (proj1 (allowChange_accepts_recorded_value Windows
                      (monitorOf [mkItem "HKEY_CURRENT_USER"
                                         ("Control Panel" +:+ backslash +:+ "Mouse")
                                         "DoubleClickSpeed" true "100" "500" "100" 0 false])
                      "DoubleClickSpeed" [] []
                      (mkItem "HKEY_CURRENT_USER"
                              ("Control Panel" +:+ backslash +:+ "Mouse")
                              "DoubleClickSpeed" true "100" "500" "100" 0 false)
                      (worldOf (registry "100" false)) _ _ _))).
  - reflexivity.
  - constructor.
  - reflexivity.
Defined.

(** X9.  [allowChange] with a name that no item bears changes no item and
    does not touch the store; all it does is the acknowledgement in the
    change log. *)
Theorem allowChange_unknown_name
        (p : Platform) (m : Monitoring) (n : string) (w : World) :
  Forall (fun k => overrideName p k <> n) (items m) ->
  let r := allowChange p m n w in
  fst (fst r) = m /\ ext (snd r) = ext w
  /\ snd r = snd (acknowledgeChanges p n w).
Proof.
  intros Hl r. subst r. unfold allowChange. unfold bind.
  pose proof (keepsExt_acknowledgeChanges p n w) as He.
  destruct (acknowledgeChanges p n w) as [b w1]. cbn [snd] in He.
  rewrite (allowFirst_unknown p n (items m) w1 Hl). cbn [ret fst snd].
  split; [by destruct m |]. done.
Qed.

(** X9, an instance: no item is called "WheelScrollLines". *)
Lemma allowChange_unknown_name_witness :
  fst (fst (allowChange Windows (monitorOf [mouseKey true false]) "WheelScrollLines"
                        (worldOf (registry "100" false))))
  = monitorOf [mouseKey true false].
Proof.
  refine (proj1 (allowChange_unknown_name Windows (monitorOf [mouseKey true false])
                   "WheelScrollLines" (worldOf (registry "100" false)) _)).
  constructor; [intros H; discriminate H | constructor].
Defined.




(** ** Acknowledging changes *)

Lemma updateAcknowledgmentStatus_upd n w :
  updateAcknowledgmentStatus n w
  = if db_online (db w)
    then (existsb (fun r => (String.eqb (ch_name r) n && negb (ch_acknowledged r))%bool)
                  (db_changes (db w)),
          upd w (ext w)
              (mkDb (db_online (db w)) (map (acknowledge n) (db_changes (db w)))
                    (db_configurations (db w)) (db_users (db w))) [])
    else (false, upd w (ext w) (db w) [EvWarn WarnDbFailed]).
Proof.
  unfold updateAcknowledgmentStatus, bind, getDb, putDb, emit, ret, upd.
  destruct (db_online (db w)); cbn; by rewrite ?app_nil_r.
Qed.

Lemma pending_acknowledged n l :
  List.filter (fun r => (String.eqb (ch_name r) n && negb (ch_acknowledged r))%bool)
              (map (acknowledge n) l) = [].
Proof.
  induction l as [| r l IH]; [done |]. cbn [map List.filter]. rewrite IH.
  unfold acknowledge.
  destruct (String.eqb (ch_name r) n && negb (ch_acknowledged r))%bool eqn:E.
  - cbn [ch_name ch_acknowledged]. apply andb_prop in E as [-> _]. done.
  - by rewrite E.
Qed.

Lemma existsb_filter_nil {A} (f : A -> bool) l : List.filter f l = [] -> existsb f l = false.
Proof.
  induction l as [| x l IH]; [done |]. cbn [List.filter existsb].
  destruct (f x); [done |]. exact IH.
Qed.

Lemma recorded_acknowledge n r : recorded (acknowledge n r) = recorded r.
Proof. unfold acknowledge. by destruct (_ && _)%bool. Qed.

Lemma acknowledge_keeps n r :
  ch_acknowledged r = true -> acknowledge n r = r.
Proof. intros H. unfold acknowledge. by rewrite H, andb_false_r. Qed.

(** X11.  With a database that can be queried,
    [updateAcknowledgmentStatus] leaves no row of the given name
    unacknowledged; the rows keep their number, order, names, values and
    critical flag, rows already acknowledged are untouched, and a second
    call has nothing to update and returns [false]. *)
Theorem acknowledgement_clears_pending (n : string) (w : World) :
  db_online (db w) = true ->
  let r := updateAcknowledgmentStatus n w in
  pending n (db (snd r)) = []
  /\ map recorded (db_changes (db (snd r))) = map recorded (db_changes (db w))
  /\ (forall i c, db_changes (db w) !! i = Some c -> ch_acknowledged c = true ->
                  db_changes (db (snd r)) !! i = Some c)
  /\ fst (updateAcknowledgmentStatus n (snd r)) = false.
Proof.
  intros Hon r. subst r. rewrite updateAcknowledgmentStatus_upd, Hon.
  cbn [fst snd db upd]. unfold pending. cbn [db_changes].
  split; [apply pending_acknowledged |]. split; [| split].
  - rewrite map_map. apply map_ext. intros c. apply recorded_acknowledge.
  - intros i c Hi Hc. rewrite list_lookup_fmap, Hi. cbn. by rewrite acknowledge_keeps.
  - rewrite updateAcknowledgmentStatus_upd. cbn [db upd db_online db_changes].
    cbn [fst]. apply existsb_filter_nil, pending_acknowledged.
Qed.

(** X11, an instance: one row, not acknowledged. *)
Lemma acknowledgement_clears_pending_witness :
  pending "DoubleClickSpeed"
    (db (snd (updateAcknowledgmentStatus "DoubleClickSpeed"
                (mkWorld emptyRegistry
                   (mkDb true [mkChange "DoubleClickSpeed" "500" "100" false false] ∅ [])
                   secondsClock 0 everyCallSucceeds 0 []))))
  = [].
Proof.
  refine (proj1 (acknowledgement_clears_pending "DoubleClickSpeed"
                   (mkWorld emptyRegistry
                      (mkDb true [mkChange "DoubleClickSpeed" "500" "100" false false] ∅ [])
                      secondsClock 0 everyCallSucceeds 0 []) _)).
  reflexivity.
Defined.

(** X12.  [WindowsMonitoring::allowChange] acknowledges nothing when the
    change log already holds an acknowledged row of that name: the
    database is left as it was (rows of that name that are not
    acknowledged stay so) and [changeAcknowledged] is not emitted. *)
Theorem allowChange_windows_acknowledges_once
        (m : Monitoring) (n : string) (c : ChangeRow) (w : World) :
  db_online (db w) = true ->
  In c (db_changes (db w)) ->
  ch_name c = n ->
  ch_acknowledged c = true ->
  let r := allowChange Windows m n w in
  snd (fst r) = false /\ db (snd r) = db w.
Proof.
  intros Hon Hin Hn Hack r. subst r.
  assert (E : acknowledgeChanges Windows n w = (false, w)).
  { unfold acknowledgeChanges, getAllChanges, bind, getDb, ret. rewrite Hon.
    assert (Hex : existsb (fun r => (String.eqb (ch_name r) n && ch_acknowledged r)%bool)
                          (db_changes (db w)) = true).
    { apply existsb_exists. exists c. split; [done |].
      by rewrite Hn, String.eqb_refl, Hack. }
    by rewrite Hex. }
  unfold allowChange. unfold bind. rewrite E.
  destruct (decide (Forall (fun k' => overrideName Windows k' <> n) (items m)))
    as [Hall | Hsome].
  - by rewrite allowFirst_unknown.
  - apply not_Forall_Exists in Hsome; [| intros k; apply _].
    apply Exists_exists in Hsome. 
    assert (Hsplit : exists l1 k l2, items m = l1 ++ k :: l2
              /\ Forall (fun k' => overrideName Windows k' <> n) l1
              /\ overrideName Windows k = n).
    { clear -Hsome. induction (items m) as [| k0 l IH].
      - destruct Hsome as (x & Hx & _). by apply elem_of_nil in Hx.
      - destruct (decide (overrideName Windows k0 = n)) as [H0 | H0].
        + exists [], k0, l. by repeat split.
        + destruct IH as (l1 & k & l2 & -> & Hl1 & Hk).
          * destruct Hsome as (x & Hx & Hnx). exists x. split; [| done].
            apply elem_of_cons in Hx as [-> | Hx]; [| done]. by destruct Hnx.
          * exists (k0 :: l1), k, l2. repeat split; [| done]. by constructor. }
    destruct Hsplit as (l1 & k & l2 & -> & Hl1 & Hk).
    destruct (allowFirst_spec Windows n l2 k l1 w Hl1 Hk) as (l & ->).
    done.
Qed.

(** X12, an instance: an acknowledged row and a later one that is not. *)
Lemma allowChange_windows_acknowledges_once_witness :
  db (snd (allowChange Windows (monitorOf [mouseKey true false]) "DoubleClickSpeed"
             (mkWorld (registry "100" false)
                (mkDb true [mkChange "DoubleClickSpeed" "500" "100" true false;
                            mkChange "DoubleClickSpeed" "100" "200" false false] ∅ [])
                secondsClock 0 everyCallSucceeds 0 [])))
  = mkDb true [mkChange "DoubleClickSpeed" "500" "100" true false;
               mkChange "DoubleClickSpeed" "100" "200" false false] ∅ [].
Proof.
  refine (proj2 (allowChange_windows_acknowledges_once (monitorOf [mouseKey true false])
                   "DoubleClickSpeed" (mkChange "DoubleClickSpeed" "500" "100" true false)
                   (mkWorld (registry "100" false)
                      (mkDb true [mkChange "DoubleClickSpeed" "500" "100" true false;
                                  mkChange "DoubleClickSpeed" "100" "200" false false] ∅ [])
                      secondsClock 0 everyCallSucceeds 0 []) _ _ _ _)).
  - reflexivity.
  - left. reflexivity.
  - reflexivity.
  - reflexivity.
Defined.

(** ** Marking an item critical *)

Lemma setCriticalFirst_spec n c l2 k : forall l1 w,
  Forall (fun k' => valueName k' <> n) l1 ->
  valueName k = n ->
  setCriticalFirst n c (l1 ++ k :: l2) w
  = (l1 ++ setCritical k c :: l2,
     upd w (ext w) (upserted (db w) (valueName k) (path k) (value k) c) (dbWarning (db w))).
Proof.
  induction l1 as [| k0 l1 IH]; intros w Hl1 Hk.
  - cbn [app setCriticalFirst]. apply String.eqb_eq in Hk. rewrite Hk.
    mstep insertOrUpdateConfiguration_upd. done.
  - inversion Hl1 as [| ? ? H0 Hrest]; subst.
    cbn [app setCriticalFirst]. apply String.eqb_neq in H0. rewrite H0. unfold bind.
    by rewrite (IH w Hrest eq_refl).
Qed.

Lemma setCriticalFirst_unknown n c l : forall w,
  Forall (fun k' => valueName k' <> n) l -> setCriticalFirst n c l w = (l, w).
Proof.
  induction l as [| k0 l IH]; intros w Hl; [done |].
  inversion Hl as [| ? ? H0 Hrest]; subst.
  cbn [setCriticalFirst]. apply String.eqb_neq in H0. rewrite H0. unfold bind.
  by rewrite (IH w Hrest).
Qed.

(** X13.  [setKeyCriticalStatus] (and [setFileCriticalStatus]) sets the
    flag of the first item whose value name is the one given and nothing
    else of it ([previousValue], the value a rollback restores, is not
    refreshed), leaves the other items and the store alone, and upserts
    the configuration row of that name with the path, the cached value and
    the new flag. *)
Theorem setKeyCriticalStatus_marks_first_match
        (m : Monitoring) (n : string) (c : bool) (l1 l2 : list Item) (k : Item)
        (w : World) :
  items m = l1 ++ k :: l2 ->
  Forall (fun k' => valueName k' <> n) l1 ->
  valueName k = n ->
  setKeyCriticalStatus m n c w
  = (setItems m (l1 ++ mkItem (hive k) (path k) (valueName k) c (value k)
                              (previousValue k) (newValue k) (changeCount k)
                              (rollbackCancelled k) :: l2),
     upd w (ext w) (upserted (db w) n (path k) (value k) c) (dbWarning (db w))).
Proof.
  intros Hitems Hl1 Hk. unfold setKeyCriticalStatus, bind. rewrite Hitems.
  rewrite (setCriticalFirst_spec n c l2 k l1 w Hl1 Hk).
  unfold setCritical, ret. by rewrite Hk.
Qed.

(** X13, an instance: the only item is marked critical. *)
Lemma setKeyCriticalStatus_marks_first_match_witness :
  setKeyCriticalStatus (monitorOf [mouseKey false false]) "DoubleClickSpeed" true
                       (worldOf (registry "500" false))
  = (setItems (monitorOf [mouseKey false false]) [mouseKey true false],
     upd (worldOf (registry "500" false)) (registry "500" false)
         (upserted operators "DoubleClickSpeed"
                   ("Control Panel" +:+ backslash +:+ "Mouse") "500" true)
         (dbWarning operators)).
Proof.
  apply (setKeyCriticalStatus_marks_first_match (monitorOf [mouseKey false false])
           "DoubleClickSpeed" true [] [] (mouseKey false false)
           (worldOf (registry "500" false))).
  - reflexivity.
  - constructor.
  - reflexivity.
Defined.

(** X14.  [setKeyCriticalStatus] with a name that no item bears does
    nothing at all. *)
Theorem setKeyCriticalStatus_unknown_name
        (m : Monitoring) (n : string) (c : bool) (w : World) :
  Forall (fun k => valueName k <> n) (items m) ->
  setKeyCriticalStatus m n c w = (m, w).
Proof.
  intros H. unfold setKeyCriticalStatus, bind.
  rewrite (setCriticalFirst_unknown n c (items m) w H). by destruct m.
Qed.

(** X14, an instance: no item is called "WheelScrollLines". *)
Lemma setKeyCriticalStatus_unknown_name_witness :
  setKeyCriticalStatus (monitorOf [mouseKey false false]) "WheelScrollLines" true
                       (worldOf (registry "500" false))
  = (monitorOf [mouseKey false false], worldOf (registry "500" false)).
Proof.
  apply setKeyCriticalStatus_unknown_name.
  constructor; [intros H; discriminate H | constructor].
Defined.

(** ** The key material *)

Module KeyFacts.
Import EncryptionUtils.

Lemma loadEncryptionKeys_consistent f ks :
  keysConsistent ks -> keysConsistent (loadEncryptionKeys f ks).
Proof.
  intros H. unfold loadEncryptionKeys.
  destruct (kf_modified f) as [t |]; [| done].
  destruct (kf_material f) as [[newKey newIv] |]; [| done].
  destruct (Nat.eqb (length newKey) 32) eqn:Ek; cbn [negb]; [| done].
  destruct (Nat.eqb (length newIv) 16) eqn:Ei; cbn [negb]; [| done].
  right. cbn. apply Nat.eqb_eq in Ek, Ei. done.
Qed.

Lemma maybeReloadKeys_consistent f ks :
  keysConsistent ks -> keysConsistent (maybeReloadKeys f ks).
Proof.
  intros H. unfold maybeReloadKeys.
  destruct (lastKeyFileModified ks); [| by apply loadEncryptionKeys_consistent].
  destruct (kf_modified f); [| done].
  destruct (_ <? _); [by apply loadEncryptionKeys_consistent | done].
Qed.

Lemma loadEncryptionKeys_stamp f ks :
  loadEncryptionKeys f ks = ks
  \/ (lastKeyFileModified (loadEncryptionKeys f ks) = kf_modified f
      /\ kf_material f = Some (encryptionKey (loadEncryptionKeys f ks),
                               encryptionIv (loadEncryptionKeys f ks))).
Proof.
  unfold loadEncryptionKeys.
  destruct (kf_modified f) as [t |]; [| by left].
  destruct (kf_material f) as [[newKey newIv] |]; [| by left].
  destruct (Nat.eqb (length newKey) 32); cbn [negb]; [| by left].
  destruct (Nat.eqb (length newIv) 16); cbn [negb]; [| by left].
  by right.
Qed.

(** X15.  The key material is either absent or a key of 32 bytes with a
    vector of 16 bytes: [loadEncryptionKeys], [maybeReloadKeys], [encrypt]
    and [decrypt] keep it so whatever the key file holds (a file that is
    missing, unreadable or of the wrong sizes replaces nothing).
    [maybeReloadKeys] twice is [maybeReloadKeys] once, and [encrypt]
    returns a ciphertext only under a key of 32 bytes and a vector of
    16. *)
Theorem key_material_stays_consistent (f : KeyFile) (ks : Keys) :
  keysConsistent ks ->
  keysConsistent (loadEncryptionKeys f ks)
  /\ keysConsistent (maybeReloadKeys f ks)
  /\ (forall s, keysConsistent (snd (encrypt f ks s)))
  /\ (forall c, keysConsistent (snd (decrypt f ks c)))
  /\ maybeReloadKeys f (maybeReloadKeys f ks) = maybeReloadKeys f ks
  /\ (forall s, fst (encrypt f ks s) <> [] ->
                length (encryptionKey (snd (encrypt f ks s))) = 32%nat
                /\ length (encryptionIv (snd (encrypt f ks s))) = 16%nat).
Proof.
  intros H.
  split; [by apply loadEncryptionKeys_consistent |].
  split; [by apply maybeReloadKeys_consistent |].
  split; [| split; [| split]].
  - intros s. unfold encrypt. destruct (Qt.isEmpty s); [done |].
    destruct (noKeys _); by apply maybeReloadKeys_consistent.
  - intros c. unfold decrypt. destruct c; [done |].
    destruct (noKeys _); [by apply maybeReloadKeys_consistent |].
    destruct (evpDecrypt _ _ _); by apply maybeReloadKeys_consistent.
  - unfold maybeReloadKeys at 2 3.
    destruct (lastKeyFileModified ks) as [t0 |] eqn:E0.
    + destruct (kf_modified f) as [t |] eqn:Ef.
      * destruct (t0 <? t) eqn:Elt.
        -- destruct (loadEncryptionKeys_stamp f ks) as [Hsame | [Hst _]].
           ++ rewrite Hsame. unfold maybeReloadKeys. by rewrite E0, Ef, Elt.
           ++ unfold maybeReloadKeys. rewrite Hst, Ef, Z.ltb_irrefl. done.
        -- unfold maybeReloadKeys. by rewrite E0, Ef, Elt.
      * unfold maybeReloadKeys. by rewrite E0, Ef.
    + destruct (loadEncryptionKeys_stamp f ks) as [Hsame | [Hst _]].
      * rewrite Hsame. unfold maybeReloadKeys. by rewrite E0.
      * unfold maybeReloadKeys. rewrite Hst.
        destruct (kf_modified f) as [t |] eqn:Ef; [by rewrite Z.ltb_irrefl |].
        unfold loadEncryptionKeys. by rewrite Ef.
  - intros s Hs. unfold encrypt in *. destruct (Qt.isEmpty s); [done |].
    pose proof (maybeReloadKeys_consistent f ks H) as Hc.
    destruct (noKeys (maybeReloadKeys f ks)) eqn:En; [done |]. cbn [snd].
    destruct Hc as [(Hk & Hi & _) | (Hk & Hi & _)]; [| done].
    unfold noKeys in En. by rewrite Hk in En.
Qed.

(** X15, an instance: the first load, from a key file with a key and a
    vector of the right sizes. *)
Lemma key_material_stays_consistent_witness :
  keysConsistent (maybeReloadKeys (keyFileOf exampleIv) (mkKeys [] [] None)).
Proof.
  refine (proj1 (proj2 (key_material_stays_consistent (keyFileOf exampleIv)
                          (mkKeys [] [] None) _))).
  left. repeat split.
Defined.

End KeyFacts.

(** ** Contacts at rest *)

Module ContactFacts.
Import Base64 EncryptionUtils ContactStore.

Lemma sextets_three a b c (d : bytes) :
  exists s1 s2 s3 s4,
    sextets (bitsOfBytes (a :: b :: c :: d)) = s1 :: s2 :: s3 :: s4 :: sextets (bitsOfBytes d).
Proof.
  unfold bitsOfBytes. cbn [flat_map]. destruct a, b, c. cbn [bitsOfByte app sextets].
  eauto.
Qed.

Lemma toBase64_three a b c (d : bytes) :
  length (toBase64 (a :: b :: c :: d)) = (4 + length (toBase64 d))%nat.
Proof.
  unfold toBase64. destruct (sextets_three a b c d) as (s1 & s2 & s3 & s4 & ->).
  cbn [map]. rewrite !length_app, !repeat_length. cbn [length].
  set (n := length (map charOfSextet (sextets (bitsOfBytes d)))).
  replace (S (S (S (S n)))) with (n + 1 * 4)%nat by lia.
  rewrite Nat.Div0.mod_add. lia.
Qed.

(** The length of the base64 text of [n] bytes. *)
Lemma toBase64_length (d : bytes) : length (toBase64 d) = (4 * ((length d + 2) / 3))%nat.
Proof.
  assert (H : forall n (d : bytes), (length d <= n)%nat ->
                length (toBase64 d) = (4 * ((length d + 2) / 3))%nat).
  { clear d. induction n as [n IH] using (well_founded_induction lt_wf); intros d Hn.
    destruct d as [| a [| b [| c d]]].
    - reflexivity.
    - destruct a. reflexivity.
    - destruct a, b. reflexivity.
    - rewrite toBase64_three. cbn [length] in *.
      rewrite (IH (length d)) by lia.
      replace (S (S (S (length d))) + 2)%nat with (length d + 2 + 1 * 3)%nat by lia.
      rewrite Nat.div_add by lia. lia. }
  by apply (H (length d)).
Qed.

Lemma cbcEncrypt_count key (ps : list bytes) : forall prev,
  length (cbcEncrypt key prev ps) = length ps.
Proof. induction ps as [| p ps IH]; intros prev; [done |].
  cbn [cbcEncrypt length]. by rewrite IH.
Qed.

Lemma padded_length (data : bytes) : length (pad data) = (16 * (length data / 16 + 1))%nat.
Proof.
  unfold pad. rewrite length_app, repeat_length.
  pose proof (Nat.div_mod_eq (length data) 16).
  pose proof (Nat.mod_upper_bound (length data) 16). lia.
Qed.

(** The ciphertext is as long as the padded text. *)
Lemma evpEncrypt_size key iv (input : bytes) :
  length key = 32%nat -> length iv = 16%nat ->
  length (evpEncrypt key iv input) = (16 * (length input / 16 + 1))%nat.
Proof.
  intros Hk Hiv.
  destruct (EncryptionFacts.evpEncrypt_blocks EncryptionFacts.aes256_laws key iv input Hk Hiv)
    as (ps & E & F & _ & Ec & _).
  rewrite Ec, EncryptionFacts.concat_length16
    by (by apply (EncryptionFacts.cbcEncrypt_length16 EncryptionFacts.aes256_laws)).
  rewrite cbcEncrypt_count, <- (EncryptionFacts.concat_length16 ps F), <- E.
  apply padded_length.
Qed.

Lemma storedContact_length f ks s :
  keysLoaded f ks ->
  length (default [] (fst (storedContact f ks s))) = columnLength (String.length s).
Proof.
  intros Hl. unfold storedContact, columnLength.
  destruct s as [| c s]; [done |]. cbn [Qt.isEmpty fst default Nat.eqb String.length].
  destruct (EncryptionFacts.encrypt_loaded EncryptionFacts.aes256_laws f ks c s Hl)
    as (a & d & -> & _).
  cbn [fst default]. unfold id. destruct Hl as (Hk & Hiv & _).
  rewrite !toBase64_length, evpEncrypt_size, EncryptionFacts.length_bytes by done.
  done.
Qed.

Lemma columnLength_mono : forall n m, (n <= m)%nat -> (columnLength n <= columnLength m)%nat.
Proof.
  intros n m H. unfold columnLength.
  destruct (Nat.eqb_spec n 0) as [-> | Hn]; [lia |].
  destruct (Nat.eqb_spec m 0) as [-> | Hm]; [lia |].
  assert (H1 : (n / 16 <= m / 16)%nat) by (by apply Nat.Div0.div_le_mono).
  assert (H2 : ((16 * (n / 16 + 1) + 2) / 3 <= (16 * (m / 16 + 1) + 2) / 3)%nat)
    by (apply Nat.Div0.div_le_mono; lia).
  assert (H3 : ((4 * ((16 * (n / 16 + 1) + 2) / 3) + 2) / 3
                <= (4 * ((16 * (m / 16 + 1) + 2) / 3) + 2) / 3)%nat)
    by (apply Nat.Div0.div_le_mono; lia).
  lia.
Qed.

(** X16.  A contact that [insertUserSettings] encodes for its column
    comes back from the decoding of [getAllUserSettings] as it was, the
    empty contact (bound as NULL, the only one that is) included, when the
    key material is loaded and the key file has not changed; the key
    material is left as it was. *)
Theorem stored_contact_roundtrip (f : KeyFile) (ks : Keys) (s : string) :
  keysLoaded f ks ->
  let stored := storedContact f ks s in
  loadedContact f (snd stored) (fst stored) = (s, ks)
  /\ (fst stored = None <-> s = "").
Proof.
  intros Hl stored. subst stored.
  destruct (EncryptionFacts.roundtrip_of_lawful_cipher EncryptionFacts.aes256_laws f ks Hl)
    as (Hrt & Hks & _).
  unfold storedContact, loadedContact.
  destruct s as [| c s]; [done |]. cbn [Qt.isEmpty fst snd default]. unfold id.
  rewrite Base64Facts.fromBase64_toBase64.
  destruct (Hks (String c s)) as [-> Hks2]. split; [| done].
  apply injective_projections; [apply Hrt | apply Hks2].
Qed.

(** X16, an instance: the example key and vector. *)
Lemma stored_contact_roundtrip_witness :
  loadedContact (keyFileOf exampleIv)
                (snd (storedContact (keyFileOf exampleIv) (keysOf exampleIv) "ops@example.org"))
                (fst (storedContact (keyFileOf exampleIv) (keysOf exampleIv) "ops@example.org"))
  = ("ops@example.org", keysOf exampleIv).
Proof.
  refine (proj1 (stored_contact_roundtrip (keyFileOf exampleIv) (keysOf exampleIv)
                   "ops@example.org" _)).
  repeat split.
Defined.

(** X17.  The text [insertUserSettings] binds for a contact of [n] bytes
    has [columnLength n] characters; it fits the 512 characters of the
    columns [user_email] and [phone_number] exactly when the contact has
    at most 287 bytes. *)
Theorem stored_contact_fits_column (f : KeyFile) (ks : Keys) (s : string) :
  keysLoaded f ks ->
  let text := default [] (fst (storedContact f ks s)) in
  length text = columnLength (String.length s)
  /\ ((length text <= 512)%nat <-> (String.length s <= 287)%nat).
Proof.
  intros Hl text. subst text. rewrite storedContact_length by done.
  split; [done |]. split.
  - intros H. destruct (Nat.le_gt_cases (String.length s) 287) as [Hle | Hgt]; [done |].
    pose proof (columnLength_mono 288 (String.length s) Hgt) as Hm.
    change (columnLength 288) with 544%nat in Hm. lia.
  - intros H. pose proof (columnLength_mono (String.length s) 287 H) as Hm.
    change (columnLength 287) with 512%nat in Hm. lia.
Qed.

(** X17, an instance: a contact of 15 bytes. *)
Lemma stored_contact_fits_column_witness :
  length (default [] (fst (storedContact (keyFileOf exampleIv) (keysOf exampleIv)
                                         "ops@example.org")))
  = columnLength (String.length "ops@example.org").
Proof.
  refine (proj1 (stored_contact_fits_column (keyFileOf exampleIv) (keysOf exampleIv)
                   "ops@example.org" _)).
  repeat split.
Defined.

(** X22.  Under loaded key material the ciphertext [encrypt] returns for
    a text of [n > 0] bytes has [4 * ((16 * (n / 16 + 1) + 2) / 3)]
    characters (none for the empty text), and two texts with the same
    ciphertext are the same text; so are two contacts bound to the same
    column text. *)
Theorem encrypt_size_and_injectivity (f : KeyFile) (ks : Keys) :
  keysLoaded f ks ->
  (forall s, length (fst (encrypt f ks s))
             = if Qt.isEmpty s then 0%nat
               else (4 * ((16 * (String.length s / 16 + 1) + 2) / 3))%nat)
  /\ (forall s1 s2, fst (encrypt f ks s1) = fst (encrypt f ks s2) -> s1 = s2)
  /\ (forall s1 s2, fst (storedContact f ks s1) = fst (storedContact f ks s2) -> s1 = s2).
Proof.
  intros Hl.
  destruct (EncryptionFacts.roundtrip_of_lawful_cipher EncryptionFacts.aes256_laws f ks Hl)
    as (Hrt & Hks & _).
  assert (Hinj : forall s1 s2, fst (encrypt f ks s1) = fst (encrypt f ks s2) -> s1 = s2).
  { intros s1 s2 H. rewrite <- (Hrt s1), <- (Hrt s2). by rewrite H. }
  split; [| split; [exact Hinj |]].
  - intros [| c s]; [done |]. cbn [Qt.isEmpty].
    destruct (EncryptionFacts.encrypt_loaded EncryptionFacts.aes256_laws f ks c s Hl)
      as (a & d & -> & _).
    cbn [fst]. destruct Hl as (Hk & Hiv & _).
    by rewrite toBase64_length, evpEncrypt_size,
      EncryptionFacts.length_bytes.
  - intros s1 s2 H. unfold storedContact in H.
    destruct s1 as [| c1 s1], s2 as [| c2 s2]; cbn [Qt.isEmpty fst] in H; try done.
    injection H as H. apply Hinj.
    rewrite <- (Base64Facts.fromBase64_toBase64 (fst (encrypt f ks (String c1 s1)))).
    rewrite H. apply Base64Facts.fromBase64_toBase64.
Qed.

(** X22, an instance: 15 bytes are one block, 24 characters. *)
Lemma encrypt_size_and_injectivity_witness :
  length (fst (encrypt (keyFileOf exampleIv) (keysOf exampleIv) "ops@example.org"))
  = 24%nat.
Proof.
  refine (proj1 (encrypt_size_and_injectivity (keyFileOf exampleIv) (keysOf exampleIv) _)
                "ops@example.org").
  repeat split.
Defined.

End ContactFacts.

(** ** Loading the monitored keys *)

Lemma newItem_spec p h f n critical w :
  wellFormed p (ext w) ->
  exists t,
    newItem p h f n critical w
    = (freshItem p h f n critical (liveValue p (ext w) (freshItem p h f n critical "")),
       upd w (ext w) (db w) t).
Proof.
  intros Hwf. unfold newItem. mstep getExt_eq.
  destruct p.
  - exists []. unfold ret. by rewrite upd_id.
  - unfold liveValue, settingsString, settingsContains, fileExists, freshItem.
    cbn [storePath path valueName].
    set (g := Qt.expandHome (ext_home (ext w)) f).
    case_bool_decide as Hf; cbn [negb when].
    + unfold bind at 1. unfold ret at 1. cbv beta iota.
      destruct (settingsValue (ext w) g n) as [v |] eqn:E; cbn [negb default].
      * exists []. unfold ret. by rewrite upd_id.
      * mstep emit_upd. eexists. reflexivity.
    + mstep emit_upd.
      destruct (settingsValue (ext w) g n) as [v |] eqn:E; cbn [negb default].
      * exfalso. apply Hf, (Hwf g n). unfold settingsValue in E. by rewrite E.
      * mstep emit_upd. rewrite upd_upd. eexists. reflexivity.
Qed.

Lemma isEmpty_false s : Qt.isEmpty s = false -> s <> "".
Proof. by destruct s. Qed.

Lemma entryOf_fields p j h f n c :
  entryOf p j = Some (h, f, n, c) -> f <> "" /\ n <> "".
Proof.
  unfold entryOf. destruct j; try done. destruct p.
  - destruct (Qt.isEmpty (jsonString (jsonMember members "hive"))); [done |].
    destruct (Qt.isEmpty (jsonString (jsonMember members "keyPath"))) eqn:E1; [done |].
    destruct (Qt.isEmpty (jsonString (jsonMember members "valueName"))) eqn:E2; [done |].
    cbn [orb]. intros [= <- <- <- <-]. split; by apply isEmpty_false.
  - destruct (Qt.isEmpty (jsonString (jsonMember members "plistPath"))) eqn:E1; [done |].
    destruct (Qt.isEmpty (jsonString (jsonMember members "valueName"))) eqn:E2; [done |].
    cbn [orb]. intros [= <- <- <- <-]. split; by apply isEmpty_false.
Qed.

Lemma readEntries_spec p l : forall w,
  wellFormed p (ext w) ->
  exists ks t,
    readEntries p l w = (ks, upd w (ext w) (db w) t)
    /\ Forall (loaded p (ext w)) ks
    /\ length ks = length (List.filter (validEntry p) l).
Proof.
  induction l as [| j l IH]; intros w Hwf.
  - exists [], []. cbn [readEntries]. unfold ret. rewrite upd_id. by repeat split.
  - cbn [readEntries List.filter]. unfold validEntry at 1.
    destruct (entryOf p j) as [[[[h f] n] c] |] eqn:E.
    + destruct (newItem_spec p h f n c w Hwf) as (t1 & E1).
      unfold bind at 1. rewrite E1.
      destruct (IH (upd w (ext w) (db w) t1) Hwf) as (ks & t2 & E2 & F & Hlen).
      unfold bind at 1. rewrite E2, upd_upd. cbn [ext upd db] in *.
      eexists (_ :: ks), (t1 ++ t2). split; [reflexivity |]. split.
      * constructor; [| done]. destruct (entryOf_fields p j h f n c E) as [Hf Hn].
        unfold loaded, freshItem. cbn. repeat split; try done; by destruct p.
      * cbn [length]. by rewrite Hlen.
    + apply IH, Hwf.
Qed.

Lemma persistKeys_spec ks : forall w,
  exists d t,
    persistKeys ks w = (tt, upd w (ext w) d t)
    /\ db_online d = db_online (db w)
    /\ db_changes d = db_changes (db w)
    /\ db_users d = db_users (db w)
    /\ (forall n, is_Some (db_configurations (db w) !! n) ->
                  is_Some (db_configurations d !! n))
    /\ (db_online (db w) = true ->
        Forall (fun k => is_Some (db_configurations d !! valueName k)) ks).
Proof.
  induction ks as [| k ks IH]; intros w.
  - exists (db w), []. cbn [persistKeys]. unfold ret. rewrite upd_id. by repeat split.
  - cbn [persistKeys]. mstep insertOrUpdateConfiguration_upd.
    set (d1 := upserted (db w) (valueName k) (path k) (value k) (isCritical k)).
    destruct (IH (upd w (ext w) d1 (dbWarning (db w)))) as (d & t & E & Hon & Hch & Hus & Hdom & Hall).
    rewrite E, upd_upd. cbn [ext upd db] in *.
    assert (H1 : db_online d1 = db_online (db w))
      by (unfold d1, upserted; by destruct (db_online (db w)) eqn:Eo).
    assert (H2 : db_changes d1 = db_changes (db w))
      by (unfold d1, upserted; by destruct (db_online (db w))).
    assert (H2' : db_users d1 = db_users (db w))
      by (unfold d1, upserted; by destruct (db_online (db w))).
    assert (H3 : forall n, is_Some (db_configurations (db w) !! n) ->
                           is_Some (db_configurations d1 !! n)).
    { intros n Hn. unfold d1, upserted. destruct (db_online (db w)); [| done].
      cbn [db_configurations]. rewrite lookup_insert_is_Some.
      destruct (decide (valueName k = n)); [by left | by right]. }
    exists d, (dbWarning (db w) ++ t). split; [done |].
    split; [congruence |]. split; [congruence |]. split; [congruence |].
    split; [intros n Hn; by apply Hdom, H3 |].
    intros Honl. constructor.
    + apply Hdom. unfold d1, upserted. rewrite Honl. cbn [db_configurations].
      rewrite lookup_insert_eq. done.
    + apply Hall. congruence.
Qed.

(** X18.  [reloadMonitoredKeys] (and [reloadPlistFiles]) is all or
    nothing: when the file is missing or cannot be opened, when it does
    not hold a JSON array, or when no element of the array is an object
    with its mandatory strings, the monitored items stay as they are and
    nothing is written to the database. *)
Theorem reload_without_entries_changes_nothing
        (p : Platform) (file : JsonFile) (m : Monitoring) (w : World) :
  match file with
  | FileContent (JArray l) => Forall (fun j => entryOf p j = None) l
  | _ => True
  end ->
  reloadMonitoredKeys p file m w = (m, w).
Proof.
  intros H. unfold reloadMonitoredKeys, readKeysFromJson.
  destruct file as [| | doc]; [done | done |].
  destruct doc; try done.
  assert (E : forall w, readEntries p elements w = ([], w)).
  { clear w. induction H as [| j l Hj _ IH]; intros w; [done |].
    cbn [readEntries]. by rewrite Hj. }
  unfold bind. by rewrite E.
Qed.

(** X18, an instance: an object without "keyPath" and a string. *)
Lemma reload_without_entries_changes_nothing_witness :
  reloadMonitoredKeys Windows
    (FileContent (JArray [JObject [("hive", JString "HKEY_CURRENT_USER");
                                   ("valueName", JString "DoubleClickSpeed")];
                          JString "DoubleClickSpeed"]))
    (monitorOf [mouseKey true false]) (worldOf (registry "500" false))
  = (monitorOf [mouseKey true false], worldOf (registry "500" false)).
Proof.
  apply (reload_without_entries_changes_nothing Windows).
  repeat constructor.
Defined.

(** X19.  When [readKeysFromJson] returns items, they replace the
    monitored ones; each caches the value the store holds, as [value] and
    as [previousValue], with no [newValue], a change count of 0 and no
    exemption, and has a path and a value name that are not empty.  The
    store and the change log are untouched, a database that can be queried
    holds a configuration row under the name of each item, and a pass
    right after the reload finds nothing changed.  (On macOS: when only
    plist files that exist hold values.) *)
Theorem reload_gives_settled_items
        (p : Platform) (cfg : Settings) (file : JsonFile) (m : Monitoring) (w : World) :
  wellFormed p (ext w) ->
  fst (readKeysFromJson p file w) <> [] ->
  let r := reloadMonitoredKeys p file m w in
  let ks := items (fst r) in
  fst r = setItems m (fst (readKeysFromJson p file w))
  /\ ext (snd r) = ext w
  /\ db_changes (db (snd r)) = db_changes (db w)
  /\ Forall (fun k => fst (getCurrentValue p k (snd r)) = value k
                      /\ previousValue k = value k
                      /\ newValue k = "" /\ changeCount k = 0
                      /\ rollbackCancelled k = false
                      /\ path k <> "" /\ valueName k <> "") ks
  /\ (db_online (db w) = true ->
      Forall (fun k => is_Some (db_configurations (db (snd r)) !! valueName k)) ks)
  /\ checkForChanges p cfg (fst r) (snd r)
     = (fst r, addTrace (snd r) (flat_map (readWarnings p (ext (snd r))) ks)).
Proof.
  intros Hwf Hne r ks. subst ks r.
  assert (Er : exists k ks d t,
             fst (readKeysFromJson p file w) = k :: ks
             /\ reloadMonitoredKeys p file m w
                = (setItems m (k :: ks), upd w (ext w) d t)
             /\ Forall (loaded p (ext w)) (k :: ks)
             /\ db_changes d = db_changes (db w)
             /\ (db_online (db w) = true ->
                 Forall (fun k0 => is_Some (db_configurations d !! valueName k0)) (k :: ks))).
  { unfold reloadMonitoredKeys.
    destruct file as [| | doc]; [done | by cbn in Hne |].
    unfold readKeysFromJson in *.
    destruct doc as [| | | | l |]; try (by cbn in Hne).
    destruct (readEntries_spec p l w Hwf) as (ks & t & E & F & _).
    rewrite E in Hne. cbn [fst] in Hne.
    unfold bind at 1. rewrite E.
    destruct ks as [| k ks]; [done |].
    destruct (persistKeys_spec (k :: ks) (upd w (ext w) (db w) t))
      as (d & t2 & E2 & Hon & Hch & _ & _ & Hall).
    unfold bind. rewrite E2, upd_upd. cbn [ret fst snd ext upd db] in *.
    by exists k, ks, d, (t ++ t2). }
  destruct Er as (k & ks & d & t & -> & -> & F & Hch & Hall).
  cbn [fst snd ext upd db items setItems].
  split; [done |]. split; [done |]. split; [done |]. split; [| split].
  - eapply Forall_impl; [exact F |]. intros k0 (H1 & H2 & H3 & H4 & H5 & H6 & H7).
    rewrite getCurrentValue_upd. cbn [fst ext upd]. by repeat split.
  - exact Hall.
  - apply (checkFrom_quiescent p cfg (k :: ks) [] (setItems m (k :: ks))
             (upd w (ext w) d t) eq_refl).
    cbn [ext upd]. eapply Forall_impl; [exact F |]. by intros k0 (H1 & _).
Qed.

(** X19, an instance: one valid entry. *)
Lemma reload_gives_settled_items_witness :
  fst (reloadMonitoredKeys Windows
         (FileContent (JArray [JObject [("hive", JString "HKEY_CURRENT_USER");
                                        ("keyPath", JString "Control Panel\Mouse");
                                        ("valueName", JString "DoubleClickSpeed");
                                        ("isCritical", JBool true)]]))
         (monitorOf []) (worldOf (registry "100" false)))
  = setItems (monitorOf [])
      (fst (readKeysFromJson Windows
         (FileContent (JArray [JObject [("hive", JString "HKEY_CURRENT_USER");
                                        ("keyPath", JString "Control Panel\Mouse");
                                        ("valueName", JString "DoubleClickSpeed");
                                        ("isCritical", JBool true)]]))
         (worldOf (registry "100" false)))).
Proof.
  refine (proj1 (reload_gives_settled_items Windows (settingsWith "3" "10")
                   (FileContent (JArray [JObject [("hive", JString "HKEY_CURRENT_USER");
                                        ("keyPath", JString "Control Panel\Mouse");
                                        ("valueName", JString "DoubleClickSpeed");
                                        ("isCritical", JBool true)]]))
                   (monitorOf []) (worldOf (registry "100" false)) _ _)).
  - exact I.
  - vm_compute. discriminate.
Defined.

(** ** Writing a value *)

(** X20.  [setValue] with a value the item does not cache caches it and
    keeps the old one as [previousValue], whether the write takes effect
    or not: reading the store afterwards gives the new value when the
    store takes the write, and what it held before otherwise. *)
Theorem setValue_caches_whatever_the_store_does
        (p : Platform) (k : Item) (v : string) (w : World) :
  value k <> v ->
  let r := setValue p k v w in
  value (fst r) = v
  /\ previousValue (fst r) = value k
  /\ fst (getCurrentValue p (fst r) (snd r))
     = (if writable p (ext w) k then v else fst (getCurrentValue p k w)).
Proof.
  intros Hne r. subst r. rewrite setValue_changed by done.
  cbn [fst snd]. split; [done |]. split; [done |].
  rewrite !getCurrentValue_upd. cbn [fst ext upd].
  rewrite (liveValue_key p _ (shiftValue k v) k) by done.
  apply liveValue_written.
Qed.

(** X20, an instance: a registry key that is read-only. *)
Lemma setValue_caches_whatever_the_store_does_witness :
  value (fst (setValue Windows (mouseKey true false) "100" (worldOf (registry "500" true))))
  = "100"
  /\ fst (getCurrentValue Windows
            (fst (setValue Windows (mouseKey true false) "100"
                           (worldOf (registry "500" true))))
            (snd (setValue Windows (mouseKey true false) "100"
                           (worldOf (registry "500" true)))))
     = "500".
Proof.
  destruct (setValue_caches_whatever_the_store_does Windows (mouseKey true false) "100"
              (worldOf (registry "500" true))) as (H1 & _ & H3).
  - discriminate.
  - split; [exact H1 |]. rewrite H3. vm_compute. reflexivity.
Defined.

(** ** The change log of a pass *)

Lemma checkItem_logOf p cfg i m k w :
  logOf (snd (checkItem p cfg i m k w))
  = (db_changes (db w) ++ (if db_online (db w) then changeRows p (ext w) k else []),
     db_online (db w)).
Proof.
  unfold changeRows.
  destruct (String.eqb (liveValue p (ext w) k) (value k)) eqn:E.
  - apply String.eqb_eq in E. rewrite checkItem_unchanged by done.
    unfold logOf. cbn [snd db upd]. by destruct (db_online (db w)); rewrite app_nil_r.
  - apply String.eqb_neq in E. rewrite checkItem_changed by done.
    set (w2 := upd w _ _ _).
    assert (Hrest : forall c : M (Item * Monitoring), sameLog c ->
              logOf (snd (c w2)) = logOf w2) by (intros c Hc; apply Hc).
    assert (H2 : logOf w2
                 = (db_changes (db w)
                    ++ (if db_online (db w)
                        then [mkChange (valueName k) (value k) (liveValue p (ext w) k)
                                       false false]
                        else []), db_online (db w))).
    { unfold w2, logOf, logged. cbn [db upd].
      destruct (db_online (db w)) eqn:Eo; cbn [db_changes db_online]; [done |].
      by rewrite app_nil_r, Eo. }
    rewrite <- H2.
    destruct (String.eqb _ _); [| destruct (isCritical k)]; apply Hrest.
    + keeps_steps.
    + apply sameLog_criticalChange.
    + apply sameLog_nonCriticalChange.
Qed.

(** A step of the loop leaves in the store what every key read before. *)
Lemma checkItem_reads p cfg i m k w k2 :
  wellFormed p (ext w) ->
  liveValue p (ext (snd (checkItem p cfg i m k w))) k2 = liveValue p (ext w) k2.
Proof.
  intros Hwf.
  set (k3 := mkItem (hive k2) (path k2) (valueName k2) (isCritical k2)
                    (liveValue p (ext w) k2) (previousValue k2) (newValue k2)
                    (changeCount k2) (rollbackCancelled k2)).
  assert (Hkey : keyOf k3 = keyOf k2) by done.
  assert (Hs : settled p (ext w) k3).
  { unfold settled. by rewrite (liveValue_key p _ k3 k2 Hkey). }
  pose proof (checkItem_others p cfg i m k w k3 Hwf Hs) as H.
  unfold settled in H. by rewrite (liveValue_key p _ k3 k2 Hkey) in H.
Qed.

Lemma changeRows_reads p e1 e2 l :
  (forall k, liveValue p e1 k = liveValue p e2 k) ->
  flat_map (changeRows p e1) l = flat_map (changeRows p e2) l.
Proof.
  intros H. induction l as [| k l IH]; [done |].
  cbn [flat_map]. rewrite IH. unfold changeRows. by rewrite H.
Qed.

Lemma checkFrom_logOf p cfg : forall todo i m w,
  wellFormed p (ext w) ->
  logOf (snd (checkFrom p cfg i todo m w))
  = (db_changes (db w)
     ++ (if db_online (db w) then flat_map (changeRows p (ext w)) todo else []),
     db_online (db w)).
Proof.
  induction todo as [| k rest IH]; intros i m w Hwf.
  - cbn [checkFrom ret snd flat_map]. unfold logOf.
    by destruct (db_online (db w)); rewrite app_nil_r.
  - cbn [checkFrom flat_map]. unfold bind.
    pose proof (checkItem_logOf p cfg i m k w) as Hlog.
    pose proof (checkItem_wellFormed p cfg i m k w Hwf) as Hwf1.
    pose proof (fun k2 => checkItem_reads p cfg i m k w k2 Hwf) as Hreads.
    destruct (checkItem p cfg i m k w) as [[k1 m1] w1]. cbn [fst snd] in *.
    rewrite IH by done. unfold logOf in Hlog. injection Hlog as Hch Hon.
    rewrite Hch, Hon, (changeRows_reads p (ext w1) (ext w) rest Hreads).
    destruct (db_online (db w)); by rewrite <- ?app_assoc, ?app_nil_r.
Qed.

(** X21.  A pass adds to the change log one row per monitored item whose
    store value differs from its cached value, in the order of the items,
    with the name, the cached value and the value found, not acknowledged
    and not marked critical (whether the item is critical or not); nothing
    when the database cannot be queried.  (On macOS: when only plist files
    that exist hold values.) *)
Theorem pass_logs_one_row_per_changed_item
        (p : Platform) (cfg : Settings) (m : Monitoring) (w : World) :
  wellFormed p (ext w) ->
  let r := checkForChanges p cfg m w in
  db_online (db (snd r)) = db_online (db w)
  /\ db_changes (db (snd r))
     = db_changes (db w)
       ++ (if db_online (db w)
           then flat_map (fun k =>
                            let found := fst (getCurrentValue p k w) in
                            if String.eqb found (value k) then []
                            else [mkChange (valueName k) (value k) found false false])
                         (items m)
           else []).
Proof.
  intros Hwf r. subst r.
  pose proof (checkFrom_logOf p cfg (items m) 0 m w Hwf) as H.
  unfold logOf in H. injection H as Hch Hon.
  split; [exact Hon |]. unfold checkForChanges. rewrite Hch. f_equal.
  destruct (db_online (db w)); [| done].
  apply flat_map_ext. intros k. by rewrite getCurrentValue_upd.
Qed.

(** X21, an instance: the dock plist holds "0" for the key cached at
    "1". *)
Lemma pass_logs_one_row_per_changed_item_witness :
  db_changes (db (snd (checkForChanges MacOS (settingsWith "3" "10")
                                       (monitorOf [dockKey true])
                                       (worldOf (plists "0" false)))))
  = [mkChange "autohide" "1" "0" false false].
Proof.
  refine (eq_trans (proj2 (pass_logs_one_row_per_changed_item MacOS (settingsWith "3" "10")
                             (monitorOf [dockKey true]) (worldOf (plists "0" false)) _)) _).
  - apply wellFormed_plists.
  - vm_compute. reflexivity.
Defined.
